(** * Secure archive ingestion and context store of the MCP server backend

    A shallow embedding of
      - [backend/src/mcp/tools/zipHandler.ts]   (class [ZipHandler]),
      - [backend/src/utils/security.ts]         (class [SecurityValidator]),
      - [backend/src/mcp/tools/contextManager.ts] (class [ContextManager]),
      - the API router that calls them (the multer storage,
        [POST /mcp/tools/load-zip] and [GET /context]),
    followed by the properties of the specification that concern them and
    by further properties of the same code.

    Conventions of the embedding.
      - A JavaScript string is a Rocq [string]; [split], [join], [includes],
        [startsWith] and [toLowerCase] are the String.prototype methods of
        the same name, the case mapping being the ASCII one.
      - Byte counts and the other non-negative integer numbers are [N].  The
        one quotient the code computes is kept symbolic ([jsnum]) so that the
        IEEE results NaN and Infinity of a division by zero are explicit.
      - Code that may throw returns an [outcome]; code that also touches the
        file system or the handler's local variables runs in the small
        state-and-exception monad [M].  A thrown exception keeps the state
        reached so far, as in JavaScript.
      - The file system has regular files ([gmap] from absolute path to
        content) and directories ([gset] of absolute paths); the only
        failures it produces are the structural ones (a directory in place
        of a file, a missing or non-directory parent).
      - The function [sanitize] the zip handler imports is the export of
        the npm package sanitize-filename; its replacements and its
        truncation to 255 bytes are transcribed in [SanitizeFilename].
      - The file of the context store holds the array [JSON.stringify]
        wrote or, after a write that failed part way, a text that
        [JSON.parse] rejects; a failing write either leaves the file as it
        was (it could not be opened) or leaves such a text.
      - Timing fields ([duration]) and the winston logger of the zip handler
        are left out: no decision of the code reads them.  *)

From Stdlib Require Import NArith ZArith Ascii String List Permutation Sorted Lia.
From stdpp Require Import base gmap sets list strings pretty.

Open Scope string_scope.
Open Scope list_scope.

(* ===================================================================== *)
(** * Part I: the program                                                 *)
(* ===================================================================== *)

(** Result of a computation that may throw [new Error(msg)]. *)
Inductive outcome (A : Type) : Type :=
| Ok (a : A)
| Throw (msg : string).
Arguments Ok {A} a.
Arguments Throw {A} msg.

(** ** JavaScript strings and numbers *)
Module Js.

Fixpoint split_on (sep : ascii) (s : string) : list string :=
  match s with
  | EmptyString => [EmptyString]
  | String c s' =>
      if Ascii.eqb c sep then EmptyString :: split_on sep s'
      else match split_on sep s' with
           | [] => [String c EmptyString]
           | h :: t => String c h :: t
           end
  end.

(** [s.split('/')] *)
Definition split (s : string) : list string := split_on "/"%char s.

(** [l.join('/')] *)
Fixpoint join (l : list string) : string :=
  match l with
  | [] => ""
  | x :: xs =>
      match xs with
      | [] => x
      | _ :: _ => x +:+ "/" +:+ join xs
      end
  end.

(** [s.startsWith(p)] *)
Definition startsWith (p s : string) : bool := String.prefix p s.

(** [s.includes(p)] *)
Fixpoint includes (p s : string) : bool :=
  String.prefix p s ||
  match s with
  | EmptyString => false
  | String _ s' => includes p s'
  end.

Fixpoint lastChar (s : string) : option ascii :=
  match s with
  | EmptyString => None
  | String c EmptyString => Some c
  | String _ s' => lastChar s'
  end.

(** [s.endsWith('/')] *)
Definition endsWithSlash (s : string) : bool :=
  match lastChar s with
  | Some c => Ascii.eqb c "/"%char
  | None => false
  end.

Definition lowerChar (c : ascii) : ascii :=
  let n := N_of_ascii c in
  if ((65 <=? n) && (n <=? 90))%N then ascii_of_N (n + 32) else c.

(** [s.toLowerCase()] *)
Fixpoint toLowerCase (s : string) : string :=
  match s with
  | EmptyString => EmptyString
  | String c s' => String (lowerChar c) (toLowerCase s')
  end.

(** [`${v}`] of an optional string. *)
Definition show (o : option string) : string :=
  match o with
  | Some s => s
  | None => "undefined"
  end.

(** Truthiness of an optional string: [undefined] and [''] are falsy. *)
Definition truthy (o : option string) : bool :=
  match o with
  | Some s => negb (String.eqb s "")
  | None => false
  end.

(** The value of a quotient of two non-negative integers.  The sizes the
    handler divides are sums of at most a thousand 32-bit fields, so both
    operands are exact doubles and the comparison of the rounded quotient
    with the integer 100 agrees with the comparison of the exact one. *)
Inductive jsnum : Type :=
| JNaN
| JInfinity
| JFinite (num : N) (den : positive).

(** [a / b] *)
Definition div (a b : N) : jsnum :=
  match b with
  | N0 => if (a =? 0)%N then JNaN else JInfinity
  | Npos d => JFinite a d
  end.

(** [x > k] for an integer [k]; false on NaN. *)
Definition gt (x : jsnum) (k : N) : bool :=
  match x with
  | JNaN => false
  | JInfinity => true
  | JFinite n d => (k * Npos d <? n)%N
  end.

(** [Math.ceil(x)] *)
Definition ceil (x : jsnum) : jsnum :=
  match x with
  | JFinite n d => JFinite ((n + Npos d - 1) / Npos d) 1
  | other => other
  end.

End Js.

(** ** Node's [path] module (posix flavour) *)
Module Path.
Import Js.

(** [normalizeString]: the segments of a path with [.] and empty segments
    dropped and [..] resolved against the segment before it. *)
Definition normalizeStep (allowAboveRoot : bool) (res : list string) (seg : string)
  : list string :=
  if String.eqb seg "" || String.eqb seg "." then res
  else if String.eqb seg ".." then
    match last res with
    | Some l =>
        if String.eqb l ".." then (if allowAboveRoot then res ++ [".."] else res)
        else removelast res
    | None => if allowAboveRoot then [".."] else res
    end
  else res ++ [seg].

Definition normalizeString (allowAboveRoot : bool) (segs : list string) : list string :=
  fold_left (normalizeStep allowAboveRoot) segs [].

(** [path.normalize(p)] *)
Definition normalize (p : string) : string :=
  if String.eqb p "" then "."
  else
    let isAbsolute := startsWith "/" p in
    let trailingSeparator := endsWithSlash p in
    let body := join (normalizeString (negb isAbsolute) (split p)) in
    if String.eqb body "" then
      (if isAbsolute then "/" else if trailingSeparator then "./" else ".")
    else
      (if isAbsolute then "/" else "") +:+ body +:+
      (if trailingSeparator then "/" else "").

(** [path.join(a, b)] *)
Definition join2 (a b : string) : string :=
  let joined :=
    if String.eqb a "" then b
    else if String.eqb b "" then a
    else a +:+ "/" +:+ b in
  if String.eqb joined "" then "." else normalize joined.

(** [path.resolve(cwd, ...parts)] for an absolute [cwd]: the rightmost
    absolute part restarts the path, empty parts are skipped, and the
    result is normalised without a trailing separator. *)
Definition resolveStep (acc part : string) : string :=
  if String.eqb part "" then acc
  else if startsWith "/" part then part
  else acc +:+ "/" +:+ part.

Definition resolve (cwd : string) (parts : list string) : string :=
  "/" +:+ join (normalizeString false (split (fold_left resolveStep parts cwd))).

(** [path.dirname(p)] on the paths [join2] returns for an absolute first
    argument (normalised, no trailing separator): everything before the
    last separator, or the root. *)
Definition dirname (p : string) : string :=
  let d := join (removelast (split p)) in
  if String.eqb d "" then (if startsWith "/" p then "/" else ".") else d.

(** [path.basename(p)]: the last non-empty segment. *)
Definition basename (p : string) : string :=
  default "" (last (filter (λ s, s ≠ "") (split p))).

Fixpoint lastDotSuffix (s : string) : option string :=
  match s with
  | EmptyString => None
  | String c s' =>
      match lastDotSuffix s' with
      | Some r => Some r
      | None => if Ascii.eqb c "."%char then Some s else None
      end
  end.

(** [path.extname(p)]: from the last dot of the base name on; empty when
    there is no dot, when the only dot is the first character, or when
    the base name is [..]. *)
Definition extname (p : string) : string :=
  let b := basename p in
  if String.eqb b ".." then ""
  else match b with
       | EmptyString => ""
       | String c rest =>
           match lastDotSuffix rest with
           | Some e => e
           | None => ""
           end
       end.

End Path.

(** ** The file system *)

(** A Node [Buffer]; the handlers read nothing of it but its length. *)
Record Buffer : Type := mkBuffer { byteLength : N }.

Module Fs.

Record FS : Type := mkFS {
  files : gmap string Buffer;   (* regular files, by absolute path *)
  dirs : gset string            (* directories, by absolute path *)
}.

Definition isFile (fs : FS) (p : string) : bool :=
  bool_decide (is_Some (files fs !! p)).

Definition isDir (fs : FS) (p : string) : bool :=
  String.eqb p "/" || bool_decide (p ∈ dirs fs).

(** [fs.existsSync(p)] *)
Definition existsSync (fs : FS) (p : string) : bool :=
  isFile fs p || isDir fs p.

(** The non-empty prefixes of a list of segments, shortest first. *)
Fixpoint prefixes (segs : list string) : list (list string) :=
  match segs with
  | [] => []
  | s :: rest => [s] :: map (cons s) (prefixes rest)
  end.

(** The path itself and every directory above it, the root excepted. *)
Definition ancestors (p : string) : list string :=
  map (λ segs, "/" +:+ Js.join segs)
      (prefixes (Path.normalizeString false (Js.split p))).

(** [fs.mkdirSync(p, { recursive: true })]: creates [p] and the missing
    directories above it; fails when one of them is a regular file. *)
Definition mkdirSync (p : string) (fs : FS) : outcome FS :=
  if existsb (isFile fs) (ancestors p)
  then Throw ("ENOTDIR: not a directory, mkdir '" +:+ p +:+ "'")
  else Ok (mkFS (files fs) (dirs fs ∪ list_to_set (ancestors p))).

(** [fs.writeFileSync(p, data)]: creates or replaces the regular file
    [p]; fails on a directory and when the parent is not a directory. *)
Definition writeFileSync (p : string) (data : Buffer) (fs : FS) : outcome FS :=
  if isDir fs p
  then Throw ("EISDIR: illegal operation on a directory, open '" +:+ p +:+ "'")
  else if isFile fs (Path.dirname p)
  then Throw ("ENOTDIR: not a directory, open '" +:+ p +:+ "'")
  else if negb (isDir fs (Path.dirname p))
  then Throw ("ENOENT: no such file or directory, open '" +:+ p +:+ "'")
  else Ok (mkFS (<[p := data]> (files fs)) (dirs fs)).

End Fs.

(** ** Shared result types ([types/index.ts]) *)

Record ToolResult (D : Type) : Type := mkToolResult {
  success : bool;
  message : string;
  data : option D
}.
Arguments mkToolResult {D} _ _ _.
Arguments success {D} _.
Arguments message {D} _.
Arguments data {D} _.

(** [{ isValid: boolean; reason?: string }] *)
Record Validation : Type := mkValidation {
  isValid : bool;
  reason : option string
}.

Definition valid : Validation := mkValidation true None.
Definition invalid (r : string) : Validation := mkValidation false (Some r).

(** The entries of an opened archive, as the adm-zip package presents them
    ([AdmZip.IZipEntry]). *)
Module AdmZip.

Record Header : Type := mkHeader {
  size : N;               (* declared uncompressed size *)
  compressedSize : N
}.

Record ZipEntry : Type := mkZipEntry {
  entryName : string;
  isDirectory : bool;
  header : Header;
  getData : outcome Buffer       (* [entry.getData()] *)
}.

End AdmZip.

(** The uploaded file as the handler observes it before it writes anything:
    [fs.statSync(path).size], the media type [fileTypeFromBuffer] sniffs
    from its bytes, and what [new AdmZip(path).getEntries()] yields. *)
Record UploadedFile : Type := mkUploadedFile {
  declaredSize : N;
  sniffedMediaType : option string;
  archive : outcome (list AdmZip.ZipEntry)
}.

(** ** [SecurityValidator.validateFile] *)
Module SecurityValidator.
Import Js.

Definition maxFileSize : N := 50 * 1024 * 1024.
Definition allowedMimeTypes : list string :=
  ["application/zip"; "application/x-zip-compressed"].

(** The six [dangerousPatterns], each as the test its regular expression
    performs: [/\.\./], [/^\/+/], [/\\+/], [/\0/], [/<script/i],
    [/javascript:/i]. *)
Definition dangerousPatterns : list (string → bool) :=
  [ includes "..";
    startsWith "/";
    includes "\";
    includes (String Ascii.zero EmptyString);
    (λ s, includes "<script" (toLowerCase s));
    (λ s, includes "javascript:" (toLowerCase s)) ].

(** [upload = None] stands for [!fs.existsSync(filePath)]. *)
Definition validateFile (filePath : string) (upload : option UploadedFile) : Validation :=
  match upload with
  | None => invalid "File does not exist"
  | Some up =>
      if (maxFileSize <? declaredSize up)%N then
        invalid ("File size exceeds maximum allowed size of "
                 +:+ pretty maxFileSize +:+ " bytes")
      else
        match sniffedMediaType up with
        | None => invalid "Invalid file type"
        | Some mime =>
            if negb (bool_decide (mime ∈ allowedMimeTypes)) then invalid "Invalid file type"
            else
              let fileName := Path.basename filePath in
              if existsb (λ pattern, pattern fileName) dangerousPatterns
              then invalid "Filename contains dangerous patterns"
              else valid
        end
  end.

(** [validateZipEntry(entryName, size)] *)
Definition validateZipEntry (entryName : string) (size : N) : Validation :=
  if includes ".." entryName || startsWith "/" entryName then
    invalid "Path traversal attempt detected"
  else if existsb (λ pattern, pattern entryName) dangerousPatterns then
    invalid "Entry name contains dangerous patterns"
  else if (10 * 1024 * 1024 <? size)%N then
    invalid "Entry size too large"
  else valid.

(** *** [sanitizePath] *)

(** [s.replace(/\.\./g, '')]: the matches are taken from left to right
    and do not overlap. *)
Fixpoint removeDotDot (s : string) : string :=
  match s with
  | String c (String c' rest as tail) =>
      if Ascii.eqb c "." && Ascii.eqb c' "." then removeDotDot rest
      else String c (removeDotDot tail)
  | _ => s
  end.

(** [s.replace(/^\/+/, '')] *)
Fixpoint stripLeadingSlashes (s : string) : string :=
  match s with
  | String c rest => if Ascii.eqb c "/" then stripLeadingSlashes rest else s
  | EmptyString => s
  end.

(** [s.replace(/\\+/g, '/')]: every maximal run of backslashes becomes
    one slash. *)
Fixpoint collapseBackslashes (s : string) : string :=
  match s with
  | EmptyString => EmptyString
  | String c rest =>
      if Ascii.eqb c "\" then
        (if startsWith "\" rest then collapseBackslashes rest
         else String "/" (collapseBackslashes rest))
      else String c (collapseBackslashes rest)
  end.

(** [s.replace(/\0/g, '')] *)
Fixpoint removeNul (s : string) : string :=
  match s with
  | EmptyString => EmptyString
  | String c rest =>
      if Ascii.eqb c Ascii.zero then removeNul rest else String c (removeNul rest)
  end.

(** The class [[<>:|?*]] with the double quote (code 34). *)
Definition isSpecial (c : ascii) : bool :=
  existsb (Ascii.eqb c) ["<"; ">"; ":"; ascii_of_N 34; "|"; "?"; "*"]%char.

(** [s.replace(/[<>:|?*]/g, '_')], the double quote included. *)
Fixpoint replaceSpecial (s : string) : string :=
  match s with
  | EmptyString => EmptyString
  | String c rest => String (if isSpecial c then "_"%char else c) (replaceSpecial rest)
  end.

(** [s.substring(1)] *)
Definition substring1 (s : string) : string :=
  match s with
  | EmptyString => EmptyString
  | String _ rest => rest
  end.

Definition sanitizePath (inputPath : string) : string :=
  let sanitized :=
    replaceSpecial
      (removeNul (collapseBackslashes (stripLeadingSlashes (removeDotDot inputPath)))) in
  let sanitized := Path.normalize sanitized in
  let sanitized :=
    if startsWith "/" sanitized then substring1 sanitized else sanitized in
  if String.eqb sanitized "" then "sanitized" else sanitized.

End SecurityValidator.

(** ** The npm package [sanitize-filename] *)

(** The function that zipHandler.ts imports as [sanitize]: the export of
    index.js of sanitize-filename 1.6.3, the version package.json asks for,
    with [truncate] of truncate-utf8-bytes.  The package is not part of
    the repository; its five replacements and the truncation are
    transcribed here in their order. *)
Module SanitizeFilename.
Import Js.

(** [s] is made of characters of [class] only. *)
Fixpoint allOf (class : ascii → bool) (s : string) : bool :=
  match s with
  | EmptyString => true
  | String c rest => class c && allOf class rest
  end.

(** [illegalRe]: the slash, the backslash, the double quote (code 34) and
    the characters [?], [<], [>], [:], [*], [|]. *)
Definition illegal (c : ascii) : bool :=
  existsb (Ascii.eqb c)
          ["/"; "?"; "<"; ">"; "\"; ":"; "*"; "|"; ascii_of_N 34]%char.

(** [controlRe]: the codes 0 to 31 and 128 to 159. *)
Definition control (c : ascii) : bool :=
  let n := N_of_ascii c in
  ((n <=? 31) || (128 <=? n) && (n <=? 159))%N.

(** [s.replace(re, replacement)] for a global expression that matches
    one character of [class]. *)
Fixpoint replaceEach (class : ascii → bool) (replacement s : string) : string :=
  match s with
  | EmptyString => EmptyString
  | String c rest =>
      (if class c then replacement else String c EmptyString)
      +:+ replaceEach class replacement rest
  end.

(** [reservedRe]: one or more dots and nothing else. *)
Definition reserved (s : string) : bool :=
  negb (String.eqb s "") && allOf (λ c, Ascii.eqb c ".") s.

Definition windowsReservedNames : list string :=
  ["con"; "prn"; "aux"; "nul";
   "com0"; "com1"; "com2"; "com3"; "com4"; "com5"; "com6"; "com7"; "com8"; "com9";
   "lpt0"; "lpt1"; "lpt2"; "lpt3"; "lpt4"; "lpt5"; "lpt6"; "lpt7"; "lpt8"; "lpt9"].

(** A line terminator, which the dot of an expression does not match. *)
Definition lineTerminator (c : ascii) : bool :=
  (N_of_ascii c =? 10)%N || (N_of_ascii c =? 13)%N.

(** [windowsReservedRe]: one of the names [con], [prn], [aux], [nul],
    [com0] to [com9], [lpt0] to [lpt9] in either case, alone or followed
    by a dot and any characters but line terminators. *)
Definition windowsReserved (s : string) : bool :=
  existsb (λ name, String.eqb (toLowerCase s) name
                   || startsWith (name +:+ ".") (toLowerCase s)
                      && allOf (λ c, negb (lineTerminator c)) s)
          windowsReservedNames.

(** [s.replace(re, replacement)] for an expression anchored at both ends. *)
Definition replaceWhole (re : string → bool) (replacement s : string) : string :=
  if re s then replacement else s.

Definition dotOrSpace (c : ascii) : bool :=
  Ascii.eqb c "." || Ascii.eqb c " ".

(** [s.replace(windowsTrailingRe, replacement)] where
    [windowsTrailingRe] matches the whole run of dots and spaces the
    string ends with. *)
Fixpoint replaceTrailing (replacement s : string) : string :=
  match s with
  | EmptyString => EmptyString
  | String c rest =>
      if allOf dotOrSpace s then replacement
      else String c (replaceTrailing replacement rest)
  end.

(** The bytes of a character in UTF-8: two from code 128 on. *)
Definition utf8Length (c : ascii) : nat :=
  if (N_of_ascii c <? 128)%N then 1 else 2.

(** [Buffer.byteLength(s)], the length [truncate] measures. *)
Fixpoint utf8Bytes (s : string) : nat :=
  match s with
  | EmptyString => 0
  | String c rest => utf8Length c + utf8Bytes rest
  end.

(** [truncate(string, byteLength)] of truncate-utf8-bytes: the longest
    prefix of at most [byteLength] bytes. *)
Fixpoint truncate (s : string) (byteLength : nat) : string :=
  match s with
  | EmptyString => EmptyString
  | String c rest =>
      if (utf8Length c <=? byteLength)%nat
      then String c (truncate rest (byteLength - utf8Length c))
      else EmptyString
  end.

(** The function [sanitize(input, replacement)] of index.js, which the
    exported function calls. *)
Definition sanitizeWith (input replacement : string) : string :=
  let sanitized :=
    replaceTrailing replacement
      (replaceWhole windowsReserved replacement
         (replaceWhole reserved replacement
            (replaceEach control replacement
               (replaceEach illegal replacement input)))) in
  truncate sanitized 255.

(** The exported function, which the handler imports under the name
    [sanitize]; [replacement] is [options.replacement]. *)
Definition sanitize (input : string) (replacement : string) : string :=
  let output := sanitizeWith input replacement in
  if String.eqb replacement "" then output else sanitizeWith output "".

End SanitizeFilename.

(** ** [ZipHandler] *)
Module ZipHandler.
Import Js AdmZip.

Definition maxExtractedSize : N := 100 * 1024 * 1024.
Definition maxFiles : nat := 1000.
Definition allowedExtensions : list string :=
  [".js"; ".ts"; ".json"; ".md"; ".txt"; ".yml"; ".yaml"; ".csv"; ".xml"].

(** [ExtractOptions]; only [overwrite] is read. *)
Record ExtractOptions : Type := mkExtractOptions {
  overwrite : option bool;
  preserve_structure : option bool
}.

Record ExtractResult : Type := mkExtractResult {
  r_success : bool;
  r_message : string;
  r_extractedFiles : list string;
  r_totalFiles : nat;
  r_totalSize : N;
  r_warnings : option (list string)
}.

(** *** Validation of the archive as a whole *)

(** The loop of [validateZipContents]: the sums of the declared and of
    the compressed sizes over the entries that are not directories. *)
Definition addSizes (acc : N * N) (entry : ZipEntry) : N * N :=
  if isDirectory entry then acc
  else (fst acc + size (header entry), snd acc + compressedSize (header entry))%N.

Definition sizeTotals (entries : list ZipEntry) : N * N :=
  fold_left addSizes entries (0%N, 0%N).

Definition validateZipContents (entries : list ZipEntry) : Validation :=
  if (length entries =? 0)%nat then invalid "ZIP file is empty"
  else if (maxFiles <? length entries)%nat then
    invalid ("ZIP contains too many files (max: " +:+ pretty maxFiles +:+ ")")
  else
    let totalUncompressedSize := fst (sizeTotals entries) in
    let totalCompressedSize := snd (sizeTotals entries) in
    let compressionRatio := div totalUncompressedSize totalCompressedSize in
    if gt compressionRatio 100 then
      invalid "Suspicious compression ratio (possible zip bomb)"
    else if (maxExtractedSize <? totalUncompressedSize)%N then
      invalid ("Total uncompressed size exceeds limit ("
               +:+ pretty maxExtractedSize +:+ " bytes)")
    else valid.

(** *** Validation of one entry *)

Definition validateZipEntry (entry : ZipEntry) : Validation :=
  let entryName := entryName entry in
  if includes ".." entryName || includes "\" entryName || startsWith "/" entryName then
    invalid "Path traversal attempt detected"
  else
    let ext := toLowerCase (Path.extname entryName) in
    if negb (String.eqb ext "") && negb (bool_decide (ext ∈ allowedExtensions)) then
      invalid ("File type not allowed: " +:+ ext)
    else if (10 * 1024 * 1024 <? size (header entry))%N then
      invalid "File too large"
    else valid.

(** *** The state the extraction loop works on *)

Record State : Type := mkState {
  fs : Fs.FS;
  extractedFiles : list string;
  warnings : list string;
  totalSize : N
}.

Definition M (A : Type) : Type := State → outcome A * State.

Definition ret {A} (a : A) : M A := λ s, (Ok a, s).
Definition throw {A} (msg : string) : M A := λ s, (Throw msg, s).
Definition bind {A B} (m : M A) (k : A → M B) : M B :=
  λ s, match m s with
       | (Ok a, s') => k a s'
       | (Throw msg, s') => (Throw msg, s')
       end.
(** [try { m } catch (error) { h(error.message) }] *)
Definition tryCatch {A} (m : M A) (h : string → M A) : M A :=
  λ s, match m s with
       | (Ok a, s') => (Ok a, s')
       | (Throw msg, s') => h msg s'
       end.
Definition lift {A} (o : outcome A) : M A := λ s, (o, s).

Notation "x <- m ;; k" := (bind m (λ x, k))
  (at level 100, m at next level, right associativity).
Notation "m ;;; k" := (bind m (λ _, k))
  (at level 100, right associativity).

Definition existsSync (p : string) : M bool := λ s, (Ok (Fs.existsSync (fs s) p), s).

Definition withFs (op : Fs.FS → outcome Fs.FS) : M unit :=
  λ s, match op (fs s) with
       | Ok fs' => (Ok tt, mkState fs' (extractedFiles s) (warnings s) (totalSize s))
       | Throw msg => (Throw msg, s)
       end.
Definition mkdirSync (p : string) : M unit := withFs (Fs.mkdirSync p).
Definition writeFileSync (p : string) (data : Buffer) : M unit :=
  withFs (Fs.writeFileSync p data).

(** [warnings.push(w)], [extractedFiles.push(p)], [totalSize += n] *)
Definition pushWarning (w : string) : M unit :=
  λ s, (Ok tt, mkState (fs s) (extractedFiles s) (warnings s ++ [w]) (totalSize s)).
Definition pushExtracted (p : string) : M unit :=
  λ s, (Ok tt, mkState (fs s) (extractedFiles s ++ [p]) (warnings s) (totalSize s)).
Definition addTotal (n : N) : M unit :=
  λ s, (Ok tt, mkState (fs s) (extractedFiles s) (warnings s) (totalSize s + n)).
Definition getTotal : M N := λ s, (Ok (totalSize s), s).

(** [for (const entry of entries) body(entry)] *)
Fixpoint forOf (body : ZipEntry → M unit) (entries : list ZipEntry) : M unit :=
  match entries with
  | [] => ret tt
  | entry :: rest => body entry ;;; forOf body rest
  end.

Definition keepComponent (component : string) : bool :=
  negb (String.eqb component "") && negb (String.eqb component ".")
  && negb (String.eqb component "..").

Definition sanitizeFilePath (filePath : string) : string :=
  let components :=
    map (λ component, SanitizeFilename.sanitize component "_") (split filePath) in
  let sanitized := join (List.filter keepComponent components) in
  if String.eqb sanitized "" then "sanitized_file" else sanitized.

(** *** The body of the extraction loop, for one entry *)
Definition extractEntry (extractPath : string) (options : ExtractOptions)
           (entry : ZipEntry) : M unit :=
  if isDirectory entry then ret tt
  else
    let entryValidation := validateZipEntry entry in
    if negb (isValid entryValidation) then
      pushWarning ("Skipped " +:+ entryName entry +:+ ": "
                   +:+ show (reason entryValidation))
    else
      let sanitizedPath := sanitizeFilePath (entryName entry) in
      let outputPath := Path.join2 extractPath sanitizedPath in
      outputExists <- existsSync outputPath ;;
      if outputExists && negb (default false (overwrite options)) then
        pushWarning ("Skipped " +:+ entryName entry +:+ ": File already exists")
      else
        let outputDir := Path.dirname outputPath in
        dirExists <- existsSync outputDir ;;
        (if negb dirExists then mkdirSync outputDir else ret tt) ;;;
        tryCatch
          (data <- lift (getData entry) ;;
           writeFileSync outputPath data ;;;
           pushExtracted sanitizedPath ;;;
           addTotal (byteLength data) ;;;
           total <- getTotal ;;
           if (maxExtractedSize <? total)%N then
             throw ("Total extracted size exceeds limit ("
                    +:+ pretty maxExtractedSize +:+ " bytes)")
           else ret tt)
          (λ msg, pushWarning ("Failed to extract " +:+ entryName entry
                               +:+ ": " +:+ msg)).

(** *** [performExtraction] *)
Definition extractionRoot (cwd extractTo : string) : string :=
  Path.resolve cwd ["data"; extractTo].

Definition performExtractionM (cwd : string) (zip : outcome (list ZipEntry))
           (extractTo : string) (options : ExtractOptions) : M ExtractResult :=
  let extractPath := extractionRoot cwd extractTo in
  rootExists <- existsSync extractPath ;;
  (if negb rootExists then mkdirSync extractPath else ret tt) ;;;
  entries <- lift zip ;;
  let validationResult := validateZipContents entries in
  (if negb (isValid validationResult) then throw (show (reason validationResult))
   else ret tt) ;;;
  forOf (extractEntry extractPath options) entries ;;;
  λ s, (Ok (mkExtractResult
              true
              ("Successfully extracted " +:+ pretty (length (extractedFiles s))
               +:+ " files")
              (extractedFiles s)
              (length entries)
              (totalSize s)
              (if (0 <? length (warnings s))%nat then Some (warnings s) else None)),
        s).

Definition initialState (disk : Fs.FS) : State := mkState disk [] [] 0.

(** The promise [performExtraction] returns, with the file system it
    leaves behind. *)
Definition performExtraction (cwd : string) (zip : outcome (list ZipEntry))
           (extractTo : string) (options : ExtractOptions) (disk : Fs.FS)
  : outcome ExtractResult * Fs.FS :=
  let '(res, s) := performExtractionM cwd zip extractTo options (initialState disk) in
  (res, fs s).

(** *** [extractZip], the operation exposed to callers.
    [upload = None] stands for [!fs.existsSync(file_path)];
    [extract_to = None] for an omitted argument. *)
Definition extractZip (cwd file_path : string) (upload : option UploadedFile)
           (extract_to : option string) (options : ExtractOptions) (disk : Fs.FS)
  : ToolResult ExtractResult * Fs.FS :=
  let extract_to := default "extracted" extract_to in
  match upload with
  | None => (mkToolResult false ("File not found: " +:+ file_path) None, disk)
  | Some up =>
      let securityResult := SecurityValidator.validateFile file_path upload in
      if negb (isValid securityResult) then
        (mkToolResult false
           ("Security validation failed: " +:+ show (reason securityResult)) None,
         disk)
      else
        match performExtraction cwd (archive up) extract_to options disk with
        | (Ok extractResult, disk') =>
            (mkToolResult (r_success extractResult) (r_message extractResult)
               (Some extractResult), disk')
        | (Throw msg, disk') =>
            (mkToolResult false ("Extraction failed: " +:+ msg) None, disk')
        end
  end.

End ZipHandler.

(** ** [ContextManager] *)
Module ContextManager.
Import Js.

Inductive ContextType : Type := zip | file | directory.
Inductive ContextStatus : Type := pending | approved | rejected.

Definition typeName (t : ContextType) : string :=
  match t with zip => "zip" | file => "file" | directory => "directory" end.
Definition statusName (s : ContextStatus) : string :=
  match s with pending => "pending" | approved => "approved" | rejected => "rejected" end.

Record ContextItem : Type := mkContextItem {
  id : string;
  name : string;
  type : ContextType;
  status : ContextStatus;
  created : string;
  updated : string;
  size : N;
  fileCount : option N;
  metadata : option (gmap string string)
}.

Record LogEntry : Type := mkLogEntry {
  level : string;
  text : string;
  detail : string
}.

(** What [data/contexts.json] holds: the text [JSON.stringify] made of a
    collection, or a text cut short by a write that failed part way (a
    proper prefix of such a text, the empty one included), on which
    [JSON.parse] throws [parseError]. *)
Inductive FileContent : Type :=
| Json (contextsArray : list ContextItem)
| Torn (parseError : string).

(** The manager: the in-memory [Map] in insertion order, the content of
    [data/contexts.json] ([None] while the file does not exist), and what
    the logger has received. *)
Record Store : Type := mkStore {
  contexts : list (string * ContextItem);
  contextsFile : option FileContent;
  logs : list LogEntry
}.

(** What the operating system answers to [fs.writeFileSync], which opens
    the file with truncation and then writes: the text is written; the
    file cannot be opened and stays as it was; or the file is opened,
    emptied, and the write fails part way. *)
Inductive WriteAnswer : Type :=
| Written
| NotOpened (msg : string)
| Interrupted (msg : string) (parseError : string).

(** [Map.prototype.get] *)
Fixpoint mapGet (k : string) (m : list (string * ContextItem)) : option ContextItem :=
  match m with
  | [] => None
  | (k', v) :: rest => if String.eqb k k' then Some v else mapGet k rest
  end.

(** [Map.prototype.set]: an existing key keeps its place. *)
Fixpoint mapSet (k : string) (v : ContextItem) (m : list (string * ContextItem))
  : list (string * ContextItem) :=
  match m with
  | [] => [(k, v)]
  | (k', v') :: rest =>
      if String.eqb k k' then (k, v) :: rest else (k', v') :: mapSet k v rest
  end.

(** [Array.from(map.values())] *)
Definition mapValues (m : list (string * ContextItem)) : list ContextItem := map snd m.

Definition logTo (lvl msg det : string) (st : Store) : Store :=
  mkStore (contexts st) (contextsFile st) (logs st ++ [mkLogEntry lvl msg det]).

(** [fs.writeFileSync(this.contextsFile, JSON.stringify(contextsArray))];
    [io] is what the operating system answers to the write.  A write that
    throws part way has changed the file already. *)
Definition writeContextsFile (io : WriteAnswer) (contextsArray : list ContextItem)
           (st : Store) : outcome unit * Store :=
  match io with
  | Written => (Ok tt, mkStore (contexts st) (Some (Json contextsArray)) (logs st))
  | NotOpened msg => (Throw msg, st)
  | Interrupted msg parseError =>
      (Throw msg, mkStore (contexts st) (Some (Torn parseError)) (logs st))
  end.

Definition saveContexts (io : WriteAnswer) (st : Store) : Store :=
  match writeContextsFile io (mapValues (contexts st)) st with
  | (Ok _, st') => st'
  | (Throw msg, st') => logTo "error" "Failed to save contexts" msg st'
  end.

(** [new Map(contextsArray.map(c => [c.id, c]))] when the file exists; a
    file that does not parse leaves the [Map] as it is and is logged. *)
Definition loadContexts (st : Store) : Store :=
  match contextsFile st with
  | Some (Json contextsArray) =>
      mkStore (fold_left (λ m c, mapSet (id c) c m) contextsArray [])
              (contextsFile st) (logs st)
  | Some (Torn parseError) => logTo "error" "Failed to load contexts" parseError st
  | None => st
  end.

(** The manager a starting process constructs over the persisted file. *)
Definition restart (st : Store) : Store :=
  loadContexts (mkStore [] (contextsFile st) (logs st)).

Definition emptyStore : Store := mkStore [] None [].

Record ApprovalArgs : Type := mkApprovalArgs {
  context_id : string;
  approved_flag : bool;            (* [approved] *)
  approval_reason : option string  (* [reason] *)
}.

Definition decision (b : bool) : ContextStatus := if b then approved else rejected.

(** The [try] block of [markApproved]; [now] is [new Date().toISOString()]. *)
Definition markApprovedTry (now : string) (io : WriteAnswer) (args : ApprovalArgs)
           (st : Store) : outcome (ToolResult ContextItem) * Store :=
  match mapGet (context_id args) (contexts st) with
  | None =>
      (Ok (mkToolResult false ("Context not found: " +:+ context_id args) None), st)
  | Some context =>
      let context :=
        mkContextItem (id context) (name context) (type context)
          (decision (approved_flag args)) (created context) now
          (size context) (fileCount context)
          (if truthy (approval_reason args) then
             Some (<["approvalReason" := default "" (approval_reason args)]>
                     (default ∅ (metadata context)))
           else metadata context) in
      let st := mkStore (mapSet (context_id args) context (contexts st))
                        (contextsFile st) (logs st) in
      let st := saveContexts io st in
      let st := logTo "info" ("Context " +:+ statusName (decision (approved_flag args)))
                      (context_id args) st in
      (Ok (mkToolResult true
             ("Context " +:+ statusName (decision (approved_flag args)) +:+ " successfully")
             (Some context)),
       st)
  end.

Definition markApproved (now : string) (io : WriteAnswer) (args : ApprovalArgs)
           (st : Store) : ToolResult ContextItem * Store :=
  match markApprovedTry now io args st with
  | (Ok result, st') => (result, st')
  | (Throw msg, st') =>
      (mkToolResult false ("Failed to update context: " +:+ msg) None,
       logTo "error" "Failed to update context approval" msg st')
  end.

(** [uuid] is [uuidv4()], [now1] and [now2] the two readings of the clock. *)
Definition createContext (uuid now1 now2 : string) (io : WriteAnswer)
           (name : string) (type : ContextType) (size : N) (fileCount : option N)
           (st : Store) : string * Store :=
  let context := mkContextItem uuid name type pending now1 now2 size fileCount None in
  let st := mkStore (mapSet (id context) context (contexts st))
                    (contextsFile st) (logs st) in
  let st := saveContexts io st in
  let st := logTo "info" "Context created" (id context) st in
  (id context, st).

Definition getContext (contextId : string) (st : Store) : option ContextItem :=
  mapGet contextId (contexts st).

(** *** [getContexts] *)

(** The filter argument.  [limit] and [offset] hold the numbers the callers
    pass: [GET /context] passes an integer limit of at least 1 and the
    offset [(page - 1) * limit]; the other callers pass no filter. *)
Record Filter : Type := mkFilter {
  f_status : option string;
  f_type : option string;
  f_search : option string;
  f_limit : option N;
  f_offset : option N
}.

(** [n || d] on a count. *)
Definition orDefault (n : option N) (d : N) : N :=
  match n with
  | Some k => if (k =? 0)%N then d else k
  | None => d
  end.

(** [filter?.field && filter.field !== 'all'] *)
Definition selective (field : option string) : bool :=
  truthy field && negb (String.eqb (default "" field) "all").

Section Sorting.
(** [new Date(s).getTime()], for the timestamps the manager stores. *)
Variable getTime : string → Z.

(** The comparator handed to [sort]: negative when [a] goes first. *)
Definition byCreatedDesc (a b : ContextItem) : Z :=
  (getTime (created b) - getTime (created a))%Z.

(** [Array.prototype.sort], which is stable. *)
Fixpoint insertSorted (x : ContextItem) (l : list ContextItem) : list ContextItem :=
  match l with
  | [] => [x]
  | y :: rest =>
      if (byCreatedDesc x y <=? 0)%Z then x :: y :: rest
      else y :: insertSorted x rest
  end.

Definition sort (l : list ContextItem) : list ContextItem :=
  fold_right insertSorted [] l.

Definition getContexts (filter : option Filter) (st : Store)
  : list ContextItem * nat :=
  let filteredContexts := mapValues (contexts st) in
  let status_f := filter ≫= f_status in
  let filteredContexts :=
    if selective status_f then
      List.filter (λ c, String.eqb (statusName (status c)) (default "" status_f))
                  filteredContexts
    else filteredContexts in
  let type_f := filter ≫= f_type in
  let filteredContexts :=
    if selective type_f then
      List.filter (λ c, String.eqb (typeName (type c)) (default "" type_f))
                  filteredContexts
    else filteredContexts in
  let search_f := filter ≫= f_search in
  let filteredContexts :=
    if truthy search_f then
      let searchTerm := toLowerCase (default "" search_f) in
      List.filter (λ c, includes searchTerm (toLowerCase (name c))) filteredContexts
    else filteredContexts in
  let filteredContexts := sort filteredContexts in
  let total := length filteredContexts in
  let offset := orDefault (filter ≫= f_offset) 0 in
  let limit := orDefault (filter ≫= f_limit) 20 in
  let items := take (N.to_nat limit) (drop (N.to_nat offset) filteredContexts) in
  (items, total).
End Sorting.

(** *** Histories of calls *)
Inductive Call : Type :=
| CallCreate (uuid now1 now2 : string) (io : WriteAnswer)
             (name : string) (type : ContextType) (size : N) (fileCount : option N)
| CallApprove (now : string) (io : WriteAnswer) (args : ApprovalArgs)
| CallRestart.

(** The store after a call, and the id the call returned if it was a
    [createContext]. *)
Definition step (c : Call) (st : Store) : Store * option string :=
  match c with
  | CallCreate uuid now1 now2 io name type size fileCount =>
      let '(newId, st') := createContext uuid now1 now2 io name type size fileCount st in
      (st', Some newId)
  | CallApprove now io args => (snd (markApproved now io args st), None)
  | CallRestart => (restart st, None)
  end.

Fixpoint run (calls : list Call) (st : Store) : Store * list string :=
  match calls with
  | [] => (st, [])
  | c :: rest =>
      let '(st', r) := step c st in
      let '(st'', ids) := run rest st' in
      (st'', match r with Some i => i :: ids | None => ids end)
  end.

End ContextManager.

(** ** The HTTP routes *)
Module Routes.
Import Js.

(** *** The multer storage *)

(** The class [[a-zA-Z0-9.-]] of the [filename] callback. *)
Definition isNameChar (c : ascii) : bool :=
  let n := N_of_ascii c in
  ((97 <=? n) && (n <=? 122) || (65 <=? n) && (n <=? 90)
   || (48 <=? n) && (n <=? 57))%N
  || Ascii.eqb c "."%char || Ascii.eqb c "-"%char.

(** [originalname.replace(/[^a-zA-Z0-9.-]/g, '_')] *)
Fixpoint sanitizedName (originalname : string) : string :=
  match originalname with
  | EmptyString => EmptyString
  | String c rest =>
      String (if isNameChar c then c else "_"%char) (sanitizedName rest)
  end.

(** The [filename] callback; [timestamp] is [Date.now()]. *)
Definition filename (timestamp : N) (originalname : string) : string :=
  pretty timestamp +:+ "-" +:+ sanitizedName originalname.

(** *** [POST /mcp/tools/load-zip] *)





(** *** [GET /context] *)

Record ContextPage : Type := mkContextPage {
  p_items : list ContextManager.ContextItem;
  p_total : nat;
  p_page : N;
  p_limit : N;
  p_totalPages : jsnum
}.

(** The handler, on the query [validateContextQuery] has let through:
    [page] and [limit] are integers, at least 1. *)
Definition listContexts (getTime : string → Z) (page limit : N)
           (status type search : option string) (st : ContextManager.Store)
  : ContextPage :=
  let offset := ((page - 1) * limit)%N in
  let result :=
    ContextManager.getContexts getTime
      (Some (ContextManager.mkFilter status type search (Some limit) (Some offset)))
      st in
  let totalPages := ceil (div (N.of_nat (snd result)) limit) in
  mkContextPage (fst result) (snd result) page limit totalPages.

End Routes.

(* ===================================================================== *)
(** * Part II: vocabulary of the specification                            *)
(* ===================================================================== *)

Module Vocabulary.
Import Js AdmZip.

(** A string without a path separator. *)
Fixpoint noSlash (s : string) : Prop :=
  match s with
  | EmptyString => True
  | String c rest => c ≠ "/"%char ∧ noSlash rest
  end.

(** A path segment that names something below the directory it is joined
    to: not empty, not [.], not [..], no separator. *)
Definition clean (seg : string) : Prop :=
  seg ≠ "" ∧ seg ≠ "." ∧ seg ≠ ".." ∧ noSlash seg.

(** The absolute path with the given segments. *)
Definition render (segs : list string) : string := "/" +:+ join segs.

(** The segments of an absolute path. *)
Definition segments (p : string) : list string :=
  Path.normalizeString false (split p).

(** [p] lies strictly below the directory [root]. *)
Definition Under (root p : string) : Prop :=
  ∃ rest, rest ≠ [] ∧ Forall clean rest ∧ p = render (segments root ++ rest).

(** The three traversal signals of an entry name. *)
Definition contains (p s : string) : Prop := ∃ a b, s = a +:+ p +:+ b.
Definition beginsWith (p s : string) : Prop := ∃ b, s = p +:+ b.
Definition hazardous (entryName : string) : Prop :=
  contains ".." entryName ∨ beginsWith "/" entryName ∨ contains "\" entryName.

(** A string made of separators only, such as [""], ["/"] or ["///"]:
    all its segments are empty. *)
Definition onlySlashes (x : string) : Prop :=
  Forall (λ seg, seg = "") (split x).

(** Summed declared and compressed sizes of the entries that are not
    directories. *)
Fixpoint uncompressedTotal (entries : list ZipEntry) : N :=
  match entries with
  | [] => 0
  | e :: rest =>
      ((if isDirectory e then 0 else size (header e)) + uncompressedTotal rest)%N
  end.
Fixpoint compressedTotal (entries : list ZipEntry) : N :=
  match entries with
  | [] => 0
  | e :: rest =>
      ((if isDirectory e then 0 else compressedSize (header e)) + compressedTotal rest)%N
  end.

(** The extraction directory exists already or can be created. *)
Definition rootAvailable (disk : Fs.FS) (root : string) : Prop :=
  Fs.existsSync disk root = true ∨ ∃ disk', Fs.mkdirSync root disk = Ok disk'.

(** The files of [disk'] that differ from those of [disk] all lie below
    [root]. *)
Definition writesConfined (root : string) (disk disk' : Fs.FS) : Prop :=
  ∀ p, Fs.files disk' !! p ≠ Fs.files disk !! p → Under root p.

(** The components that survive the filter of [sanitizeFilePath]. *)
Definition kept (filePath : string) : list string :=
  List.filter ZipHandler.keepComponent
              (map (λ component, SanitizeFilename.sanitize component "_")
                   (split filePath)).

(** [s] ends with a dot or a space. *)
Fixpoint endsInRun (s : string) : bool :=
  match s with
  | EmptyString => false
  | String c rest =>
      SanitizeFilename.allOf SanitizeFilename.dotOrSpace s || endsInRun rest
  end.

(** A name that none of the five replacements of the package changes. *)
Definition tidy (s : string) : Prop :=
  SanitizeFilename.allOf (λ c, negb (SanitizeFilename.illegal c)) s = true
  ∧ SanitizeFilename.allOf (λ c, negb (SanitizeFilename.control c)) s = true
  ∧ SanitizeFilename.reserved s = false
  ∧ SanitizeFilename.windowsReserved s = false
  ∧ endsInRun s = false.

(** A path none of whose components is longer than the 255 bytes the
    package truncates a name to. *)
Definition shortComponents (filePath : string) : Prop :=
  Forall (λ component, (SanitizeFilename.utf8Bytes component ≤ 255)%nat)
         (split filePath).

(** [n] spaces. *)
Fixpoint spaces (n : nat) : string :=
  match n with
  | O => EmptyString
  | S k => String " " (spaces k)
  end.

(** A computation of the extraction monad that changes no file outside
    [root]. *)
Definition confines {A} (root : string) (m : ZipHandler.M A) : Prop :=
  ∀ s o s', m s = (o, s') → writesConfined root (ZipHandler.fs s) (ZipHandler.fs s').

(** The state after [warnings.push(w)]. *)
Definition warned (w : string) (s : ZipHandler.State) : ZipHandler.State :=
  ZipHandler.mkState (ZipHandler.fs s) (ZipHandler.extractedFiles s)
                     (ZipHandler.warnings s ++ [w]) (ZipHandler.totalSize s).

Definition emptyDisk : Fs.FS := Fs.mkFS ∅ ∅.

Definition fileEntry (name : string) (declared compressed actual : N) : ZipEntry :=
  mkZipEntry name false (mkHeader declared compressed) (Ok (mkBuffer actual)).
Definition dirEntry (name : string) : ZipEntry :=
  mkZipEntry name true (mkHeader 0 0) (Ok (mkBuffer 0)).

Definition zipUpload (entries : list ZipEntry) : UploadedFile :=
  mkUploadedFile 4096 (Some "application/zip") (Ok entries).

Definition noOptions : ZipHandler.ExtractOptions :=
  ZipHandler.mkExtractOptions None None.

(** *** The context store *)

(** Every id the manager holds, in memory or in its file, is in [ids]. *)
Definition knownIn (ids : list string) (st : ContextManager.Store) : Prop :=
  (∀ k c, In (k, c) (ContextManager.contexts st) →
          In k ids ∧ In (ContextManager.id c) ids)
  ∧ (∀ contextsArray c,
       ContextManager.contextsFile st = Some (ContextManager.Json contextsArray) →
       In c contextsArray → In (ContextManager.id c) ids).

(** What a filter selects: a status or a type that is absent, empty or
    ['all'] and a search term that is absent or empty select everything. *)
Definition wantsStatus (filter : option ContextManager.Filter)
           (c : ContextManager.ContextItem) : bool :=
  match filter ≫= ContextManager.f_status with
  | Some s =>
      if String.eqb s "" || String.eqb s "all" then true
      else String.eqb (ContextManager.statusName (ContextManager.status c)) s
  | None => true
  end.

Definition wantsType (filter : option ContextManager.Filter)
           (c : ContextManager.ContextItem) : bool :=
  match filter ≫= ContextManager.f_type with
  | Some t =>
      if String.eqb t "" || String.eqb t "all" then true
      else String.eqb (ContextManager.typeName (ContextManager.type c)) t
  | None => true
  end.

Definition wantsSearch (filter : option ContextManager.Filter)
           (c : ContextManager.ContextItem) : bool :=
  match filter ≫= ContextManager.f_search with
  | Some term =>
      if String.eqb term "" then true
      else includes (toLowerCase term) (toLowerCase (ContextManager.name c))
  | None => true
  end.

(** The records a filter selects, the three tests applied in the order
    status, type, search. *)
Definition selected (filter : option ContextManager.Filter)
           (st : ContextManager.Store) : list ContextManager.ContextItem :=
  List.filter (wantsSearch filter)
    (List.filter (wantsType filter)
       (List.filter (wantsStatus filter)
          (ContextManager.mapValues (ContextManager.contexts st)))).

Definition effectiveOffset (filter : option ContextManager.Filter) : nat :=
  match filter ≫= ContextManager.f_offset with
  | Some n => N.to_nat n
  | None => 0
  end.

Definition effectiveLimit (filter : option ContextManager.Filter) : nat :=
  match filter ≫= ContextManager.f_limit with
  | Some n => if (n =? 0)%N then 20 else N.to_nat n
  | None => 20
  end.

(** [a] was created no earlier than [b]. *)
Definition newestFirst (getTime : string → Z)
           (a b : ContextManager.ContextItem) : Prop :=
  (getTime (ContextManager.created b) ≤ getTime (ContextManager.created a))%Z.

(** A clock reading for the examples: the length of the timestamp. *)
Definition lengthClock (timestamp : string) : Z :=
  Z.of_nat (String.length timestamp).

Definition sampleContext : ContextManager.ContextItem :=
  ContextManager.mkContextItem "c1" "payload.zip" ContextManager.zip
    ContextManager.approved "2024-01-01T00:00:00.000Z" "2024-01-02T00:00:00.000Z"
    2048 (Some 3%N) None.

Definition sampleStore : ContextManager.Store :=
  ContextManager.mkStore [("c1", sampleContext)]
    (Some (ContextManager.Json [sampleContext])) [].

(** A rejected context that carries the reason of its rejection. *)
Definition rejectedContext : ContextManager.ContextItem :=
  ContextManager.mkContextItem "c2" "notes.zip" ContextManager.zip
    ContextManager.rejected "2024-01-03T00:00:00.000Z" "2024-01-04T00:00:00.000Z"
    512 (Some 1%N) (Some {["approvalReason" := "old"]}).

Definition rejectedStore : ContextManager.Store :=
  ContextManager.mkStore [("c2", rejectedContext)]
    (Some (ContextManager.Json [rejectedContext])) [].

(** *** The effect of the extraction loop on one entry *)

(** The state with another file system. *)
Definition withDisk (disk : Fs.FS) (s : ZipHandler.State) : ZipHandler.State :=
  ZipHandler.mkState disk (ZipHandler.extractedFiles s) (ZipHandler.warnings s)
                     (ZipHandler.totalSize s).

(** The file system as the loop body leaves it before it writes an entry:
    the directory of the destination is there already, or has just been
    created. *)
Definition prepared (outputDir : string) (disk disk1 : Fs.FS) : Prop :=
  (Fs.existsSync disk outputDir = true ∧ disk1 = disk)
  ∨ (Fs.existsSync disk outputDir = false ∧ Fs.mkdirSync outputDir disk = Ok disk1).

(** The message of the budget check. *)
Definition overBudget : string :=
  "Total extracted size exceeds limit (" +:+ pretty ZipHandler.maxExtractedSize
  +:+ " bytes)".

(** The six ways the loop body can deal with an entry. *)
Inductive EntryStep (root : string)
          (options : ZipHandler.ExtractOptions) (e : ZipEntry)
  : ZipHandler.State → outcome unit → ZipHandler.State → Prop :=
| StepDirectory s :
    isDirectory e = true →
    EntryStep root options e s (Ok tt) s
| StepRejected s why :
    isDirectory e = false →
    ZipHandler.validateZipEntry e = invalid why →
    EntryStep root options e s (Ok tt)
      (warned ("Skipped " +:+ entryName e +:+ ": " +:+ why) s)
| StepExists s :
    isDirectory e = false →
    ZipHandler.validateZipEntry e = valid →
    Fs.existsSync (ZipHandler.fs s)
      (Path.join2 root (ZipHandler.sanitizeFilePath (entryName e))) = true →
    default false (ZipHandler.overwrite options) = false →
    EntryStep root options e s (Ok tt)
      (warned ("Skipped " +:+ entryName e +:+ ": File already exists") s)
| StepMkdirFails s msg :
    isDirectory e = false →
    ZipHandler.validateZipEntry e = valid →
    Fs.existsSync (ZipHandler.fs s)
      (Path.join2 root (ZipHandler.sanitizeFilePath (entryName e))) = false
    ∨ default false (ZipHandler.overwrite options) = true →
    Fs.existsSync (ZipHandler.fs s)
      (Path.dirname
         (Path.join2 root (ZipHandler.sanitizeFilePath (entryName e))))
    = false →
    Fs.mkdirSync
      (Path.dirname
         (Path.join2 root (ZipHandler.sanitizeFilePath (entryName e))))
      (ZipHandler.fs s) = Throw msg →
    EntryStep root options e s (Throw msg) s
| StepFailed s disk1 msg :
    isDirectory e = false →
    ZipHandler.validateZipEntry e = valid →
    Fs.existsSync (ZipHandler.fs s)
      (Path.join2 root (ZipHandler.sanitizeFilePath (entryName e))) = false
    ∨ default false (ZipHandler.overwrite options) = true →
    prepared
      (Path.dirname
         (Path.join2 root (ZipHandler.sanitizeFilePath (entryName e))))
      (ZipHandler.fs s) disk1 →
    getData e = Throw msg
    ∨ (∃ data, getData e = Ok data
               ∧ Fs.writeFileSync
                   (Path.join2 root
                      (ZipHandler.sanitizeFilePath (entryName e)))
                   data disk1 = Throw msg) →
    EntryStep root options e s (Ok tt)
      (warned ("Failed to extract " +:+ entryName e +:+ ": " +:+ msg)
              (withDisk disk1 s))
| StepWritten s disk1 data disk2 :
    isDirectory e = false →
    ZipHandler.validateZipEntry e = valid →
    Fs.existsSync (ZipHandler.fs s)
      (Path.join2 root (ZipHandler.sanitizeFilePath (entryName e))) = false
    ∨ default false (ZipHandler.overwrite options) = true →
    prepared
      (Path.dirname
         (Path.join2 root (ZipHandler.sanitizeFilePath (entryName e))))
      (ZipHandler.fs s) disk1 →
    getData e = Ok data →
    Fs.writeFileSync
      (Path.join2 root (ZipHandler.sanitizeFilePath (entryName e)))
      data disk1 = Ok disk2 →
    EntryStep root options e s (Ok tt)
      (let written :=
         ZipHandler.mkState disk2
           (ZipHandler.extractedFiles s
            ++ [ZipHandler.sanitizeFilePath (entryName e)])
           (ZipHandler.warnings s)
           (ZipHandler.totalSize s + byteLength data) in
       if (ZipHandler.maxExtractedSize <? ZipHandler.totalSize s + byteLength data)%N
       then warned ("Failed to extract " +:+ entryName e +:+ ": " +:+ overBudget) written
       else written).

(** The entries of an archive that are not directories. *)
Definition fileEntries (entries : list ZipEntry) : list ZipEntry :=
  List.filter (λ e, negb (isDirectory e)) entries.

(** The bytes [getData] yields for the file entries, summed. *)
Fixpoint actualTotal (entries : list ZipEntry) : N :=
  match entries with
  | [] => 0
  | e :: rest =>
      ((if isDirectory e then 0
        else match getData e with Ok data => byteLength data | Throw _ => 0 end)
       + actualTotal rest)%N
  end.

(** No entry yields more bytes than its header declares. *)
Definition yieldsAsDeclared (entries : list ZipEntry) : Prop :=
  Forall (λ e, ∀ data, getData e = Ok data → (byteLength data ≤ size (header e))%N)
         entries.

(** The warnings of a result, none when the field is absent. *)
Definition warningsOf (r : ZipHandler.ExtractResult) : list string :=
  default [] (ZipHandler.r_warnings r).

(** Nothing that was on [disk] is missing from [disk']. *)
Definition keepsPaths (disk disk' : Fs.FS) : Prop :=
  (∀ p, Fs.isFile disk p = true → Fs.isFile disk' p = true)
  ∧ (∀ p, Fs.isDir disk p = true → Fs.isDir disk' p = true).

(** Every file of [disk] is on [disk'] with the content it had. *)
Definition keepsContents (disk disk' : Fs.FS) : Prop :=
  ∀ p data, Fs.files disk !! p = Some data → Fs.files disk' !! p = Some data.

(** Every path listed as extracted is a regular file below [root] and is
    the sanitized name of a validated file entry of the archive. *)
Definition reported (entries : list ZipEntry)
           (root : string) (s : ZipHandler.State) : Prop :=
  ∀ p, In p (ZipHandler.extractedFiles s) →
       Fs.isFile (ZipHandler.fs s) (Path.join2 root p) = true
       ∧ ∃ e, In e entries ∧ isDirectory e = false
              ∧ ZipHandler.validateZipEntry e = valid
              ∧ p = ZipHandler.sanitizeFilePath (entryName e).

(** The keys of the Map are the ids of the records they hold, each once. *)
Definition keyedById (m : list (string * ContextManager.ContextItem)) : Prop :=
  Forall (λ kv, fst kv = ContextManager.id (snd kv)) m ∧ NoDup (map fst m).

(** The write of the collection failed with [msg]: the file could not be
    opened, or the write broke off part way. *)
Definition writeFailed (io : ContextManager.WriteAnswer) (msg : string) : Prop :=
  io = ContextManager.NotOpened msg
  ∨ ∃ parseError, io = ContextManager.Interrupted msg parseError.

(** The file holds the collection that is in memory. *)
Definition inSync (st : ContextManager.Store) : Prop :=
  ContextManager.contextsFile st
  = Some (ContextManager.Json (ContextManager.mapValues (ContextManager.contexts st))).

(** Every character of [s] satisfies [P]. *)
Fixpoint everyChar (P : ascii → bool) (s : string) : bool :=
  match s with
  | EmptyString => true
  | String c rest => P c && everyChar P rest
  end.

(** The characters a stored upload name is made of. *)
Definition plain (c : ascii) : bool := Routes.isNameChar c || Ascii.eqb c "_"%char.

(** The characters that occur in no dangerous pattern other than [/\.\./]. *)
Definition harmless (c : ascii) : bool :=
  negb (Ascii.eqb c "/"%char || Ascii.eqb c "\"%char || Ascii.eqb c Ascii.zero
        || Ascii.eqb c "<"%char || Ascii.eqb c ":"%char).

(** The characters [sanitizePath] is to remove or replace. *)
Definition unwanted (c : ascii) : bool :=
  Ascii.eqb c "\"%char || Ascii.eqb c Ascii.zero || SecurityValidator.isSpecial c.

Definition wanted (c : ascii) : bool := negb (unwanted c).

Definition notNul (c : ascii) : bool := negb (Ascii.eqb c Ascii.zero).

(** The disk after a first upload that holds [notes.md] (50 bytes). *)
Definition diskWithNotes : Fs.FS :=
  snd (ZipHandler.extractZip "/srv/app" "uploads/first.zip"
         (Some (zipUpload [fileEntry "notes.md" 50 40 50])) None noOptions emptyDisk).

End Vocabulary.

(* ===================================================================== *)
(** * Part III: properties                                                *)
(* ===================================================================== *)

(** ** Strings *)
Module StringFacts.
Import Js Vocabulary.

Lemma append_cons c (a b : string) : String c a +:+ b = String c (a +:+ b).
Proof. reflexivity. Qed.

Lemma append_nil_l (s : string) : "" +:+ s = s.
Proof. reflexivity. Qed.

Lemma append_nil_r (s : string) : s +:+ "" = s.
Proof. induction s as [|c s IH]; [done | by rewrite append_cons, IH]. Qed.

Lemma append_assoc (a b c : string) : (a +:+ b) +:+ c = a +:+ (b +:+ c).
Proof. induction a as [|x a IH]; [done | by rewrite !append_cons, IH]. Qed.

Lemma eqb_false_iff (a b : string) : String.eqb a b = false ↔ a ≠ b.
Proof.
  destruct (String.eqb_spec a b) as [->|Hne]; split; intros H; try done.
Qed.

Lemma split_on_nonempty sep s : split_on sep s ≠ [].
Proof.
  destruct s as [|c s]; simpl; [done |].
  destruct (Ascii.eqb c sep); [done |].
  destruct (split_on sep s); done.
Qed.

Lemma split_nonempty s : split s ≠ [].
Proof. apply split_on_nonempty. Qed.

Lemma split_cons_slash s : split (String "/" s) = "" :: split s.
Proof. reflexivity. Qed.

Lemma split_cons_other c s :
  c ≠ "/"%char →
  ∃ h t, split s = h :: t ∧ split (String c s) = String c h :: t.
Proof.
  intros Hc. unfold split. simpl.
  destruct (Ascii.eqb_spec c "/"%char) as [->|_]; [done |].
  pose proof (split_on_nonempty "/"%char s) as Hne.
  destruct (split_on "/"%char s) as [|h t]; [done |]. eauto.
Qed.

(** Splitting distributes over a separator. *)
Lemma split_app a b : split (a +:+ "/" +:+ b) = split a ++ split b.
Proof.
  induction a as [|c a IH].
  - reflexivity.
  - destruct (Ascii.eqb_spec c "/"%char) as [->|Hc].
    + change (String "/" a +:+ "/" +:+ b) with (String "/" (a +:+ "/" +:+ b)).
      rewrite !split_cons_slash, IH. reflexivity.
    + change (String c a +:+ "/" +:+ b) with (String c (a +:+ "/" +:+ b)).
      destruct (split_cons_other c a Hc) as (h & t & Ha & Hca).
      destruct (split_cons_other c (a +:+ "/" +:+ b) Hc) as (h' & t' & Hab & Hcab).
      rewrite Hca, Hcab. rewrite IH, Ha in Hab. simpl in Hab.
      injection Hab as <- <-. reflexivity.
Qed.

Lemma split_noSlash c : noSlash c → split c = [c].
Proof.
  induction c as [|x c IH]; simpl; [done |].
  intros [Hx Hc].
  destruct (split_cons_other x c Hx) as (h & t & Hs & Hxs).
  rewrite Hxs. rewrite (IH Hc) in Hs. by injection Hs as <- <-.
Qed.

(** [join] then [split] gives the components back. *)
Lemma split_join cs : cs ≠ [] → Forall noSlash cs → split (join cs) = cs.
Proof.
  induction cs as [|c cs IH]; [done |].
  intros _ Hall. apply Forall_cons in Hall as [Hc Hcs].
  destruct cs as [|c' cs'].
  - simpl. by apply split_noSlash.
  - change (join (c :: c' :: cs')) with (c +:+ "/" +:+ join (c' :: cs')).
    rewrite split_app, (split_noSlash c Hc), IH; done.
Qed.

Lemma split_all_noSlash s : Forall noSlash (split s).
Proof.
  induction s as [|c s IH].
  - repeat constructor.
  - destruct (Ascii.eqb_spec c "/"%char) as [->|Hc].
    + rewrite split_cons_slash. constructor; [exact I | done].
    + destruct (split_cons_other c s Hc) as (h & t & Hs & Hcs).
      rewrite Hcs. rewrite Hs in IH. apply Forall_cons in IH as [Hh Ht].
      constructor; [by split | done].
Qed.

Lemma join_eq_nil cs : Forall (λ c, c ≠ "") cs → join cs = "" → cs = [].
Proof.
  destruct cs as [|c cs]; [done |].
  intros Hall. apply Forall_cons in Hall as [Hc _].
  destruct cs as [|c' cs']; simpl; [done |].
  destruct c; simpl; done.
Qed.

Lemma prefix_spec p s : String.prefix p s = true ↔ beginsWith p s.
Proof.
  revert s. induction p as [|c p IH]; intros s.
  - split; [intros _; by exists s | by destruct s].
  - destruct s as [|d s]; simpl.
    + split; [done | intros [b Hb]; done].
    + destruct (Ascii.ascii_dec c d) as [->|Hne].
      * rewrite IH. split; intros [b Hb]; exists b.
        -- by rewrite append_cons, <- Hb.
        -- rewrite append_cons in Hb. congruence.
      * split; [done | intros [b Hb]; rewrite append_cons in Hb; congruence].
Qed.

Lemma includes_spec p s : includes p s = true ↔ contains p s.
Proof.
  induction s as [|c s IH].
  - cbn [includes]. rewrite orb_false_r, prefix_spec. split.
    + intros [b Hb]. by exists "", b.
    + intros (a & b & Hab). destruct a; [by exists b | done].
  - cbn [includes]. rewrite orb_true_iff, IH, prefix_spec. split.
    + intros [[b Hb]|(a & b & Hab)].
      * by exists "", b.
      * exists (String c a), b. by rewrite append_cons, <- Hab.
    + intros (a & b & Hab). destruct a as [|x a].
      * left. by exists b.
      * right. exists a, b. rewrite append_cons in Hab. congruence.
Qed.

Lemma clean_noSlash segs : Forall clean segs → Forall noSlash segs.
Proof. apply List.Forall_impl. by intros c (_ & _ & _ & H). Qed.

Lemma clean_nonempty segs : Forall clean segs → Forall (λ c, c ≠ "") segs.
Proof. apply List.Forall_impl. by intros c (H & _). Qed.

End StringFacts.

(** ** The entry-name sanitizer *)
Module SanitizerFacts.
Import Js SanitizeFilename Vocabulary StringFacts ZipHandler.

(** *** The package *)

Section Package.
Local Open Scope nat_scope.

Lemma allOf_app P a b : allOf P (a +:+ b) = allOf P a && allOf P b.
Proof.
  induction a as [|c a IH]; [done |].
  rewrite append_cons. cbn [allOf]. by rewrite IH, andb_assoc.
Qed.

Lemma allOf_impl (P Q : ascii → bool) s :
  (∀ c, P c = true → Q c = true) → allOf P s = true → allOf Q s = true.
Proof.
  intros HPQ. induction s as [|c s IH]; [done |].
  cbn [allOf]. intros [Hc Hs]%andb_true_iff.
  by rewrite (HPQ c Hc), IH.
Qed.

Lemma toLowerCase_app a b : toLowerCase (a +:+ b) = toLowerCase a +:+ toLowerCase b.
Proof.
  induction a as [|c a IH]; [done |].
  rewrite append_cons. cbn [toLowerCase]. by rewrite append_cons, IH.
Qed.

Lemma utf8Length_pos c : (1 ≤ utf8Length c)%nat.
Proof. unfold utf8Length. destruct (_ <? _)%N; lia. Qed.

Lemma byteLength_app a b : utf8Bytes (a +:+ b) = utf8Bytes a + utf8Bytes b.
Proof.
  induction a as [|c a IH]; [done |].
  rewrite append_cons. cbn [utf8Bytes]. rewrite IH. lia.
Qed.

(** *** The replacements one by one *)

Lemma replaceEach_allOf P class replacement s :
  allOf P replacement = true → (∀ c, class c = false → P c = true) →
  allOf P (replaceEach class replacement s) = true.
Proof.
  intros Hrep Hc. induction s as [|c s IH]; [done |].
  cbn [replaceEach]. rewrite allOf_app, IH, andb_true_r.
  destruct (class c) eqn:E; [done |].
  cbn [allOf]. by rewrite (Hc c E).
Qed.

Lemma replaceEach_keeps P class replacement s :
  allOf P replacement = true → allOf P s = true →
  allOf P (replaceEach class replacement s) = true.
Proof.
  intros Hrep. induction s as [|c s IH]; [done |].
  cbn [allOf replaceEach]. intros [Hc Hs]%andb_true_iff.
  rewrite allOf_app, IH, andb_true_r by done.
  destruct (class c); [done |]. cbn [allOf]. by rewrite Hc.
Qed.

Lemma replaceEach_id class replacement s :
  allOf (λ c, negb (class c)) s = true → replaceEach class replacement s = s.
Proof.
  induction s as [|c s IH]; [done |].
  cbn [allOf replaceEach]. intros [Hc Hs]%andb_true_iff.
  apply negb_true_iff in Hc. by rewrite Hc, IH.
Qed.

Lemma replaceEach_byteLength class replacement s :
  utf8Bytes replacement ≤ 1 →
  utf8Bytes (replaceEach class replacement s) ≤ utf8Bytes s.
Proof.
  intros Hrep. induction s as [|c s IH]; [done |].
  cbn [replaceEach utf8Bytes]. rewrite byteLength_app.
  pose proof (utf8Length_pos c).
  destruct (class c); cbn [utf8Bytes]; lia.
Qed.

Lemma replaceWhole_keeps P re replacement s :
  allOf P replacement = true → allOf P s = true →
  allOf P (replaceWhole re replacement s) = true.
Proof. unfold replaceWhole. by destruct (re s). Qed.

Lemma replaceWhole_byteLength re replacement s :
  re "" = false → utf8Bytes replacement ≤ 1 →
  utf8Bytes (replaceWhole re replacement s) ≤ utf8Bytes s.
Proof.
  intros Hre Hrep. unfold replaceWhole. destruct (re s) eqn:E; [| lia].
  destruct s as [|c s]; [congruence |].
  cbn [utf8Bytes]. pose proof (utf8Length_pos c). lia.
Qed.

Lemma replaceTrailing_keeps P replacement s :
  allOf P replacement = true → allOf P s = true →
  allOf P (replaceTrailing replacement s) = true.
Proof.
  intros Hrep. induction s as [|c s IH]; [done |].
  cbn [replaceTrailing]. destruct (allOf dotOrSpace (String c s)); [done |].
  cbn [allOf]. intros [Hc Hs]%andb_true_iff. by rewrite Hc, IH.
Qed.

Lemma replaceTrailing_byteLength replacement s :
  utf8Bytes replacement ≤ 1 →
  utf8Bytes (replaceTrailing replacement s) ≤ utf8Bytes s.
Proof.
  intros Hrep. induction s as [|c s IH]; [done |].
  cbn [replaceTrailing]. pose proof (utf8Length_pos c).
  destruct (allOf dotOrSpace (String c s)); cbn [utf8Bytes]; lia.
Qed.

Lemma replaceTrailing_id replacement s :
  endsInRun s = false → replaceTrailing replacement s = s.
Proof.
  induction s as [|c s IH]; [done |].
  cbn [endsInRun replaceTrailing]. intros [H1 H2]%orb_false_iff.
  by rewrite H1, IH.
Qed.

Lemma replaceTrailing_cases replacement s :
  replaceTrailing replacement s = s
  ∨ ∃ p run, s = p +:+ run ∧ replaceTrailing replacement s = p +:+ replacement.
Proof.
  induction s as [|c s IH]; [by left |].
  cbn [replaceTrailing]. destruct (allOf dotOrSpace (String c s)).
  - right. by exists "", (String c s).
  - destruct IH as [-> | (p & run & Hs & ->)]; [by left |].
    right. exists (String c p), run. by rewrite Hs at 1.
Qed.

Lemma replaceTrailing_stays s :
  allOf dotOrSpace s = false → allOf dotOrSpace (replaceTrailing "_" s) = false.
Proof.
  induction s as [|c s IH]; [done |].
  intros H. cbn [replaceTrailing]. rewrite H.
  cbn [allOf] in *. apply andb_false_iff in H as [H | H]; [by rewrite H |].
  rewrite (IH H). apply andb_false_r.
Qed.

Lemma replaceTrailing_ends s : endsInRun (replaceTrailing "_" s) = false.
Proof.
  induction s as [|c s IH]; [done |].
  cbn [replaceTrailing]. destruct (allOf dotOrSpace (String c s)) eqn:E; [done |].
  cbn [endsInRun]. rewrite IH, orb_false_r.
  cbn [allOf] in *. apply andb_false_iff in E as [E | E]; [by rewrite E |].
  rewrite (replaceTrailing_stays s E). apply andb_false_r.
Qed.

Lemma truncate_id s n : utf8Bytes s ≤ n → truncate s n = s.
Proof.
  revert n. induction s as [|c s IH]; intros n Hn; [done |].
  cbn [utf8Bytes truncate] in *.
  destruct (Nat.leb_spec (utf8Length c) n); [| lia].
  f_equal. apply IH. lia.
Qed.

Lemma truncate_keeps P s n : allOf P s = true → allOf P (truncate s n) = true.
Proof.
  revert n. induction s as [|c s IH]; intros n; [done |].
  cbn [allOf truncate]. intros [Hc Hs]%andb_true_iff.
  destruct (_ <=? _)%nat; [| done]. cbn [allOf]. by rewrite Hc, IH.
Qed.

(** *** Reserved names *)

Lemma reserved_snoc p : reserved (p +:+ "_") = false.
Proof.
  unfold reserved. rewrite allOf_app. cbn [allOf].
  rewrite andb_false_r. apply andb_false_r.
Qed.

Lemma prefix_app pre q r :
  String.prefix pre q = true → String.prefix pre (q +:+ r) = true.
Proof.
  revert q. induction pre as [|a pre IH]; intros q.
  - intros _. by destruct (q +:+ r).
  - destruct q as [|b q]; [done |].
    rewrite append_cons. cbn [String.prefix].
    destruct (Ascii.ascii_dec a b); [apply IH | done].
Qed.

Lemma prefix_snoc pre q :
  allOf (λ c, negb (Ascii.eqb c "_")) pre = true →
  String.prefix pre (q +:+ "_") = true → String.prefix pre q = true.
Proof.
  revert q. induction pre as [|a pre IH]; intros q Hpre H.
  - by destruct q.
  - cbn [allOf] in Hpre. apply andb_true_iff in Hpre as [Ha Hpre].
    destruct q as [|b q].
    + rewrite append_nil_l in H. cbn [String.prefix] in H.
      destruct (Ascii.ascii_dec a "_") as [-> | ?]; done.
    + rewrite append_cons in H. cbn [String.prefix] in *.
      destruct (Ascii.ascii_dec a b); [by apply IH | done].
Qed.

Lemma names_without_underscore name :
  In name windowsReservedNames →
  allOf (λ c, negb (Ascii.eqb c "_")) (name +:+ ".") = true.
Proof.
  assert (forallb (λ name, allOf (λ c, negb (Ascii.eqb c "_")) (name +:+ "."))
                  windowsReservedNames = true) as H by reflexivity.
  rewrite forallb_forall in H. apply H.
Qed.

(** A name that turns reserved when its trailing run gives way to the
    replacement was reserved before. *)
Lemma windowsReserved_snoc p run :
  allOf (λ c, negb (lineTerminator c)) (p +:+ run) = true →
  windowsReserved (p +:+ "_") = true → windowsReserved (p +:+ run) = true.
Proof.
  intros Hline. unfold windowsReserved. rewrite !existsb_exists.
  intros (name & Hin & H). exists name. split; [done |].
  pose proof (names_without_underscore name Hin) as Hname.
  rewrite toLowerCase_app in *. change (toLowerCase "_") with "_" in H.
  apply orb_true_iff in H as [H | H].
  - exfalso. apply String.eqb_eq in H.
    rewrite allOf_app, <- H, allOf_app in Hname. cbn [allOf] in Hname.
    by rewrite !andb_false_r in Hname.
  - apply andb_true_iff in H as [H _].
    rewrite Hline, andb_true_r. apply orb_true_iff. right.
    unfold startsWith in *. by apply prefix_app, prefix_snoc.
Qed.

Lemma control_lineTerminator c : control c = false → lineTerminator c = false.
Proof. by destruct c as [[] [] [] [] [] [] [] []]. Qed.

(** *** One pass and two *)

Lemma sanitizeWith_keeps P input replacement :
  allOf P replacement = true → allOf P input = true →
  allOf P (sanitizeWith input replacement) = true.
Proof.
  intros Hrep Hin. unfold sanitizeWith.
  apply truncate_keeps. apply replaceTrailing_keeps; [done |].
  do 2 (apply replaceWhole_keeps; [done |]).
  do 2 (apply replaceEach_keeps; [done |]). done.
Qed.

Lemma sanitizeWith_legal input :
  allOf (λ c, negb (illegal c)) (sanitizeWith input "_") = true.
Proof.
  unfold sanitizeWith.
  apply truncate_keeps, replaceTrailing_keeps, replaceWhole_keeps,
    replaceWhole_keeps, replaceEach_keeps, replaceEach_allOf; try done.
  intros c Hc. by rewrite Hc.
Qed.

Lemma sanitizeWith_byteLength input :
  utf8Bytes input ≤ 255 →
  sanitizeWith input "_"
  = replaceTrailing "_"
      (replaceWhole windowsReserved "_"
         (replaceWhole reserved "_"
            (replaceEach control "_" (replaceEach illegal "_" input)))).
Proof.
  intros Hlen. unfold sanitizeWith. apply truncate_id.
  etrans; [by apply replaceTrailing_byteLength |].
  etrans; [by apply replaceWhole_byteLength |].
  etrans; [by apply replaceWhole_byteLength |].
  etrans; [by apply replaceEach_byteLength |].
  etrans; [by apply replaceEach_byteLength | done].
Qed.

Lemma sanitizeWith_tidy input :
  utf8Bytes input ≤ 255 → tidy (sanitizeWith input "_").
Proof.
  intros Hlen.
  assert (allOf (λ c, negb (control c)) (sanitizeWith input "_") = true) as Hcontrol.
  { unfold sanitizeWith.
    apply truncate_keeps, replaceTrailing_keeps, replaceWhole_keeps,
      replaceWhole_keeps, replaceEach_allOf; try done.
    intros c Hc. by rewrite Hc. }
  split; [apply sanitizeWith_legal |]. split; [done |].
  rewrite sanitizeWith_byteLength in * by done.
  set (t2 := replaceEach control "_" (replaceEach illegal "_" input)) in *.
  set (t3 := replaceWhole reserved "_" t2) in *.
  assert (reserved t3 = false) as Ht3.
  { unfold t3, replaceWhole. by destruct (reserved t2) eqn:E. }
  assert (allOf (λ c, negb (lineTerminator c)) t3 = true) as Hline.
  { apply (allOf_impl (λ c, negb (control c))).
    { intros c Hc%negb_true_iff. by rewrite (control_lineTerminator c Hc). }
    unfold t3. apply replaceWhole_keeps; [done |].
    unfold t2. apply replaceEach_allOf; [done |]. intros c Hc. by rewrite Hc. }
  unfold replaceWhole. destruct (windowsReserved t3) eqn:Hw; [done |].
  split; [| split; [| apply replaceTrailing_ends]].
  - destruct (replaceTrailing_cases "_" t3) as [-> | (p & run & _ & ->)];
      [done | apply reserved_snoc].
  - destruct (replaceTrailing_cases "_" t3) as [-> | (p & run & Hp & ->)];
      [done |].
    destruct (windowsReserved (p +:+ "_")) eqn:E; [| done].
    rewrite Hp in Hline, Hw. by rewrite (windowsReserved_snoc p run Hline E) in Hw.
Qed.

Lemma sanitizeWith_short input :
  utf8Bytes input ≤ 255 → utf8Bytes (sanitizeWith input "_") ≤ 255.
Proof.
  intros Hlen. rewrite sanitizeWith_byteLength by done.
  etrans; [by apply replaceTrailing_byteLength |].
  etrans; [by apply replaceWhole_byteLength |].
  etrans; [by apply replaceWhole_byteLength |].
  etrans; [by apply replaceEach_byteLength |].
  etrans; [by apply replaceEach_byteLength | done].
Qed.

(** A tidy name of at most 255 bytes passes unchanged, whatever the
    replacement. *)
Lemma sanitizeWith_fixes s replacement :
  tidy s → utf8Bytes s ≤ 255 → sanitizeWith s replacement = s.
Proof.
  intros (Hillegal & Hcontrol & Hreserved & Hwindows & Hends) Hlen.
  unfold sanitizeWith.
  rewrite (replaceEach_id illegal) by done.
  rewrite (replaceEach_id control) by done.
  unfold replaceWhole. rewrite Hreserved, Hwindows.
  rewrite replaceTrailing_id by done. by apply truncate_id.
Qed.

Lemma sanitize_short input :
  utf8Bytes input ≤ 255 → sanitize input "_" = sanitizeWith input "_".
Proof.
  intros Hlen. unfold sanitize. cbn [String.eqb Ascii.eqb Bool.eqb].
  apply sanitizeWith_fixes; auto using sanitizeWith_tidy, sanitizeWith_short.
Qed.

Lemma sanitize_idempotent input :
  utf8Bytes input ≤ 255 →
  sanitize (sanitize input "_") "_" = sanitize input "_".
Proof.
  intros Hlen. rewrite (sanitize_short input Hlen).
  rewrite sanitize_short by by apply sanitizeWith_short.
  apply sanitizeWith_fixes; auto using sanitizeWith_tidy, sanitizeWith_short.
Qed.

Lemma legal_noSlash s : allOf (λ c, negb (illegal c)) s = true → noSlash s.
Proof.
  induction s as [|c s IH]; [done |].
  cbn [allOf noSlash]. intros [Hc Hs]%andb_true_iff.
  split; [| auto]. by intros ->.
Qed.

Lemma sanitize_noSlash input : noSlash (sanitize input "_").
Proof.
  apply legal_noSlash. unfold sanitize. cbn [String.eqb Ascii.eqb Bool.eqb].
  apply sanitizeWith_keeps; [done | apply sanitizeWith_legal].
Qed.

End Package.

(** *** [sanitizeFilePath] *)

Lemma keepComponent_true c :
  keepComponent c = true ↔ c ≠ "" ∧ c ≠ "." ∧ c ≠ "..".
Proof.
  unfold keepComponent.
  rewrite !andb_true_iff, !negb_true_iff, !eqb_false_iff. tauto.
Qed.

Lemma kept_clean filePath : Forall clean (kept filePath).
Proof.
  unfold kept. apply List.Forall_forall. intros c Hc.
  apply filter_In in Hc as [Hin Hkeep].
  apply keepComponent_true in Hkeep as (H1 & H2 & H3).
  repeat split; try done.
  apply in_map_iff in Hin as (c0 & <- & Hc0).
  apply sanitize_noSlash.
Qed.

Lemma kept_fixed_by_sanitize filePath :
  shortComponents filePath →
  map (λ component, sanitize component "_") (kept filePath) = kept filePath.
Proof.
  unfold shortComponents, kept.
  induction 1 as [|c l Hc _ IH]; [done |].
  cbn [map List.filter]. destruct (keepComponent (sanitize c "_")); [| done].
  cbn [map]. by rewrite (sanitize_idempotent c Hc), IH.
Qed.

Lemma kept_fixed_by_filter filePath :
  List.filter keepComponent (kept filePath) = kept filePath.
Proof.
  unfold kept.
  induction (map (λ component, sanitize component "_") (split filePath))
    as [|c l IH]; [done |].
  cbn [List.filter]. destruct (keepComponent c) eqn:Hc; [| done].
  cbn [List.filter]. by rewrite Hc, IH.
Qed.

Lemma sanitizeFilePath_unfold filePath :
  sanitizeFilePath filePath =
  if String.eqb (join (kept filePath)) "" then "sanitized_file"
  else join (kept filePath).
Proof. reflexivity. Qed.

(** The sanitized name is the join of a non-empty list of clean segments. *)
Lemma sanitizeFilePath_shape filePath :
  ∃ segs, segs ≠ [] ∧ Forall clean segs ∧ sanitizeFilePath filePath = join segs.
Proof.
  rewrite sanitizeFilePath_unfold.
  destruct (String.eqb_spec (join (kept filePath)) "") as [He|Hne].
  - exists ["sanitized_file"]. split; [done |]. split; [| done].
    constructor; [| constructor]. repeat split; done.
  - exists (kept filePath). split; [| split; [apply kept_clean | done]].
    intros Hnil. by rewrite Hnil in Hne.
Qed.

Lemma sanitizeFilePath_nonempty filePath : sanitizeFilePath filePath ≠ "".
Proof.
  rewrite sanitizeFilePath_unfold.
  by destruct (String.eqb_spec (join (kept filePath)) "").
Qed.

Lemma sanitizeFilePath_fallback : sanitizeFilePath "sanitized_file" = "sanitized_file".
Proof. reflexivity. Qed.

Lemma sanitizeFilePath_idempotent filePath :
  shortComponents filePath →
  sanitizeFilePath (sanitizeFilePath filePath) = sanitizeFilePath filePath.
Proof.
  intros Hshort. rewrite (sanitizeFilePath_unfold filePath).
  destruct (String.eqb_spec (join (kept filePath)) "") as [He|Hne].
  - apply sanitizeFilePath_fallback.
  - assert (kept filePath ≠ []) as Hnil by (intros E; by rewrite E in Hne).
    rewrite sanitizeFilePath_unfold.
    assert (kept (join (kept filePath)) = kept filePath) as ->.
    { unfold kept at 1.
      rewrite split_join by (auto using clean_noSlash, kept_clean).
      by rewrite kept_fixed_by_sanitize, kept_fixed_by_filter. }
    by destruct (String.eqb_spec (join (kept filePath)) "").
Qed.

Lemma sanitizeFilePath_slashes filePath :
  onlySlashes filePath → sanitizeFilePath filePath = "sanitized_file".
Proof.
  unfold onlySlashes. intros Hall.
  rewrite sanitizeFilePath_unfold.
  assert (kept filePath = []) as ->; [| done].
  unfold kept. induction Hall as [|seg l -> _ IH]; [done |].
  exact IH.
Qed.

(** C4 (as amended).  The sanitizer of entry names, [sanitizeFilePath], is
    a total function that never returns the empty path; on every path
    whose components are at most 255 bytes long, applying it twice gives
    the same name as applying it once; and every input made of separators
    only (the empty string included) is mapped to the fallback name
    [sanitized_file]. *)
Theorem C4_sanitizer_idempotent_with_fallback :
  (∀ x, sanitizeFilePath x ≠ "")
  ∧ (∀ x, shortComponents x →
          sanitizeFilePath (sanitizeFilePath x) = sanitizeFilePath x)
  ∧ (∀ x, onlySlashes x → sanitizeFilePath x = "sanitized_file").
Proof.
  split; [| split].
  - apply sanitizeFilePath_nonempty.
  - apply sanitizeFilePath_idempotent.
  - apply sanitizeFilePath_slashes.
Qed.

Lemma C4_witness :
  shortComponents "a\b/./c//d"
  ∧ sanitizeFilePath (sanitizeFilePath "a\b/./c//d") = sanitizeFilePath "a\b/./c//d"
  ∧ onlySlashes "//"
  ∧ sanitizeFilePath "//" = "sanitized_file".
Proof.
  assert (shortComponents "a\b/./c//d") as Hshort.
  { unfold shortComponents. change (split "a\b/./c//d") with ["a\b"; "."; "c"; ""; "d"].
    repeat (constructor; [vm_compute; lia |]). constructor. }
  assert (onlySlashes "//") as Hslashes.
  { unfold onlySlashes. change (split "//") with [""; ""; ""].
    repeat (constructor; [reflexivity |]). constructor. }
  pose proof C4_sanitizer_idempotent_with_fallback as (_ & Hidem & Hfallback).
  split; [exact Hshort |]. split; [exact (Hidem _ Hshort) |].
  split; [exact Hslashes | exact (Hfallback _ Hslashes)].
Defined.

(** C4, the claim as the specification states it, fails twice, on entry
    names that [validateZipEntry] accepts.  A component [.] or [..] is a
    reserved name of the package and leaves it as [_], before the filter
    of [sanitizeFilePath] looks for it: the entry name [./.] becomes
    [_/_], not the fallback name.  And a component of more than 255 bytes
    is cut after the replacements, which may leave a name that a second
    application changes: [con], 252 spaces and an [x] become [con], and
    [con] becomes [_]. *)
Lemma C4_counterexample_dots_and_long_component :
  let long := "con" +:+ spaces 252 +:+ "x" in
  Forall (λ seg, seg = "" ∨ seg = "." ∨ seg = "..") (split "./.")
  ∧ validateZipEntry (fileEntry "./." 1 1 1) = valid
  ∧ sanitizeFilePath "./." = "_/_"
  ∧ sanitizeFilePath "./." ≠ "sanitized_file"
  ∧ validateZipEntry (fileEntry long 1 1 1) = valid
  ∧ sanitizeFilePath long = "con"
  ∧ sanitizeFilePath (sanitizeFilePath long) = "_"
  ∧ sanitizeFilePath (sanitizeFilePath long) ≠ sanitizeFilePath long.
Proof.
  intros long.
  assert (validateZipEntry (fileEntry "./." 1 1 1) = valid) as Hvalid1
    by (vm_compute; reflexivity).
  assert (validateZipEntry (fileEntry long 1 1 1) = valid) as Hvalid2
    by (vm_compute; reflexivity).
  assert (sanitizeFilePath "./." = "_/_") as Hdots by (vm_compute; reflexivity).
  assert (sanitizeFilePath long = "con") as Hlong by (vm_compute; reflexivity).
  assert (sanitizeFilePath "con" = "_") as Hcon by (vm_compute; reflexivity).
  clearbody long.
  split.
  { change (split "./.") with ["."; "."].
    repeat (constructor; [right; left; reflexivity |]). constructor. }
  split; [exact Hvalid1 |].
  split; [exact Hdots |]. split; [rewrite Hdots; discriminate |].
  split; [exact Hvalid2 |].
  split; [exact Hlong |]. rewrite Hlong.
  split; [exact Hcon | rewrite Hcon; discriminate].
Qed.

End SanitizerFacts.

(** ** Paths *)
Module PathFacts.
Import Js Path Vocabulary StringFacts.

Lemma render_cons segs : render segs = String "/" (join segs).
Proof. reflexivity. Qed.

Lemma normalizeStep_clean res seg :
  clean seg → normalizeStep false res seg = res ++ [seg].
Proof.
  intros (H1 & H2 & H3 & _). unfold normalizeStep.
  apply eqb_false_iff in H1, H2, H3. by rewrite H1, H2, H3.
Qed.

Lemma normalize_clean_segments segs acc :
  Forall clean segs → fold_left (normalizeStep false) segs acc = acc ++ segs.
Proof.
  intros Hall. revert acc. induction Hall as [|seg l Hseg _ IH]; intros acc.
  - by rewrite app_nil_r.
  - cbn [fold_left]. rewrite normalizeStep_clean, IH by done.
    by rewrite <- app_assoc.
Qed.

Lemma Forall_removelast {A} (P : A → Prop) (l : list A) :
  Forall P l → Forall P (removelast l).
Proof.
  induction 1 as [|x l Hx Hl IH]; [constructor |].
  destruct l; [constructor |]. cbn [removelast] in *. by constructor.
Qed.

Lemma normalizeStep_keeps_clean res seg :
  Forall clean res → noSlash seg → Forall clean (normalizeStep false res seg).
Proof.
  intros Hres Hseg. unfold normalizeStep.
  destruct (String.eqb_spec seg "") as [->|H1]; [done |].
  destruct (String.eqb_spec seg ".") as [->|H2]; [done |].
  destruct (String.eqb_spec seg "..") as [->|H3]; cbn [orb].
  - destruct (last res) as [l|]; [| done].
    destruct (String.eqb l ".."); [done | by apply Forall_removelast].
  - apply Forall_app. split; [done |]. by repeat constructor.
Qed.

Lemma normalizeString_keeps_clean segs acc :
  Forall clean acc → Forall noSlash segs →
  Forall clean (fold_left (normalizeStep false) segs acc).
Proof.
  intros Hacc Hsegs. revert acc Hacc.
  induction Hsegs as [|seg l Hseg _ IH]; intros acc Hacc; [done |].
  cbn [fold_left]. apply IH. by apply normalizeStep_keeps_clean.
Qed.

Lemma segments_clean p : Forall clean (segments p).
Proof.
  unfold segments, normalizeString.
  apply normalizeString_keeps_clean; [constructor | apply split_all_noSlash].
Qed.

(** A rendered path has the segments it was rendered from. *)
Lemma segments_render segs : Forall clean segs → segments (render segs) = segs.
Proof.
  intros Hall. unfold segments, normalizeString.
  rewrite render_cons, split_cons_slash. cbn [fold_left].
  change (normalizeStep false [] "") with (@nil string).
  destruct segs as [|seg rest]; [reflexivity |].
  rewrite split_join by (auto using clean_noSlash).
  by rewrite normalize_clean_segments.
Qed.

(** What [path.resolve] returns is a rendered list of clean segments. *)
Lemma resolve_render cwd parts :
  resolve cwd parts = render (segments (fold_left resolveStep parts cwd)).
Proof. reflexivity. Qed.

Lemma segments_resolve cwd parts :
  segments (resolve cwd parts) = segments (fold_left resolveStep parts cwd).
Proof. rewrite resolve_render. apply segments_render, segments_clean. Qed.

Lemma lastChar_app a b : b ≠ "" → lastChar (a +:+ b) = lastChar b.
Proof.
  intros Hb. induction a as [|c a IH]; [done |].
  rewrite append_cons. cbn [lastChar]. rewrite IH.
  destruct (a +:+ b) eqn:E; [| done].
  destruct a; [by rewrite append_nil_l in E | by rewrite append_cons in E].
Qed.

Lemma endsWithSlash_noSlash c : noSlash c → endsWithSlash c = false.
Proof.
  unfold endsWithSlash. induction c as [|x c IH]; [done |].
  intros [Hx Hc]. cbn [lastChar]. destruct c as [|y c'].
  - by apply Ascii.eqb_neq.
  - by apply IH.
Qed.

Lemma join_cons2 c c' cs : join (c :: c' :: cs) = c +:+ "/" +:+ join (c' :: cs).
Proof. reflexivity. Qed.

Lemma join_nonempty segs : segs ≠ [] → Forall clean segs → join segs ≠ "".
Proof.
  intros Hne Hall Hj. apply Hne. eapply join_eq_nil; [| exact Hj].
  by apply clean_nonempty.
Qed.

Lemma endsWithSlash_join segs :
  segs ≠ [] → Forall clean segs → endsWithSlash (join segs) = false.
Proof.
  induction segs as [|c cs IH]; [done |].
  intros _ Hall. apply Forall_cons in Hall as [Hc Hcs].
  destruct cs as [|c' cs'].
  - apply endsWithSlash_noSlash, Hc.
  - rewrite join_cons2. unfold endsWithSlash in *.
    assert (join (c' :: cs') ≠ "") as Hj by (by apply join_nonempty).
    rewrite lastChar_app.
    + rewrite lastChar_app by done. by apply IH.
    + rewrite append_cons. done.
Qed.

(** Joining a sanitized relative path to a resolved root appends its
    segments to those of the root. *)
Lemma join2_render root rest :
  Forall clean root → rest ≠ [] → Forall clean rest →
  join2 (render root) (join rest) = render (root ++ rest).
Proof.
  intros Hroot Hne Hrest.
  assert (join rest ≠ "") as Hj by (by apply join_nonempty).
  unfold join2. rewrite render_cons.
  change (String.eqb (String "/" (join root)) "") with false. cbn match.
  apply eqb_false_iff in Hj as Hjb. rewrite Hjb.
  rewrite append_cons.
  change (String.eqb (String "/" (join root +:+ "/" +:+ join rest)) "") with false.
  cbn match. unfold normalize.
  change (String.eqb (String "/" (join root +:+ "/" +:+ join rest)) "") with false.
  cbn match.
  assert (startsWith "/" (String "/" (join root +:+ "/" +:+ join rest)) = true) as ->.
  { apply prefix_spec. by eexists. }
  assert (endsWithSlash (String "/" (join root +:+ "/" +:+ join rest)) = false) as ->.
  { rewrite <- append_cons. unfold endsWithSlash.
    rewrite lastChar_app by (by rewrite append_cons).
    rewrite lastChar_app by done. by apply endsWithSlash_join. }
  cbn [negb].
  assert (normalizeString false (split (String "/" (join root +:+ "/" +:+ join rest)))
          = root ++ rest) as ->.
  { rewrite <- append_cons, split_app, <- render_cons.
    unfold normalizeString. rewrite fold_left_app.
    fold (normalizeString false (split (render root))). fold (segments (render root)).
    rewrite segments_render by done.
    rewrite split_join by (auto using clean_noSlash).
    by apply normalize_clean_segments. }
  assert (join (root ++ rest) ≠ "") as Hjj.
  { apply join_nonempty; [by destruct root, rest | by apply Forall_app]. }
  apply eqb_false_iff in Hjj. rewrite Hjj. by rewrite append_nil_r.
Qed.

End PathFacts.

(** ** Validation of archives and entries *)
Module ValidationFacts.
Import Js AdmZip Vocabulary StringFacts ZipHandler.

Lemma sizeTotals_from acc entries :
  fold_left addSizes entries acc
  = ((fst acc + uncompressedTotal entries)%N, (snd acc + compressedTotal entries)%N).
Proof.
  revert acc. induction entries as [|e rest IH]; intros [u c].
  - cbn. by rewrite !N.add_0_r.
  - cbn [fold_left uncompressedTotal compressedTotal]. rewrite IH.
    unfold addSizes. destruct (isDirectory e); cbn [fst snd]; f_equal; lia.
Qed.

(** The loop of the validator computes the two sums of the spec. *)
Lemma sizeTotals_spec entries :
  sizeTotals entries = (uncompressedTotal entries, compressedTotal entries).
Proof. unfold sizeTotals. by rewrite sizeTotals_from. Qed.

Lemma validateZipContents_in_range entries :
  entries ≠ [] → (length entries ≤ maxFiles)%nat →
  validateZipContents entries =
    if gt (div (uncompressedTotal entries) (compressedTotal entries)) 100 then
      invalid "Suspicious compression ratio (possible zip bomb)"
    else if (maxExtractedSize <? uncompressedTotal entries)%N then
      invalid ("Total uncompressed size exceeds limit ("
               +:+ pretty maxExtractedSize +:+ " bytes)")
    else valid.
Proof.
  intros Hne Hlen. unfold validateZipContents.
  destruct entries as [|e rest]; [done |].
  change (length (e :: rest) =? 0)%nat with false. cbn match.
  assert ((maxFiles <? length (e :: rest))%nat = false) as ->
    by (apply Nat.ltb_ge; lia).
  by rewrite sizeTotals_spec.
Qed.

Lemma gt_div_spec (u c : N) : gt (div u c) 100 = true ↔ (100 * c < u)%N.
Proof.
  unfold div, gt. destruct c as [|d].
  - destruct (N.eqb_spec u 0) as [->|Hu]; split; intros H; try done; lia.
  - rewrite N.ltb_lt. done.
Qed.

Lemma validateZipEntry_hazardous e :
  hazardous (entryName e) →
  validateZipEntry e = invalid "Path traversal attempt detected".
Proof.
  intros Hhaz. unfold validateZipEntry.
  assert (includes ".." (entryName e) || includes "\" (entryName e)
          || startsWith "/" (entryName e) = true) as ->; [| done].
  rewrite !orb_true_iff.
  destruct Hhaz as [H | [H | H]].
  - left; left. by apply includes_spec.
  - right. by apply prefix_spec.
  - left; right. by apply includes_spec.
Qed.

(** C9.  When the compressed sizes of the non-directory entries sum to
    zero, the quotient the validator computes is NaN for a zero
    uncompressed sum and Infinity for a positive one; so the ratio check
    rejects exactly when the uncompressed sum is positive: an archive of
    zero-byte stored files passes validation, and a positive uncompressed
    sum over a zero compressed sum is rejected as a zip bomb. *)
Theorem C9_ratio_check_at_zero_compressed_total (entries : list ZipEntry) :
  entries ≠ [] → (length entries ≤ maxFiles)%nat → compressedTotal entries = 0%N →
  let ratio := div (uncompressedTotal entries) (compressedTotal entries) in
  (gt ratio 100 = true ↔ (0 < uncompressedTotal entries)%N)
  ∧ (uncompressedTotal entries = 0%N →
     ratio = JNaN ∧ validateZipContents entries = valid)
  ∧ ((0 < uncompressedTotal entries)%N →
     ratio = JInfinity
     ∧ validateZipContents entries
       = invalid "Suspicious compression ratio (possible zip bomb)").
Proof.
  intros Hne Hlen Hc ratio. subst ratio.
  rewrite (validateZipContents_in_range entries Hne Hlen), Hc.
  split; [| split].
  - rewrite gt_div_spec. lia.
  - intros ->. split; reflexivity.
  - intros Hu. unfold div.
    destruct (N.eqb_spec (uncompressedTotal entries) 0) as [E|_]; [lia |].
    split; reflexivity.
Qed.

Lemma C9_witness :
  validateZipContents [fileEntry "empty.txt" 0 0 0; dirEntry "docs/"] = valid
  ∧ validateZipContents [fileEntry "a.txt" 5 0 5]
    = invalid "Suspicious compression ratio (possible zip bomb)".
Proof.
  split.
  - apply (C9_ratio_check_at_zero_compressed_total
             [fileEntry "empty.txt" 0 0 0; dirEntry "docs/"]);
      [done | cbn; unfold maxFiles; lia | reflexivity | reflexivity].
  - apply (C9_ratio_check_at_zero_compressed_total [fileEntry "a.txt" 5 0 5]);
      [done | cbn; unfold maxFiles; lia | reflexivity | reflexivity].
Defined.

End ValidationFacts.

(** ** The file system and the extraction monad *)
Module FsFacts.
Import Js Vocabulary StringFacts PathFacts.

#[export] Instance Buffer_eq_dec : EqDecision Buffer.
Proof. solve_decision. Defined.

Lemma writesConfined_refl root disk : writesConfined root disk disk.
Proof. by intros p Hp. Qed.

Lemma writesConfined_trans root d1 d2 d3 :
  writesConfined root d1 d2 → writesConfined root d2 d3 → writesConfined root d1 d3.
Proof.
  intros H12 H23 p Hp.
  destruct (decide (Fs.files d2 !! p = Fs.files d1 !! p)) as [E|Hne].
  - apply H23. by rewrite E.
  - by apply H12.
Qed.

Lemma writesConfined_same_files root d1 d2 :
  Fs.files d2 = Fs.files d1 → writesConfined root d1 d2.
Proof. intros E p Hp. by rewrite E in Hp. Qed.

Lemma mkdirSync_files p disk disk' :
  Fs.mkdirSync p disk = Ok disk' →
  Fs.files disk' = Fs.files disk
  ∧ Fs.dirs disk' = Fs.dirs disk ∪ list_to_set (Fs.ancestors p).
Proof.
  unfold Fs.mkdirSync. destruct (existsb _ _); [done |].
  intros [= <-]. done.
Qed.

Lemma writeFileSync_files p data disk disk' :
  Fs.writeFileSync p data disk = Ok disk' →
  Fs.files disk' = <[p := data]> (Fs.files disk) ∧ Fs.dirs disk' = Fs.dirs disk.
Proof.
  unfold Fs.writeFileSync.
  destruct (Fs.isDir disk p); [done |].
  destruct (Fs.isFile disk (Path.dirname p)); [done |].
  destruct (negb (Fs.isDir disk (Path.dirname p))); [done |].
  intros [= <-]. done.
Qed.

Lemma prefixes_last (segs : list string) :
  segs ≠ [] → In segs (Fs.prefixes segs).
Proof.
  induction segs as [|s rest IH]; [done |]. intros _.
  cbn [Fs.prefixes]. destruct rest as [|s' rest'].
  - by left.
  - right. apply in_map. by apply IH.
Qed.

(** After a recursive [mkdirSync] the directory exists. *)
Lemma mkdirSync_isDir segs disk disk' :
  Forall clean segs →
  Fs.mkdirSync (render segs) disk = Ok disk' → Fs.isDir disk' (render segs) = true.
Proof.
  intros Hclean Hmk. apply mkdirSync_files in Hmk as [_ Hdirs].
  unfold Fs.isDir. destruct segs as [|s rest]; [done |].
  apply orb_true_iff. right. apply bool_decide_eq_true.
  rewrite Hdirs. apply elem_of_union_r, elem_of_list_to_set, list_elem_of_In.
  unfold Fs.ancestors. fold (segments (render (s :: rest))).
  rewrite segments_render by done.
  apply (in_map (λ segs, "/" +:+ join segs)). by apply prefixes_last.
Qed.

End FsFacts.

Module MonadFacts.
Import Js AdmZip Vocabulary StringFacts PathFacts FsFacts ZipHandler.

Lemma confines_ret {A} root (a : A) : confines root (ret a).
Proof. intros s o s' [= <- <-]. apply writesConfined_refl. Qed.

Lemma confines_throw {A} root msg : confines root (@throw A msg).
Proof. intros s o s' [= <- <-]. apply writesConfined_refl. Qed.

Lemma confines_lift {A} root (o : outcome A) : confines root (lift o).
Proof. intros s o' s' [= <- <-]. apply writesConfined_refl. Qed.

Lemma confines_bind {A B} root (m : M A) (k : A → M B) :
  confines root m → (∀ a, confines root (k a)) → confines root (bind m k).
Proof.
  intros Hm Hk s o s' Hrun. unfold bind in Hrun.
  destruct (m s) as [[a|msg] s1] eqn:E.
  - eapply writesConfined_trans; [by eapply Hm | by eapply Hk].
  - injection Hrun as <- <-. by eapply Hm.
Qed.

Lemma confines_tryCatch {A} root (m : M A) (h : string → M A) :
  confines root m → (∀ msg, confines root (h msg)) → confines root (tryCatch m h).
Proof.
  intros Hm Hh s o s' Hrun. unfold tryCatch in Hrun.
  destruct (m s) as [[a|msg] s1] eqn:E.
  - injection Hrun as <- <-. by eapply Hm.
  - eapply writesConfined_trans; [by eapply Hm | by eapply Hh].
Qed.

Lemma confines_existsSync root p : confines root (existsSync p).
Proof. intros s o s' [= <- <-]. apply writesConfined_refl. Qed.

Lemma confines_pushWarning root w : confines root (pushWarning w).
Proof. intros s o s' [= <- <-]. apply writesConfined_refl. Qed.

Lemma confines_pushExtracted root p : confines root (pushExtracted p).
Proof. intros s o s' [= <- <-]. apply writesConfined_refl. Qed.

Lemma confines_addTotal root n : confines root (addTotal n).
Proof. intros s o s' [= <- <-]. apply writesConfined_refl. Qed.

Lemma confines_getTotal root : confines root getTotal.
Proof. intros s o s' [= <- <-]. apply writesConfined_refl. Qed.

Lemma confines_mkdirSync root p : confines root (mkdirSync p).
Proof.
  intros s o s' Hrun. unfold mkdirSync, withFs in Hrun.
  destruct (Fs.mkdirSync p (fs s)) as [disk'|msg] eqn:E.
  - injection Hrun as <- <-. cbn [fs].
    apply writesConfined_same_files. by apply mkdirSync_files in E as [-> _].
  - injection Hrun as <- <-. apply writesConfined_refl.
Qed.

Lemma confines_writeFileSync root p data :
  Under root p → confines root (writeFileSync p data).
Proof.
  intros Hunder s o s' Hrun. unfold writeFileSync, withFs in Hrun.
  destruct (Fs.writeFileSync p data (fs s)) as [disk'|msg] eqn:E.
  - injection Hrun as <- <-. cbn [fs].
    apply writeFileSync_files in E as [Hfiles _].
    intros q Hq. rewrite Hfiles in Hq.
    destruct (decide (p = q)) as [<-|Hne]; [done |].
    by rewrite lookup_insert_ne in Hq.
  - injection Hrun as <- <-. apply writesConfined_refl.
Qed.

Lemma confines_forOf root body entries :
  (∀ e, confines root (body e)) → confines root (forOf body entries).
Proof.
  intros Hbody. induction entries as [|e rest IH]; cbn [forOf].
  - apply confines_ret.
  - apply confines_bind; [apply Hbody | by intros _].
Qed.

(** The loop over a concatenation runs the loop over the first part and,
    unless that threw, the loop over the second. *)
Lemma forOf_app body l1 l2 s :
  forOf body (l1 ++ l2) s =
    match forOf body l1 s with
    | (Ok _, s1) => forOf body l2 s1
    | (Throw msg, s1) => (Throw msg, s1)
    end.
Proof.
  revert s. induction l1 as [|e rest IH]; intros s; [done |].
  cbn [app forOf]. unfold bind.
  destruct (body e s) as [[[]|msg] s1]; [apply IH | done].
Qed.

End MonadFacts.

(** ** Extraction *)
Module ExtractionFacts.
Import Js AdmZip Vocabulary StringFacts PathFacts FsFacts MonadFacts.
Import SanitizerFacts ValidationFacts ZipHandler.

(** The destination of an entry lies below the extraction root. *)
Lemma outputPath_under root entryName :
  Forall clean root →
  Under (render root)
        (Path.join2 (render root) (sanitizeFilePath entryName)).
Proof.
  intros Hroot.
  destruct (sanitizeFilePath_shape entryName) as (rest & Hne & Hrest & ->).
  exists rest. split; [done |]. split; [done |].
  rewrite segments_render by done. by apply join2_render.
Qed.

Lemma confines_extractEntry root options e :
  Forall clean root →
  confines (render root) (extractEntry (render root) options e).
Proof.
  intros Hroot. unfold extractEntry.
  destruct (isDirectory e); [apply confines_ret |].
  destruct (negb (isValid (validateZipEntry e))); [apply confines_pushWarning |].
  apply confines_bind; [apply confines_existsSync |]. intros outputExists.
  destruct (outputExists && negb (default false (overwrite options)));
    [apply confines_pushWarning |].
  apply confines_bind; [apply confines_existsSync |]. intros dirExists.
  apply confines_bind.
  { destruct (negb dirExists); [apply confines_mkdirSync | apply confines_ret]. }
  intros _. apply confines_tryCatch; [| intros msg; apply confines_pushWarning].
  apply confines_bind; [apply confines_lift |]. intros data.
  apply confines_bind.
  { apply confines_writeFileSync. by apply outputPath_under. }
  intros _. apply confines_bind; [apply confines_pushExtracted |]. intros _.
  apply confines_bind; [apply confines_addTotal |]. intros _.
  apply confines_bind; [apply confines_getTotal |]. intros total.
  destruct (maxExtractedSize <? total)%N; [apply confines_throw | apply confines_ret].
Qed.

Lemma extractionRoot_render cwd extractTo :
  ∃ root, Forall clean root ∧ extractionRoot cwd extractTo = render root.
Proof.
  eexists. split; [| apply resolve_render]. apply segments_clean.
Qed.

Lemma confines_performExtractionM cwd zip extractTo options :
  confines (extractionRoot cwd extractTo)
           (performExtractionM cwd zip extractTo options).
Proof.
  unfold performExtractionM.
  destruct (extractionRoot_render cwd extractTo) as (root & Hroot & ->).
  apply confines_bind; [apply confines_existsSync |]. intros rootExists.
  apply confines_bind.
  { destruct (negb rootExists); [apply confines_mkdirSync | apply confines_ret]. }
  intros _. apply confines_bind; [apply confines_lift |]. intros entries.
  apply confines_bind.
  { destruct (negb (isValid (validateZipContents entries)));
      [apply confines_throw | apply confines_ret]. }
  intros _. apply confines_bind.
  { apply confines_forOf. intros e. by apply confines_extractEntry. }
  intros _ s o s' [= <- <-]. apply writesConfined_refl.
Qed.

(** No run of [performExtraction] changes a file outside the root. *)
Lemma performExtraction_confined cwd zip extractTo options disk res disk' :
  performExtraction cwd zip extractTo options disk = (res, disk') →
  writesConfined (extractionRoot cwd extractTo) disk disk'.
Proof.
  unfold performExtraction.
  destruct (performExtractionM _ _ _ _ _) as [o s] eqn:E.
  intros [= <- <-].
  by apply confines_performExtractionM in E.
Qed.

Lemma extractZip_confined cwd file_path upload extract_to options disk r disk' :
  extractZip cwd file_path upload extract_to options disk = (r, disk') →
  writesConfined (extractionRoot cwd (default "extracted" extract_to)) disk disk'.
Proof.
  unfold extractZip. destruct upload as [up|].
  - destruct (negb (isValid (SecurityValidator.validateFile file_path (Some up)))).
    + intros [= <- <-]. apply writesConfined_refl.
    + destruct (performExtraction _ _ _ _ _) as [[res|msg] d] eqn:E;
        intros [= <- <-]; by apply performExtraction_confined in E.
  - intros [= <- <-]. apply writesConfined_refl.
Qed.

(** A traversal entry that is not a directory gets a warning and
    nothing else. *)
Lemma extractEntry_hazardous root options e s :
  isDirectory e = false → hazardous (entryName e) →
  extractEntry root options e s
  = (Ok tt, warned ("Skipped " +:+ entryName e
                    +:+ ": Path traversal attempt detected") s).
Proof.
  intros Hdir Hhaz. unfold extractEntry.
  by rewrite Hdir, (validateZipEntry_hazardous e Hhaz).
Qed.

(** The budget check of the loop body: when the write of an acceptable
    entry takes the running total over the budget, the exception is caught
    by the handler of that entry; the body returns normally, with the file
    on disk, its name among the extracted files and one more warning. *)
Lemma extractEntry_over_budget root options e s data disk' :
  isDirectory e = false →
  validateZipEntry e = valid →
  let sanitizedPath := sanitizeFilePath (entryName e) in
  let outputPath := Path.join2 root sanitizedPath in
  Fs.existsSync (fs s) outputPath = false →
  Fs.existsSync (fs s) (Path.dirname outputPath) = true →
  getData e = Ok data →
  Fs.writeFileSync outputPath data (fs s) = Ok disk' →
  (maxExtractedSize < totalSize s + byteLength data)%N →
  extractEntry root options e s
  = (Ok tt,
     mkState disk' (extractedFiles s ++ [sanitizedPath])
       (warnings s ++ ["Failed to extract " +:+ entryName e
                       +:+ ": Total extracted size exceeds limit ("
                       +:+ pretty maxExtractedSize +:+ " bytes)"])
       (totalSize s + byteLength data)).
Proof.
  intros Hdir Hvalid sanitizedPath outputPath Hfresh Hparent Hdata Hwrite Hover.
  unfold extractEntry. rewrite Hdir, Hvalid. cbn [isValid valid negb].
  fold sanitizedPath. fold outputPath.
  unfold bind, existsSync, tryCatch, lift, writeFileSync, withFs, pushExtracted,
    addTotal, getTotal, throw, ret, pushWarning.
  rewrite Hfresh. cbn [andb]. rewrite Hparent. cbn [negb].
  rewrite Hdata, Hwrite. cbn [fs extractedFiles warnings totalSize].
  apply N.ltb_lt in Hover. by rewrite Hover.
Qed.

(** An archive that fails structural validation: the root is created if
    it was missing, then the validator's reason is thrown. *)
Lemma performExtraction_rejected cwd entries extractTo options disk why :
  validateZipContents entries = invalid why →
  performExtraction cwd (Ok entries) extractTo options disk =
    if Fs.existsSync disk (extractionRoot cwd extractTo) then (Throw why, disk)
    else match Fs.mkdirSync (extractionRoot cwd extractTo) disk with
         | Ok disk' => (Throw why, disk')
         | Throw msg => (Throw msg, disk)
         end.
Proof.
  intros Hinv.
  unfold performExtraction, performExtractionM, bind, existsSync, lift, initialState.
  cbn [fs]. rewrite Hinv. cbn [isValid invalid negb reason show].
  destruct (Fs.existsSync disk (extractionRoot cwd extractTo)); cbn [negb].
  - reflexivity.
  - unfold mkdirSync, withFs. cbn [fs].
    destruct (Fs.mkdirSync (extractionRoot cwd extractTo) disk); reflexivity.
Qed.

Lemma validateZipContents_invalid entries :
  isValid (validateZipContents entries) = false →
  ∃ why, validateZipContents entries = invalid why.
Proof.
  unfold validateZipContents.
  repeat match goal with
         | |- context [if ?b then _ else _] => destruct b
         end; intros H; try done; by eexists.
Qed.

(** The three rejections the spec names all make the validator fail. *)
Lemma validateZipContents_rejects entries :
  entries = []
  ∨ (maxFiles < length entries)%nat
  ∨ (100 * compressedTotal entries < uncompressedTotal entries)%N →
  isValid (validateZipContents entries) = false.
Proof.
  intros [-> | [Hmany | Hbomb]]; [reflexivity | |].
  - unfold validateZipContents.
    destruct (length entries =? 0)%nat; [done |].
    apply Nat.ltb_lt in Hmany. by rewrite Hmany.
  - unfold validateZipContents.
    destruct (length entries =? 0)%nat; [done |].
    destruct (maxFiles <? length entries)%nat; [done |].
    rewrite sizeTotals_spec. cbn [fst snd].
    apply gt_div_spec in Hbomb. by rewrite Hbomb.
Qed.

Lemma extractZip_rejected cwd file_path up entries extract_to options disk why :
  isValid (SecurityValidator.validateFile file_path (Some up)) = true →
  archive up = Ok entries →
  validateZipContents entries = invalid why →
  extractZip cwd file_path (Some up) extract_to options disk =
    let root := extractionRoot cwd (default "extracted" extract_to) in
    if Fs.existsSync disk root
    then (mkToolResult false ("Extraction failed: " +:+ why) None, disk)
    else match Fs.mkdirSync root disk with
         | Ok disk' => (mkToolResult false ("Extraction failed: " +:+ why) None, disk')
         | Throw msg => (mkToolResult false ("Extraction failed: " +:+ msg) None, disk)
         end.
Proof.
  intros Hgate Harchive Hinv. unfold extractZip.
  rewrite Hgate, Harchive. cbn [negb].
  rewrite (performExtraction_rejected _ _ _ _ _ why Hinv). cbn zeta.
  destruct (Fs.existsSync disk _); [done |].
  destruct (Fs.mkdirSync _ disk); done.
Qed.

End ExtractionFacts.

(** ** The claims about extraction *)
Module ExtractionClaims.
Import Js AdmZip Vocabulary StringFacts PathFacts FsFacts MonadFacts.
Import SanitizerFacts ValidationFacts ExtractionFacts ZipHandler.

(** The budget check of the loop sits inside the [try] of its entry.  For
    the total to pass the budget in an archive that passed structural
    validation, an entry has to yield more bytes than its header declares;
    the exception the check then throws is caught by the handler of the
    same entry and becomes a warning, the loop goes on, the later entry is
    written as well and the result reports success. *)
Lemma budget_overrun_is_caught_with_the_entry :
  let entries := [fileEntry "big.txt" 1 1 104857601; fileEntry "b.txt" 1 1 1] in
  let run := extractZip "/srv/app" "uploads/big.zip"
               (Some (zipUpload entries)) None noOptions emptyDisk in
  validateZipContents entries = valid
  ∧ fst run =
      mkToolResult true "Successfully extracted 2 files"
        (Some (mkExtractResult true "Successfully extracted 2 files"
                 ["big.txt"; "b.txt"] 2 104857602
                 (Some ["Failed to extract big.txt: Total extracted size exceeds limit (104857600 bytes)";
                        "Failed to extract b.txt: Total extracted size exceeds limit (104857600 bytes)"])))
  ∧ Fs.files (snd run) !! "/srv/app/data/extracted/big.txt" = Some (mkBuffer 104857601)
  ∧ Fs.files (snd run) !! "/srv/app/data/extracted/b.txt" = Some (mkBuffer 1).
Proof. vm_compute. repeat split; reflexivity. Qed.

(** C2 (as amended).  In a valid archive, an entry that is not a
    directory and whose raw name contains [..], begins with [/] or
    contains a backslash is skipped by the extraction loop: processing it
    writes nothing and appends exactly one warning that names it, also in
    the run over the whole archive once the loop reaches it; a directory
    entry is passed over without a warning, whatever its name; and no call
    of [extractZip] changes a file outside the resolved extraction root. *)
Theorem C2_traversal_entry_skipped_with_one_warning
  cwd file_path declared mime extract_to options
  pre e post disk :
  isValid (validateZipContents (pre ++ e :: post)) = true →
  isDirectory e = false →
  hazardous (entryName e) →
  let root := extractionRoot cwd (default "extracted" extract_to) in
  let body := extractEntry root options in
  let w := "Skipped " +:+ entryName e +:+ ": Path traversal attempt detected" in
  (∀ s, body e s = (Ok tt, warned w s))
  ∧ (∀ s s1, forOf body pre s = (Ok tt, s1) →
       forOf body (pre ++ e :: post) s = forOf body post (warned w s1))
  ∧ (∀ d s, isDirectory d = true → body d s = (Ok tt, s))
  ∧ (∀ r disk',
       extractZip cwd file_path
         (Some (mkUploadedFile declared mime (Ok (pre ++ e :: post))))
         extract_to options disk = (r, disk') →
       writesConfined root disk disk').
Proof.
  intros _ Hdir Hhaz root body w.
  assert (∀ s, body e s = (Ok tt, warned w s)) as Hskip.
  { intros s. by apply extractEntry_hazardous. }
  split; [exact Hskip |]. split; [| split].
  - intros s s1 Hpre. rewrite forOf_app, Hpre. cbn [forOf]. unfold bind.
    by rewrite Hskip.
  - intros d s Hd. subst body. unfold extractEntry. by rewrite Hd.
  - intros r disk' Hrun. by apply extractZip_confined in Hrun.
Qed.

Lemma C2_witness :
  let pre := [fileEntry "notes.md" 50 40 50] in
  let e := fileEntry "../../etc/passwd" 10 10 10 in
  let root := extractionRoot "/srv/app" "extracted" in
  isValid (validateZipContents (pre ++ [e])) = true
  ∧ hazardous (entryName e)
  ∧ extractEntry root noOptions e (initialState emptyDisk)
    = (Ok tt, warned "Skipped ../../etc/passwd: Path traversal attempt detected"
                     (initialState emptyDisk)).
Proof.
  intros pre e root.
  assert (hazardous (entryName e)) as Hhaz.
  { left. by exists "", "/../etc/passwd". }
  split; [reflexivity |]. split; [exact Hhaz |].
  apply (C2_traversal_entry_skipped_with_one_warning
           "/srv/app" "uploads/x.zip" 4096%N (Some "application/zip") None noOptions
           pre e [] emptyDisk eq_refl eq_refl Hhaz).
Defined.

(** The claim C2 as it stands fails on a directory entry: its name holds
    [..], the archive is valid, and the entry is passed over without any
    warning. *)
Lemma C2_counterexample_directory_entry :
  let e := dirEntry "../evil/" in
  isValid (validateZipContents [e]) = true
  ∧ includes ".." (entryName e) = true
  ∧ fst (extractZip "/srv/app" "uploads/x.zip"
           (Some (zipUpload [e])) None noOptions emptyDisk)
    = mkToolResult true "Successfully extracted 0 files"
        (Some (mkExtractResult true "Successfully extracted 0 files" [] 1 0 None)).
Proof. vm_compute. repeat split; reflexivity. Qed.

(** C3 (as amended).  An uploaded archive that passed the security gate
    and whose non-directory entries declare more than 100 times their
    summed compressed size: [extractZip] reports failure and leaves every
    regular file as it was, provided the extraction directory exists or
    can be created.  The message is the zip-bomb one when the archive has
    at most 1000 entries; a larger archive is turned away by the count
    check that runs first, with the file-count message. *)
Theorem C3_bomb_rejected_before_any_write
  cwd file_path up entries extract_to options disk :
  isValid (SecurityValidator.validateFile file_path (Some up)) = true →
  archive up = Ok entries →
  (100 * compressedTotal entries < uncompressedTotal entries)%N →
  rootAvailable disk (extractionRoot cwd (default "extracted" extract_to)) →
  ∃ disk',
    extractZip cwd file_path (Some up) extract_to options disk
    = (mkToolResult false
         ("Extraction failed: "
          +:+ (if (maxFiles <? length entries)%nat
               then "ZIP contains too many files (max: 1000)"
               else "Suspicious compression ratio (possible zip bomb)"))
         None,
       disk')
    ∧ Fs.files disk' = Fs.files disk.
Proof.
  intros Hgate Harchive Hbomb Hroot.
  assert (entries ≠ []) as Hne by (intros ->; cbn in Hbomb; lia).
  set (why := if (maxFiles <? length entries)%nat
              then "ZIP contains too many files (max: 1000)"
              else "Suspicious compression ratio (possible zip bomb)").
  assert (validateZipContents entries = invalid why) as Hinv.
  { subst why. destruct (Nat.ltb_spec maxFiles (length entries)) as [Hmany | Hfew].
    - unfold validateZipContents. destruct entries; [done |].
      apply Nat.ltb_lt in Hmany. rewrite Hmany. reflexivity.
    - rewrite validateZipContents_in_range by done.
      apply gt_div_spec in Hbomb. by rewrite Hbomb. }
  rewrite (extractZip_rejected _ _ _ _ _ _ _ _ Hgate Harchive Hinv).
  cbn zeta. destruct Hroot as [Hex | [d Hmk]].
  - rewrite Hex. by eexists.
  - destruct (Fs.existsSync disk _); [by eexists |].
    rewrite Hmk. eexists. split; [done |]. by apply mkdirSync_files in Hmk as [-> _].
Qed.

Lemma C3_witness :
  let entries := [fileEntry "bomb.txt" 5000 10 5000] in
  (100 * compressedTotal entries < uncompressedTotal entries)%N
  ∧ ∃ disk',
      extractZip "/srv/app" "uploads/bomb.zip"
        (Some (zipUpload entries)) None noOptions emptyDisk
      = (mkToolResult false
           "Extraction failed: Suspicious compression ratio (possible zip bomb)" None,
         disk')
      ∧ Fs.files disk' = Fs.files emptyDisk.
Proof.
  intros entries. split; [reflexivity |].
  apply (C3_bomb_rejected_before_any_write "/srv/app"
           "uploads/bomb.zip" (zipUpload entries) entries None noOptions emptyDisk).
  - reflexivity.
  - reflexivity.
  - reflexivity.
  - right. eexists. reflexivity.
Defined.

(** The claim C3 as it stands fails on an archive with more than 1000
    entries: the ratio is above 100, yet the answer cites the file count
    and does not mention a bomb. *)
Lemma C3_counterexample_too_many_files :
  let entries := repeat (fileEntry "a.txt" 101 1 101) 1001 in
  let answer := fst (extractZip "/srv/app" "uploads/bomb.zip"
                       (Some (zipUpload entries)) None noOptions emptyDisk) in
  (100 * compressedTotal entries <? uncompressedTotal entries)%N = true
  ∧ answer = mkToolResult false
               "Extraction failed: ZIP contains too many files (max: 1000)" None
  ∧ includes "bomb" (message answer) = false.
Proof. vm_compute. repeat split; reflexivity. Qed.

(** C10.  [extractZip] creates the resolved extraction directory, with
    the directories above it, before it validates the archive: when the
    archive is then rejected as a whole (for being empty, for having more
    than 1000 entries, as a bomb, or for its declared total), the answer
    is the failure carrying the validator's reason, the directory that
    did not exist before is on disk with all its parents, and no regular
    file has been written. *)
Theorem C10_root_directory_created_before_validation
  cwd file_path up entries extract_to options disk disk1 :
  isValid (SecurityValidator.validateFile file_path (Some up)) = true →
  archive up = Ok entries →
  isValid (validateZipContents entries) = false →
  let root := extractionRoot cwd (default "extracted" extract_to) in
  Fs.existsSync disk root = false →
  Fs.mkdirSync root disk = Ok disk1 →
  extractZip cwd file_path (Some up) extract_to options disk
  = (mkToolResult false
       ("Extraction failed: " +:+ show (reason (validateZipContents entries))) None,
     disk1)
  ∧ Fs.isDir disk1 root = true
  ∧ (∀ p, In p (Fs.ancestors root) → Fs.isDir disk1 p = true)
  ∧ Fs.files disk1 = Fs.files disk.
Proof.
  intros Hgate Harchive Hrej root Hmissing Hmk.
  destruct (validateZipContents_invalid entries Hrej) as [why Hinv].
  rewrite (extractZip_rejected _ _ _ _ _ _ _ _ Hgate Harchive Hinv).
  cbn zeta. fold root. rewrite Hmissing, Hmk, Hinv. cbn [reason invalid show].
  split; [done |].
  destruct (extractionRoot_render cwd (default "extracted" extract_to))
    as (segs & Hsegs & Hroot).
  fold root in Hroot. split.
  - rewrite Hroot in Hmk |- *. by eapply mkdirSync_isDir.
  - apply mkdirSync_files in Hmk as [Hfiles Hdirs]. split; [| done].
    intros p Hp. unfold Fs.isDir. apply orb_true_iff. right.
    apply bool_decide_eq_true. rewrite Hdirs.
    by apply elem_of_union_r, elem_of_list_to_set, list_elem_of_In.
Qed.

Lemma C10_witness :
  let root := extractionRoot "/srv/app" "extracted" in
  ∃ disk1,
    Fs.mkdirSync root emptyDisk = Ok disk1
    ∧ extractZip "/srv/app" "uploads/empty.zip"
        (Some (zipUpload [])) None noOptions emptyDisk
      = (mkToolResult false "Extraction failed: ZIP file is empty" None, disk1)
    ∧ Fs.isDir disk1 "/srv/app/data/extracted" = true
    ∧ Fs.isDir disk1 "/srv/app/data" = true
    ∧ Fs.files disk1 = ∅.
Proof.
  intros root. eexists. split; [reflexivity |].
  pose proof (C10_root_directory_created_before_validation
                "/srv/app" "uploads/empty.zip" (zipUpload []) [] None noOptions
                emptyDisk _ eq_refl eq_refl eq_refl eq_refl eq_refl)
    as (Hrun & Hdir & Hanc & Hfiles).
  split; [exact Hrun |]. split; [exact Hdir |]. split; [| exact Hfiles].
  apply Hanc. vm_compute. tauto.
Defined.

End ExtractionClaims.

(** ** The context store *)
Module ContextFacts.
Import Js Vocabulary StringFacts ContextManager.

Lemma mapGet_mapSet k k' v m :
  mapGet k (mapSet k' v m) = if String.eqb k k' then Some v else mapGet k m.
Proof.
  induction m as [|[k0 v0] rest IH]; cbn [mapSet mapGet].
  - done.
  - destruct (String.eqb_spec k' k0) as [->|Hne]; cbn [mapGet].
    + by destruct (String.eqb k k0).
    + destruct (String.eqb_spec k k0) as [->|Hne'].
      * apply not_eq_sym, eqb_false_iff in Hne. by rewrite Hne.
      * apply IH.
Qed.

Lemma mapGet_same k v m : mapGet k (mapSet k v m) = Some v.
Proof. by rewrite mapGet_mapSet, String.eqb_refl. Qed.

Lemma mapGet_Some_In k c m : mapGet k m = Some c → In (k, c) m.
Proof.
  induction m as [|[k0 v0] rest IH]; cbn [mapGet]; [done |].
  destruct (String.eqb_spec k k0) as [->|Hne].
  - intros [= ->]. by left.
  - intros H. right. by apply IH.
Qed.

Lemma mapGet_None k m : (∀ c, ¬ In (k, c) m) → mapGet k m = None.
Proof.
  intros Hno. destruct (mapGet k m) as [c|] eqn:E; [| done].
  apply mapGet_Some_In in E. by apply Hno in E.
Qed.




Lemma saveContexts_contexts io st : contexts (saveContexts io st) = contexts st.
Proof. unfold saveContexts, writeContextsFile. by destruct io. Qed.

Lemma saveContexts_logs io st :
  logs (saveContexts io st)
  = logs st ++ match io with
               | Written => []
               | NotOpened msg | Interrupted msg _ =>
                   [mkLogEntry "error" "Failed to save contexts" msg]
               end.
Proof. destruct io; cbn; [by rewrite app_nil_r | done | done]. Qed.


Lemma knownIn_weaken ids ids' st :
  (∀ i, In i ids → In i ids') → knownIn ids st → knownIn ids' st.
Proof.
  intros Hsub [Hmem Hfile]. split.
  - intros k c Hin. destruct (Hmem k c Hin). auto.
  - intros arr c Harr Hin. eauto.
Qed.








End ContextFacts.

(** ** Listing contexts *)
Module ListingFacts.
Import Js Vocabulary StringFacts ContextManager.

Section WithClock.
Variable getTime : string → Z.

Lemma insertSorted_perm x l : Permutation (insertSorted getTime x l) (x :: l).
Proof.
  induction l as [|y rest IH]; cbn [insertSorted]; [done |].
  destruct (byCreatedDesc getTime x y <=? 0)%Z; [done |].
  rewrite IH. apply perm_swap.
Qed.

Lemma sort_perm l : Permutation (sort getTime l) l.
Proof.
  induction l as [|x rest IH]; [done |].
  cbn [sort fold_right]. fold (sort getTime rest).
  rewrite insertSorted_perm. by constructor.
Qed.

Lemma insertSorted_sorted x l :
  StronglySorted (newestFirst getTime) l →
  StronglySorted (newestFirst getTime) (insertSorted getTime x l).
Proof.
  induction 1 as [|y rest Hsorted IH Hy]; cbn [insertSorted].
  - repeat constructor.
  - destruct (Z.leb_spec (byCreatedDesc getTime x y) 0) as [Hle | Hgt];
      unfold byCreatedDesc in *.
    + constructor; [by constructor |].
      constructor; [unfold newestFirst; lia |].
      eapply List.Forall_impl; [| exact Hy].
      unfold newestFirst. intros z Hz. lia.
    + constructor; [exact IH |].
      eapply Permutation_Forall; [symmetry; apply insertSorted_perm |].
      constructor; [unfold newestFirst; lia | exact Hy].
Qed.

Lemma sort_sorted l : StronglySorted (newestFirst getTime) (sort getTime l).
Proof.
  induction l as [|x rest IH]; [constructor |].
  cbn [sort fold_right]. by apply insertSorted_sorted.
Qed.

End WithClock.

Lemma filter_all {A} (l : list A) : List.filter (λ _, true) l = l.
Proof. induction l as [|x l IH]; [done |]. cbn. by rewrite IH. Qed.

(** The guarded filters of [getContexts] are the plain filters by what
    the argument selects. *)
Lemma status_filter filter l :
  (if selective (filter ≫= f_status) then
     List.filter (λ c, String.eqb (statusName (status c))
                                  (default "" (filter ≫= f_status))) l
   else l)
  = List.filter (wantsStatus filter) l.
Proof.
  unfold wantsStatus, selective, truthy.
  destruct (filter ≫= f_status) as [s|]; [| by rewrite filter_all].
  change (default "" (Some s)) with s.
  destruct (String.eqb s ""); cbn [negb andb orb]; [by rewrite filter_all |].
  destruct (String.eqb s "all"); cbn [negb]; [by rewrite filter_all | done].
Qed.

Lemma type_filter filter l :
  (if selective (filter ≫= f_type) then
     List.filter (λ c, String.eqb (typeName (type c))
                                  (default "" (filter ≫= f_type))) l
   else l)
  = List.filter (wantsType filter) l.
Proof.
  unfold wantsType, selective, truthy.
  destruct (filter ≫= f_type) as [s|]; [| by rewrite filter_all].
  change (default "" (Some s)) with s.
  destruct (String.eqb s ""); cbn [negb andb orb]; [by rewrite filter_all |].
  destruct (String.eqb s "all"); cbn [negb]; [by rewrite filter_all | done].
Qed.

Lemma search_filter filter l :
  (if truthy (filter ≫= f_search) then
     List.filter (λ c, includes (toLowerCase (default "" (filter ≫= f_search)))
                                (toLowerCase (name c))) l
   else l)
  = List.filter (wantsSearch filter) l.
Proof.
  unfold wantsSearch, truthy.
  destruct (filter ≫= f_search) as [s|]; [| by rewrite filter_all].
  change (default "" (Some s)) with s.
  destruct (String.eqb s ""); cbn [negb]; [by rewrite filter_all | done].
Qed.

Lemma getContexts_unfold getTime filter st :
  getContexts getTime filter st
  = (take (effectiveLimit filter)
          (drop (effectiveOffset filter) (sort getTime (selected filter st))),
     length (sort getTime (selected filter st))).
Proof.
  unfold getContexts, selected.
  rewrite status_filter, type_filter, search_filter.
  f_equal. f_equal; [| f_equal].
  - unfold effectiveLimit, orDefault. destruct (filter ≫= f_limit) as [n|]; [| done].
    by destruct (n =? 0)%N.
  - unfold effectiveOffset, orDefault. destruct (filter ≫= f_offset) as [n|]; [| done].
    by destruct (N.eqb_spec n 0) as [->|].
Qed.

End ListingFacts.

(** ** The claims about the context store *)
Module ContextClaims.
Import Js Vocabulary StringFacts ContextFacts ListingFacts ContextManager.

(** C5 (as amended).  A failure of the write of the persisted collection
    during [createContext] or [markApproved], whether the file could not
    be opened or the write broke off part way, is caught inside
    [saveContexts] and logged there as ['Failed to save contexts']; it is
    not surfaced: [createContext] returns the new id, [markApproved]
    returns the result it returns when the write succeeds, and nothing
    is thrown. *)
Theorem C5_write_failure_is_logged_not_reported (io : WriteAnswer) (msg : string) :
  writeFailed io msg →
  (∀ uuid now1 now2 name type size fileCount st,
     let done := createContext uuid now1 now2 io name type size fileCount st in
     fst done = uuid
     ∧ logs (snd done)
       = logs st ++ [mkLogEntry "error" "Failed to save contexts" msg;
                     mkLogEntry "info" "Context created" uuid])
  ∧ (∀ now args st,
       let done := markApproved now io args st in
       fst done = fst (markApproved now Written args st)
       ∧ (success (fst done) = true →
          logs (snd done)
          = logs st ++ [mkLogEntry "error" "Failed to save contexts" msg;
                        mkLogEntry "info"
                          ("Context " +:+ statusName (decision (approved_flag args)))
                          (context_id args)])).
Proof.
  intros Hfailed.
  assert (∀ st, logs (saveContexts io st)
                = logs st ++ [mkLogEntry "error" "Failed to save contexts" msg])
    as Hlog.
  { intros st. rewrite saveContexts_logs.
    by destruct Hfailed as [-> | [parseError ->]]. }
  split.
  - intros. subst done. unfold createContext. cbn [fst snd id].
    split; [done |]. unfold logTo at 1. cbn [logs].
    by rewrite Hlog, <- app_assoc.
  - intros. subst done. unfold markApproved, markApprovedTry.
    destruct (mapGet (context_id args) (contexts st)) as [c|]; [| done].
    cbn [fst snd]. split; [done |]. intros _. unfold logTo at 1. cbn [logs].
    by rewrite Hlog, <- app_assoc.
Qed.

Lemma C5_witness :
  let done := markApproved "2024-02-01T00:00:00.000Z"
                (Interrupted "ENOSPC: no space left on device, write"
                             "Unexpected end of JSON input")
                (mkApprovalArgs "c1" false (Some "stale")) sampleStore in
  success (fst done) = true
  ∧ logs (snd done)
    = [mkLogEntry "error" "Failed to save contexts"
         "ENOSPC: no space left on device, write";
       mkLogEntry "info" "Context rejected" "c1"].
Proof.
  intros done. split; [reflexivity |].
  apply (proj2 (C5_write_failure_is_logged_not_reported
                  (Interrupted "ENOSPC: no space left on device, write"
                               "Unexpected end of JSON input")
                  "ENOSPC: no space left on device, write"
                  (or_intror (ex_intro _ "Unexpected end of JSON input" eq_refl)))
           "2024-02-01T00:00:00.000Z" (mkApprovalArgs "c1" false (Some "stale"))
           sampleStore).
  reflexivity.
Defined.

(** The claim C5 as it stands fails: with the write of the collection
    failing, [markApproved] answers success, not failure. *)
Lemma C5_counterexample_failure_not_surfaced :
  let done := markApproved "2024-02-01T00:00:00.000Z"
                (Interrupted "ENOSPC: no space left on device, write"
                             "Unexpected end of JSON input")
                (mkApprovalArgs "c1" false None) sampleStore in
  success (fst done) = true
  ∧ message (fst done) = "Context rejected successfully".
Proof. vm_compute. split; reflexivity. Qed.



(** C7 (as amended).  A context whose status is already approved or
    rejected is not protected from a further [markApproved]: the call
    answers success, the stored record takes the newly requested status
    and the current time as [updated], a reason that is supplied and is
    not the empty string is stored in [metadata] under the key
    [approvalReason] next to what was there, with no reason or with the
    empty string as reason [metadata] stays as it was, and the other
    fields are kept. *)
Theorem C7_approve_overwrites_terminal_status now io args st c :
  mapGet (context_id args) (contexts st) = Some c →
  status c = approved ∨ status c = rejected →
  ∃ c',
    fst (markApproved now io args st)
    = mkToolResult true
        ("Context " +:+ statusName (decision (approved_flag args)) +:+ " successfully")
        (Some c')
    ∧ mapGet (context_id args) (contexts (snd (markApproved now io args st))) = Some c'
    ∧ status c' = (if approved_flag args then approved else rejected)
    ∧ updated c' = now
    ∧ (∀ why, approval_reason args = Some why → why ≠ "" →
         metadata c' = Some (<["approvalReason" := why]> (default ∅ (metadata c))))
    ∧ (truthy (approval_reason args) = false → metadata c' = metadata c)
    ∧ (id c', name c', type c', created c', size c', fileCount c')
      = (id c, name c, type c, created c, size c, fileCount c).
Proof.
  intros Hget _. unfold markApproved, markApprovedTry. rewrite Hget.
  eexists. split; [reflexivity |]. cbn [snd].
  split; [| split; [reflexivity | split; [reflexivity |]]].
  - unfold logTo. cbn [contexts]. rewrite saveContexts_contexts. cbn [contexts].
    apply mapGet_same.
  - cbn [metadata]. split; [| split; [| reflexivity]].
    + intros why -> Hwhy. unfold truthy.
      apply eqb_false_iff in Hwhy. by rewrite Hwhy.
    + by intros ->.
Qed.

Lemma C7_witness :
  let done := markApproved "2024-02-01T00:00:00.000Z" Written
                (mkApprovalArgs "c1" false (Some "superseded")) sampleStore in
  status sampleContext = approved
  ∧ ∃ c', mapGet "c1" (contexts (snd done)) = Some c'
          ∧ status c' = rejected
          ∧ updated c' = "2024-02-01T00:00:00.000Z"
          ∧ metadata c' = Some {["approvalReason" := "superseded"]}.
Proof.
  intros done. split; [reflexivity |].
  destruct (C7_approve_overwrites_terminal_status "2024-02-01T00:00:00.000Z" Written
              (mkApprovalArgs "c1" false (Some "superseded")) sampleStore sampleContext
              eq_refl (or_introl eq_refl))
    as (c' & _ & Hget & Hstatus & Hupdated & Hreason & _).
  exists c'. split; [exact Hget |]. split; [exact Hstatus |]. split; [exact Hupdated |].
  by apply Hreason.
Defined.

(** The claim C7 as it stands fails for a reason that is supplied but
    empty: [if (reason)] is false for it, nothing is stored under
    [approvalReason], and the reason of the earlier rejection stays. *)
Lemma C7_counterexample_empty_reason :
  let done := markApproved "2024-02-01T00:00:00.000Z" Written
                (mkApprovalArgs "c2" true (Some "")) rejectedStore in
  success (fst done) = true
  ∧ ∃ c', mapGet "c2" (contexts (snd done)) = Some c'
          ∧ status c' = approved
          ∧ metadata c' = Some {["approvalReason" := "old"]}.
Proof.
  intros done. split; [reflexivity |]. eexists. split; [reflexivity |].
  split; reflexivity.
Qed.

(** C8 (as amended).  [getContexts] keeps the records the filter selects,
    testing status, then type, then the lower-cased search term as a
    substring of the lower-cased name; a status or type that is absent,
    empty or ['all'] and a search term that is absent or empty select
    every record.  The selected records are sorted by [created], newest
    first; [total] is their number, before pagination; [items] is the
    slice of the sorted list that starts at [offset] (0 when absent) and
    has at most [limit] records (20 when absent), for the limits the
    callers pass: integers of at least 1. *)
Theorem C8_list_filters_sorts_and_paginates (getTime : string → Z) filter st :
  (∀ limit, filter ≫= f_limit = Some limit → (1 ≤ limit)%N) →
  ∃ sorted,
    Permutation sorted (selected filter st)
    ∧ StronglySorted (newestFirst getTime) sorted
    ∧ snd (getContexts getTime filter st) = length (selected filter st)
    ∧ fst (getContexts getTime filter st)
      = take (N.to_nat (default 20%N (filter ≫= f_limit)))
             (drop (N.to_nat (default 0%N (filter ≫= f_offset))) sorted)
    ∧ (length (fst (getContexts getTime filter st))
       ≤ N.to_nat (default 20%N (filter ≫= f_limit)))%nat.
Proof.
  intros Hlimit.
  exists (sort getTime (selected filter st)).
  rewrite getContexts_unfold. cbn [fst snd].
  assert (effectiveLimit filter = N.to_nat (default 20%N (filter ≫= f_limit))) as ->.
  { unfold effectiveLimit. destruct (filter ≫= f_limit) as [limit|]; [| done].
    specialize (Hlimit limit eq_refl). destruct (N.eqb_spec limit 0); [lia | done]. }
  assert (effectiveOffset filter = N.to_nat (default 0%N (filter ≫= f_offset))) as ->.
  { unfold effectiveOffset. by destruct (filter ≫= f_offset). }
  split; [apply sort_perm |]. split; [apply sort_sorted |].
  split; [apply Permutation_length, sort_perm |]. split; [done |].
  rewrite length_take. lia.
Qed.

Lemma C8_witness :
  let filter := Some (mkFilter (Some "approved") (Some "zip") (Some "PAY")
                               (Some 5%N) (Some 0%N)) in
  fst (getContexts lengthClock filter sampleStore) = [sampleContext]
  ∧ snd (getContexts lengthClock filter sampleStore) = 1%nat
  ∧ (length (fst (getContexts lengthClock filter sampleStore)) ≤ 5)%nat.
Proof.
  intros filter.
  destruct (C8_list_filters_sorts_and_paginates lengthClock filter sampleStore)
    as (sorted & _ & _ & _ & _ & Hatmost).
  - intros limit [= <-]. lia.
  - split; [vm_compute; reflexivity |]. split; [vm_compute; reflexivity |].
    exact Hatmost.
Defined.

(** The claim C8 as it stands fails for the status ['all'], the default of
    [GET /context]: the status test is not applied, and the listing holds
    a record whose status is not ['all']. *)
Lemma C8_counterexample_status_all :
  let filter := Some (mkFilter (Some "all") None None (Some 20%N) (Some 0%N)) in
  fst (getContexts lengthClock filter sampleStore) = [sampleContext]
  ∧ statusName (status sampleContext) ≠ "all".
Proof. vm_compute. split; [reflexivity | discriminate]. Qed.

End ContextClaims.


(** ** What the extraction loop does to one entry, and to the archive *)
Module LoopFacts.
Import Js AdmZip Vocabulary StringFacts PathFacts FsFacts MonadFacts.
Import SanitizerFacts ValidationFacts ExtractionFacts ZipHandler.

Lemma validateZipEntry_cases e :
  (∃ why, validateZipEntry e = invalid why) ∨ validateZipEntry e = valid.
Proof.
  unfold validateZipEntry.
  repeat match goal with
         | |- context [if ?b then _ else _] => destruct b
         end; eauto.
Qed.

Lemma validateZipContents_cases entries :
  (∃ why, validateZipContents entries = invalid why) ∨ validateZipContents entries = valid.
Proof.
  unfold validateZipContents.
  repeat match goal with
         | |- context [if ?b then _ else _] => destruct b
         end; eauto.
Qed.

(** Every run of the loop body is one of the six steps. *)
Lemma extractEntry_effect root options e s o s' :
  extractEntry root options e s = (o, s') →
  EntryStep root options e s o s'.
Proof.
  unfold extractEntry. intros Hrun.
  destruct (isDirectory e) eqn:Hdir.
  { injection Hrun as <- <-. by constructor. }
  destruct (validateZipEntry_cases e) as [[why Hv] | Hv]; rewrite Hv in Hrun;
    cbn [isValid invalid valid negb reason show] in Hrun.
  { injection Hrun as <- <-. by apply StepRejected. }
  unfold bind, existsSync, tryCatch, lift, mkdirSync, writeFileSync, withFs,
    pushExtracted, addTotal, getTotal, pushWarning, throw, ret in Hrun.
  cbn [fs extractedFiles warnings totalSize] in Hrun.
  set (out := Path.join2 root (sanitizeFilePath (entryName e))) in *.
  destruct (Fs.existsSync (fs s) out && negb (default false (overwrite options)))
    eqn:Hskip.
  { apply andb_true_iff in Hskip as [Hex Hov]. apply negb_true_iff in Hov.
    injection Hrun as <- <-. by apply StepExists. }
  assert (Fs.existsSync (fs s) out = false
          ∨ default false (overwrite options) = true) as Hmay.
  { apply andb_false_iff in Hskip as [H | H]; [by left | right].
    by apply negb_false_iff in H. }
  clear Hskip.
  assert (∀ disk1, prepared (Path.dirname out) (fs s) disk1 →
            (let (o0, s'0) :=
               match getData e with
               | Ok a0 =>
                   let (o0, s'0) :=
                     match Fs.writeFileSync out a0 disk1 with
                     | Ok fs' => (Ok (), mkState fs' (extractedFiles s) (warnings s)
                                                 (totalSize s))
                     | Throw msg => (Throw msg, withDisk disk1 s)
                     end in
                   match o0 with
                   | Ok _ =>
                       (if (maxExtractedSize <? totalSize s'0 + byteLength a0)%N
                        then λ s0 : State, (Throw overBudget, s0)
                        else λ s0 : State, (Ok (), s0))
                         (mkState (fs s'0)
                            (extractedFiles s'0
                             ++ [sanitizeFilePath (entryName e)])
                            (warnings s'0) (totalSize s'0 + byteLength a0))
                   | Throw msg => (Throw msg, s'0)
                   end
               | Throw msg => (Throw msg, withDisk disk1 s)
               end in
             match o0 with
             | Ok a0 => (Ok a0, s'0)
             | Throw msg =>
                 (Ok (),
                  mkState (fs s'0) (extractedFiles s'0)
                    (warnings s'0
                     ++ ["Failed to extract " +:+ entryName e +:+ ": " +:+ msg])
                    (totalSize s'0))
             end) = (o, s') →
            EntryStep root options e s o s') as Hwrite.
  { intros disk1 Hprep Hrun'.
    destruct (getData e) as [data | msg] eqn:Hdata.
    - destruct (Fs.writeFileSync out data disk1) as [disk2 | msg] eqn:Hw.
      + cbn [fs extractedFiles warnings totalSize] in Hrun'.
        pose proof (StepWritten root options e s disk1 data disk2
                      Hdir Hv Hmay Hprep Hdata Hw) as Hstep.
        cbn zeta in Hstep.
        destruct (maxExtractedSize <? totalSize s + byteLength data)%N;
          injection Hrun' as <- <-; exact Hstep.
      + injection Hrun' as <- <-.
        apply (StepFailed root options e s disk1 msg Hdir Hv Hmay Hprep).
        right. by exists data.
    - injection Hrun' as <- <-.
      apply (StepFailed root options e s disk1 msg Hdir Hv Hmay Hprep).
      by left. }
  destruct (Fs.existsSync (fs s) (Path.dirname out)) eqn:Hd; cbn [negb] in Hrun.
  - apply (Hwrite (fs s)); [by left |].
    destruct s as [disk ext warn total]. exact Hrun.
  - destruct (Fs.mkdirSync (Path.dirname out) (fs s)) as [disk1 | msg] eqn:Hmk.
    + apply (Hwrite disk1); [by right |]. exact Hrun.
    + injection Hrun as <- <-. by apply StepMkdirFails.
Qed.

(** A property of pairs of states that holds across every run of the loop
    body holds across the loop. *)
Lemma forOf_steps (R : State → State → Prop) body entries :
  (∀ s, R s s) → (∀ a b c, R a b → R b c → R a c) →
  (∀ e s o s', In e entries → body e s = (o, s') → R s s') →
  ∀ s o s', forOf body entries s = (o, s') → R s s'.
Proof.
  intros Hrefl Htrans. induction entries as [|e rest IH]; intros Hbody s o s' Hrun.
  - injection Hrun as <- <-. apply Hrefl.
  - cbn [forOf] in Hrun. unfold bind in Hrun.
    destruct (body e s) as [[[]|msg] s1] eqn:He.
    + eapply Htrans; [eapply Hbody; [by left | exact He] |].
      eapply IH; [| exact Hrun]. intros e' ? ? ? Hin. apply Hbody. by right.
    + injection Hrun as <- <-. eapply Hbody; [by left | exact He].
Qed.

(** The course of [performExtraction] on an archive that could be opened:
    the root cannot be created; or the archive is rejected; or the loop
    runs from the initial state and its end decides the result. *)
Lemma performExtraction_run cwd entries extractTo options disk res disk' :
  performExtraction cwd (Ok entries) extractTo options disk = (res, disk') →
  (∃ msg, Fs.existsSync disk (extractionRoot cwd extractTo) = false
          ∧ Fs.mkdirSync (extractionRoot cwd extractTo) disk = Throw msg
          ∧ res = Throw msg ∧ disk' = disk)
  ∨ ∃ disk0,
      prepared (extractionRoot cwd extractTo) disk disk0
      ∧ ((∃ why, validateZipContents entries = invalid why
                 ∧ res = Throw why ∧ disk' = disk0)
         ∨ (validateZipContents entries = valid
            ∧ ∃ o s',
                forOf (extractEntry (extractionRoot cwd extractTo) options)
                      entries (initialState disk0) = (o, s')
                ∧ disk' = fs s'
                ∧ res = match o with
                        | Ok _ =>
                            Ok (mkExtractResult true
                                  ("Successfully extracted "
                                   +:+ pretty (length (extractedFiles s')) +:+ " files")
                                  (extractedFiles s') (length entries) (totalSize s')
                                  (if (0 <? length (warnings s'))%nat
                                   then Some (warnings s') else None))
                        | Throw msg => Throw msg
                        end)).
Proof.
  intros Hrun.
  unfold performExtraction, performExtractionM, bind, existsSync, lift, mkdirSync,
    withFs, throw, ret, initialState in Hrun.
  cbn [fs] in Hrun.
  set (root := extractionRoot cwd extractTo) in *.
  set (body := extractEntry root options) in *.
  assert (∀ disk0, prepared root disk disk0 →
            (let '(res0, s0) :=
               let (o, s1) :=
                 (if negb (isValid (validateZipContents entries))
                  then λ s : State,
                      (@Throw unit (show (reason (validateZipContents entries))), s)
                  else λ s : State, (Ok tt, s)) (mkState disk0 [] [] 0) in
               match o with
               | Ok _ =>
                   let (o0, s2) := forOf body entries s1 in
                   match o0 with
                   | Ok _ =>
                       (Ok (mkExtractResult true
                              ("Successfully extracted "
                               +:+ pretty (length (extractedFiles s2)) +:+ " files")
                              (extractedFiles s2) (length entries) (totalSize s2)
                              (if (0 <? length (warnings s2))%nat
                               then Some (warnings s2) else None)),
                        s2)
                   | Throw msg => (Throw msg, s2)
                   end
               | Throw msg => (Throw msg, s1)
               end in
             (res0, fs s0)) = (res, disk') →
            ∃ disk1,
              prepared root disk disk1
              ∧ ((∃ why, validateZipContents entries = invalid why
                         ∧ res = Throw why ∧ disk' = disk1)
                 ∨ (validateZipContents entries = valid
                    ∧ ∃ o s',
                        forOf body entries (mkState disk1 [] [] 0) = (o, s')
                        ∧ disk' = fs s'
                        ∧ res = match o with
                                | Ok _ =>
                                    Ok (mkExtractResult true
                                          ("Successfully extracted "
                                           +:+ pretty (length (extractedFiles s'))
                                           +:+ " files")
                                          (extractedFiles s') (length entries)
                                          (totalSize s')
                                          (if (0 <? length (warnings s'))%nat
                                           then Some (warnings s') else None))
                                | Throw msg => Throw msg
                                end))) as Hrest.
  { intros disk0 Hprep Hrun'. exists disk0. split; [exact Hprep |].
    destruct (validateZipContents_cases entries) as [[why Hv] | Hv]; rewrite Hv in Hrun';
      cbn [isValid invalid valid negb reason show] in Hrun'.
    - injection Hrun' as <- <-. left. by exists why.
    - right. split; [done |].
      destruct (forOf body entries (mkState disk0 [] [] 0)) as [[[]|msg] s1] eqn:Hloop.
      + injection Hrun' as <- <-. by exists (Ok tt), s1.
      + injection Hrun' as <- <-. by exists (Throw msg), s1. }
  destruct (Fs.existsSync disk root) eqn:Hex;
    cbn [negb fs extractedFiles warnings totalSize] in Hrun.
  - right. apply (Hrest disk); [by left | exact Hrun].
  - destruct (Fs.mkdirSync root disk) as [disk0 | msg] eqn:Hmk.
    + right. apply (Hrest disk0); [by right | exact Hrun].
    + injection Hrun as <- <-. left. by exists msg.
Qed.

End LoopFacts.

(** ** Further properties of the extraction *)
Module ExtractionProperties.
Import Js AdmZip Vocabulary StringFacts PathFacts FsFacts MonadFacts.
Import SanitizerFacts ValidationFacts ExtractionFacts LoopFacts ZipHandler.

Lemma prepared_files dir disk disk1 :
  prepared dir disk disk1 →
  Fs.files disk1 = Fs.files disk ∧ Fs.dirs disk ⊆ Fs.dirs disk1.
Proof.
  intros [[_ ->] | [_ Hmk]]; [done |].
  apply mkdirSync_files in Hmk as [-> ->]. split; [done | set_solver].
Qed.

Lemma isFile_files disk disk1 p :
  Fs.files disk1 = Fs.files disk → Fs.isFile disk1 p = Fs.isFile disk p.
Proof. intros E. unfold Fs.isFile. by rewrite E. Qed.

Lemma isFile_written p data disk disk2 q :
  Fs.writeFileSync p data disk = Ok disk2 →
  Fs.isFile disk2 q = true ↔ q = p ∨ Fs.isFile disk q = true.
Proof.
  intros Hw. apply writeFileSync_files in Hw as [Hfiles _].
  unfold Fs.isFile. rewrite Hfiles, !bool_decide_eq_true.
  destruct (decide (p = q)) as [<- | Hne].
  - rewrite lookup_insert_eq. split; [by left | by eexists].
  - rewrite lookup_insert_ne by done. split; [by right |].
    intros [-> | H]; done.
Qed.

Lemma isDir_grows disk disk1 p :
  Fs.dirs disk ⊆ Fs.dirs disk1 → Fs.isDir disk p = true → Fs.isDir disk1 p = true.
Proof.
  intros Hsub. unfold Fs.isDir. rewrite !orb_true_iff, !bool_decide_eq_true.
  intros [H | H]; [by left | right; set_solver].
Qed.

(** What one step adds to the two lists and to the running total. *)
Lemma step_counts root options e s o s' :
  EntryStep root options e s o s' →
  let one := if isDirectory e then 0%nat else 1%nat in
  let bytes := if isDirectory e then 0%N
               else match getData e with Ok data => byteLength data | Throw _ => 0%N end in
  (length (extractedFiles s) ≤ length (extractedFiles s') ≤ length (extractedFiles s) + one)%nat
  ∧ (length (warnings s) ≤ length (warnings s') ≤ length (warnings s) + one)%nat
  ∧ (o = Ok tt →
     (length (extractedFiles s) + length (warnings s) + one
      ≤ length (extractedFiles s') + length (warnings s'))%nat)
  ∧ (totalSize s ≤ totalSize s' ≤ totalSize s + bytes)%N.
Proof.
  intros Hstep.
  destruct Hstep as [s Hdir | s why Hdir _ | s Hdir _ _ _ | s msg Hdir _ _ _ _
                    | s disk1 msg Hdir _ _ _ _ | s disk1 data disk2 Hdir _ _ _ Hdata _];
    rewrite Hdir; cbn zeta.
  - repeat split; try lia; done.
  - unfold warned. cbn [extractedFiles warnings totalSize].
    rewrite length_app. cbn [length]. repeat split; lia.
  - unfold warned. cbn [extractedFiles warnings totalSize].
    rewrite length_app. cbn [length]. repeat split; lia.
  - repeat split; try lia; done.
  - unfold warned, withDisk. cbn [extractedFiles warnings totalSize].
    rewrite length_app. cbn [length]. repeat split; lia.
  - rewrite Hdata.
    destruct (maxExtractedSize <? totalSize s + byteLength data)%N;
      unfold warned; cbn [extractedFiles warnings totalSize];
      rewrite ?length_app; cbn [length]; repeat split; lia.
Qed.

Lemma fileEntries_cons e rest :
  length (fileEntries (e :: rest))
  = ((if isDirectory e then 0 else 1) + length (fileEntries rest))%nat.
Proof. unfold fileEntries. cbn [List.filter]. by destruct (isDirectory e). Qed.

Lemma loop_counts root options entries : ∀ s o s',
  forOf (extractEntry root options) entries s = (o, s') →
  (length (extractedFiles s) ≤ length (extractedFiles s')
   ≤ length (extractedFiles s) + length (fileEntries entries))%nat
  ∧ (length (warnings s) ≤ length (warnings s')
     ≤ length (warnings s) + length (fileEntries entries))%nat
  ∧ (o = Ok tt →
     (length (extractedFiles s) + length (warnings s) + length (fileEntries entries)
      ≤ length (extractedFiles s') + length (warnings s'))%nat)
  ∧ (totalSize s ≤ totalSize s' ≤ totalSize s + actualTotal entries)%N.
Proof.
  induction entries as [|e rest IH]; intros s o s' Hrun.
  - injection Hrun as <- <-. cbn. repeat split; lia.
  - cbn [forOf] in Hrun. unfold bind in Hrun.
    destruct (extractEntry root options e s) as [[[]|msg] s1] eqn:He;
      apply extractEntry_effect, step_counts in He; cbn zeta in He;
      rewrite fileEntries_cons; cbn [actualTotal];
      destruct He as ((He1 & He2) & (Hw1 & Hw2) & Hboth & (Ht1 & Ht2)).
    + apply IH in Hrun as ((Ie1 & Ie2) & (Iw1 & Iw2) & Iboth & (It1 & It2)).
      repeat split; try lia.
      intros ->. specialize (Hboth eq_refl). specialize (Iboth eq_refl). lia.
    + injection Hrun as <- <-. repeat split; try lia. done.
Qed.

(** The warnings only ever grow at their end. *)
Lemma step_warnings_extend root options e s o s' :
  EntryStep root options e s o s' →
  ∃ extra, warnings s' = warnings s ++ extra.
Proof.
  intros Hstep.
  destruct Hstep as [s _ | s why _ _ | s _ _ _ _ | s msg _ _ _ _ _
                    | s disk1 msg _ _ _ _ _ | s disk1 data disk2 _ _ _ _ _ _].
  - exists []. by rewrite app_nil_r.
  - by eexists.
  - by eexists.
  - exists []. by rewrite app_nil_r.
  - by eexists.
  - cbn zeta. destruct (maxExtractedSize <? totalSize s + byteLength data)%N.
    + by eexists.
    + exists []. by rewrite app_nil_r.
Qed.

(** A step that ends normally and adds no warning either passed over a
    directory or wrote a validated entry within the budget. *)
Lemma step_without_warning root options e s s' :
  EntryStep root options e s (Ok tt) s' →
  warnings s' = warnings s →
  (isDirectory e = true ∧ s' = s)
  ∨ (isDirectory e = false
     ∧ ∃ data, getData e = Ok data
               ∧ extractedFiles s'
                 = extractedFiles s ++ [sanitizeFilePath (entryName e)]
               ∧ totalSize s' = (totalSize s + byteLength data)%N
               ∧ (totalSize s' ≤ maxExtractedSize)%N).
Proof.
  intros Hstep Hsame.
  assert (∀ w (l : list string), l ++ [w] ≠ l) as Hgrow.
  { intros w l E. apply (f_equal length) in E. rewrite length_app in E. cbn in E. lia. }
  inversion Hstep as [s0 Hdir | s0 why Hdir _ | s0 Hdir _ _ _ | | s0 disk1 msg Hdir _ _ _ _
                     | s0 disk1 data disk2 Hdir _ _ _ Hdata _]; subst.
  - by left.
  - by apply Hgrow in Hsame.
  - by apply Hgrow in Hsame.
  - by apply Hgrow in Hsame.
  - cbn zeta in *. right. split; [done |]. exists data. split; [done |].
    destruct (N.ltb_spec maxExtractedSize (totalSize s + byteLength data)) as [Hover | Hok].
    + by apply Hgrow in Hsame.
    + cbn [extractedFiles totalSize]. repeat split; done.
Qed.

Lemma loop_without_warning root options entries : ∀ s s',
  forOf (extractEntry root options) entries s = (Ok tt, s') →
  warnings s' = warnings s →
  (totalSize s ≤ maxExtractedSize)%N →
  extractedFiles s'
  = extractedFiles s
    ++ map (λ e, sanitizeFilePath (entryName e)) (fileEntries entries)
  ∧ totalSize s' = (totalSize s + actualTotal entries)%N
  ∧ (totalSize s' ≤ maxExtractedSize)%N
  ∧ Forall (λ e, ∃ data, getData e = Ok data) (fileEntries entries).
Proof.
  induction entries as [|e rest IH]; intros s s' Hrun Hsame Hfit.
  - injection Hrun as <-. cbn. rewrite app_nil_r, N.add_0_r. repeat split; done.
  - cbn [forOf] in Hrun. unfold bind in Hrun.
    destruct (extractEntry root options e s) as [[[]|msg] s1] eqn:He;
      [| done].
    apply extractEntry_effect in He.
    destruct (step_warnings_extend _ _ _ _ _ _ He) as [a Ha].
    pose proof (loop_counts root options rest s1 (Ok tt) s' Hrun)
      as (_ & (Hw & _) & _).
    assert (a = []) as ->.
    { apply (f_equal length) in Ha. rewrite length_app in Ha.
      rewrite Hsame in Hw. destruct a; [done | cbn in Ha; lia]. }
    rewrite app_nil_r in Ha.
    destruct (step_without_warning _ _ _ _ _ He Ha)
      as [[Hdir ->] | (Hdir & data & Hdata & Hext & Htot & Hle)].
    + destruct (IH s s' Hrun Hsame Hfit) as (H1 & H2 & H3 & H4).
      unfold fileEntries in *. cbn [List.filter actualTotal]. rewrite Hdir. cbn [negb].
      rewrite N.add_0_l. split; [done |]. split; [done |]. split; done.
    + destruct (IH s1 s' Hrun (eq_trans Hsame (eq_sym Ha)) Hle) as (H1 & H2 & H3 & H4).
      unfold fileEntries in *. cbn [List.filter actualTotal]. rewrite Hdir, Hdata.
      cbn [negb map]. rewrite H1, Hext, <- app_assoc. cbn [app].
      split; [done |]. split; [lia |]. split; [done |].
      constructor; [by exists data | done].
Qed.

Lemma keepsPaths_refl disk : keepsPaths disk disk.
Proof. by split. Qed.

Lemma keepsPaths_trans d1 d2 d3 :
  keepsPaths d1 d2 → keepsPaths d2 d3 → keepsPaths d1 d3.
Proof. intros [F1 D1] [F2 D2]. split; auto. Qed.

Lemma keepsContents_trans d1 d2 d3 :
  keepsContents d1 d2 → keepsContents d2 d3 → keepsContents d1 d3.
Proof. intros H1 H2 p data Hp. auto. Qed.

Lemma prepared_keepsPaths dir disk disk1 : prepared dir disk disk1 → keepsPaths disk disk1.
Proof.
  intros Hprep. apply prepared_files in Hprep as [Hfiles Hdirs]. split.
  - intros p. by rewrite (isFile_files _ _ _ Hfiles).
  - intros p. by apply isDir_grows.
Qed.

Lemma prepared_keepsContents dir disk disk1 :
  prepared dir disk disk1 → keepsContents disk disk1.
Proof.
  intros Hprep. apply prepared_files in Hprep as [Hfiles _].
  intros p data. by rewrite Hfiles.
Qed.

Lemma written_keepsPaths p data disk disk2 :
  Fs.writeFileSync p data disk = Ok disk2 → keepsPaths disk disk2.
Proof.
  intros Hw. split.
  - intros q Hq. apply (isFile_written _ _ _ _ q Hw). by right.
  - intros q. apply writeFileSync_files in Hw as [_ Hdirs].
    unfold Fs.isDir. by rewrite Hdirs.
Qed.

(** No step of the loop removes a file or a directory. *)
Lemma step_keepsPaths root options e s o s' :
  EntryStep root options e s o s' → keepsPaths (fs s) (fs s').
Proof.
  intros Hstep.
  destruct Hstep as [s _ | s why _ _ | s _ _ _ _ | s msg _ _ _ _ _
                    | s disk1 msg _ _ _ Hprep _ | s disk1 data disk2 _ _ _ Hprep _ Hw];
    try apply keepsPaths_refl.
  - by apply prepared_keepsPaths in Hprep.
  - cbn zeta.
    assert (keepsPaths (fs s) disk2) as Hkeep.
    { eapply keepsPaths_trans; [by eapply prepared_keepsPaths |].
      by eapply written_keepsPaths. }
    by destruct (maxExtractedSize <? totalSize s + byteLength data)%N.
Qed.

(** Without [overwrite], no step touches the content of an existing file. *)
Lemma step_keepsContents root options e s o s' :
  default false (overwrite options) = false →
  EntryStep root options e s o s' → keepsContents (fs s) (fs s').
Proof.
  intros Hov Hstep.
  destruct Hstep as [s _ | s why _ _ | s _ _ _ _ | s msg _ _ _ _ _
                    | s disk1 msg _ _ _ Hprep _ | s disk1 data disk2 _ _ Hmay Hprep _ Hw];
    try (by intros p data').
  - by apply prepared_keepsContents in Hprep.
  - cbn zeta.
    assert (keepsContents (fs s) disk2) as Hkeep.
    { destruct Hmay as [Hfresh | Hov']; [| congruence].
      apply prepared_files in Hprep as [Hfiles _].
      apply writeFileSync_files in Hw as [Hfiles2 _].
      intros p data' Hp. rewrite Hfiles2, Hfiles.
      rewrite lookup_insert_ne; [done |]. intros <-.
      unfold Fs.existsSync, Fs.isFile in Hfresh.
      apply orb_false_iff in Hfresh as [Hfresh _].
      apply bool_decide_eq_false in Hfresh. apply Hfresh. by eexists. }
    by destruct (maxExtractedSize <? totalSize s + byteLength data)%N.
Qed.

(** A step keeps the list of extracted files truthful. *)
Lemma step_keeps_reported entries root options e s o s' :
  In e entries →
  EntryStep root options e s o s' →
  reported entries root s → reported entries root s'.
Proof.
  intros Hin Hstep Hrep.
  destruct Hstep as [s _ | s why _ _ | s _ _ _ _ | s msg _ _ _ _ _
                    | s disk1 msg _ _ _ Hprep _
                    | s disk1 data disk2 Hdir Hvalid _ Hprep _ Hw];
    try exact Hrep.
  - intros p Hp. destruct (Hrep p Hp) as [Hfile Hentry]. split; [| exact Hentry].
    cbn [warned withDisk fs]. apply prepared_files in Hprep as [Hfiles _].
    by rewrite (isFile_files _ _ _ Hfiles).
  - cbn zeta.
    assert (reported entries root
              (mkState disk2
                 (extractedFiles s ++ [sanitizeFilePath (entryName e)])
                 (warnings s) (totalSize s + byteLength data))) as Hrep2.
    { intros p Hp. cbn [extractedFiles fs] in *.
      apply in_app_iff in Hp as [Hp | [<- | []]].
      - destruct (Hrep p Hp) as [Hfile Hentry]. split; [| exact Hentry].
        apply (isFile_written _ _ _ _ _ Hw). right.
        apply prepared_files in Hprep as [Hfiles _].
        by rewrite (isFile_files _ _ _ Hfiles).
      - split; [apply (isFile_written _ _ _ _ _ Hw); by left |].
        by exists e. }
    by destruct (maxExtractedSize <? totalSize s + byteLength data)%N.
Qed.

(** The disk after [performExtraction] is related to the disk before by
    every relation that holds across the preparation of a directory and
    across the steps of the loop. *)
Lemma performExtraction_disk (R : Fs.FS → Fs.FS → Prop)
      cwd zip extractTo options disk res disk' :
  (∀ d, R d d) → (∀ a b c, R a b → R b c → R a c) →
  (∀ dir d d1, prepared dir d d1 → R d d1) →
  (∀ e s o s',
     EntryStep (extractionRoot cwd extractTo) options e s o s' →
     R (fs s) (fs s')) →
  performExtraction cwd zip extractTo options disk = (res, disk') →
  R disk disk'.
Proof.
  intros Hrefl Htrans Hprep Hstep Hrun. destruct zip as [entries | msg].
  - apply performExtraction_run in Hrun
      as [(m & _ & _ & _ & ->)
         | (disk0 & Hp & [(why & _ & _ & ->) | (_ & o & s' & Hloop & -> & _)])];
      [apply Hrefl | by eapply Hprep |].
    eapply Htrans; [by eapply Hprep |].
    change disk0 with (fs (initialState disk0)).
    eapply (forOf_steps (λ a b, R (fs a) (fs b))); [| | | exact Hloop].
    + intros; apply Hrefl.
    + intros a b c; apply Htrans.
    + intros e s o0 s0 _ He. by eapply Hstep, extractEntry_effect.
  - unfold performExtraction, performExtractionM, bind, existsSync, lift, mkdirSync,
      withFs, ret, initialState in Hrun.
    cbn [fs extractedFiles warnings totalSize] in Hrun.
    destruct (Fs.existsSync disk (extractionRoot cwd extractTo)) eqn:Hex;
      cbn [negb fs extractedFiles warnings totalSize] in Hrun.
    + injection Hrun as <- <-. apply Hrefl.
    + destruct (Fs.mkdirSync (extractionRoot cwd extractTo) disk) as [d0|m] eqn:Hmk;
        injection Hrun as <- <-; [| apply Hrefl].
      eapply Hprep. by right.
Qed.

(** X1.  A completed extraction accounts for every file entry of the
    archive: the archive had passed validation, [totalFiles] is the number
    of archive members; the extracted files and the warnings are each at
    most as many as the entries that are not directories, together they
    are at least as many; and [totalSize] does not exceed the bytes those
    entries hold. *)
Theorem extraction_accounts_for_every_file_entry
  cwd entries extractTo options disk r disk' :
  performExtraction cwd (Ok entries) extractTo options disk = (Ok r, disk') →
  r_success r = true
  ∧ validateZipContents entries = valid
  ∧ r_totalFiles r = length entries
  ∧ (length (r_extractedFiles r) ≤ length (fileEntries entries) ≤ length entries)%nat
  ∧ (length (warningsOf r) ≤ length (fileEntries entries))%nat
  ∧ (length (fileEntries entries)
     ≤ length (r_extractedFiles r) + length (warningsOf r))%nat
  ∧ (r_totalSize r ≤ actualTotal entries)%N.
Proof.
  intros Hrun.
  apply performExtraction_run in Hrun
    as [(msg & _ & _ & [=] & _)
       | (disk0 & _ & [(why & _ & [=] & _) | (Hvalid & o & s' & Hloop & _ & Hres)])].
  destruct o as [[]|msg]; [| done]. injection Hres as ->.
  apply loop_counts in Hloop as ((_ & He) & (_ & Hw) & Hboth & (_ & Ht)).
  cbn [initialState extractedFiles warnings totalSize length] in *.
  specialize (Hboth eq_refl).
  assert (warningsOf
            (mkExtractResult true
               ("Successfully extracted " +:+ pretty (length (extractedFiles s'))
                +:+ " files")
               (extractedFiles s') (length entries) (totalSize s')
               (if (0 <? length (warnings s'))%nat then Some (warnings s') else None))
          = warnings s') as Hwarn.
  { unfold warningsOf. cbn [r_warnings]. by destruct (warnings s'). }
  rewrite Hwarn. cbn [r_success r_totalFiles r_extractedFiles r_totalSize].
  assert (length (fileEntries entries) ≤ length entries)%nat
    by apply List.filter_length_le.
  repeat split; try done; lia.
Qed.

Lemma validated_within_budget entries :
  validateZipContents entries = valid →
  (uncompressedTotal entries ≤ maxExtractedSize)%N.
Proof.
  unfold validateZipContents. rewrite sizeTotals_spec. cbn [fst snd].
  destruct (length entries =? 0)%nat; [done |].
  destruct (maxFiles <? length entries)%nat; [done |].
  destruct (gt _ 100); [done |].
  by destruct (N.ltb_spec maxExtractedSize (uncompressedTotal entries)).
Qed.

Lemma actualTotal_declared entries :
  yieldsAsDeclared entries → (actualTotal entries ≤ uncompressedTotal entries)%N.
Proof.
  induction 1 as [|e rest He _ IH]; [done |].
  cbn [actualTotal uncompressedTotal].
  destruct (isDirectory e); [lia |].
  destruct (getData e) as [data|msg]; [specialize (He data eq_refl) |]; lia.
Qed.

(** When no entry yields more bytes than its header declares, an
    extraction that returns a result has kept within the budget: the
    total it reports, which is the running total after the last write and
    never decreases, is at most [maxExtractedSize], so the check of the
    loop has never fired. *)
Lemma budget_holds_when_entries_yield_as_declared
  cwd entries extractTo options disk r disk' :
  yieldsAsDeclared entries →
  performExtraction cwd (Ok entries) extractTo options disk = (Ok r, disk') →
  (r_totalSize r ≤ maxExtractedSize)%N.
Proof.
  intros Hyield Hrun.
  apply performExtraction_run in Hrun
    as [(msg & _ & _ & [=] & _)
       | (disk0 & _ & [(why & _ & [=] & _) | (Hvalid & o & s' & Hloop & _ & Hres)])].
  destruct o as [[]|msg]; [| done]. injection Hres as ->.
  apply loop_counts in Hloop as (_ & _ & _ & (_ & Ht)).
  cbn [initialState totalSize r_totalSize] in *.
  pose proof (actualTotal_declared entries Hyield) as Hactual.
  apply validated_within_budget in Hvalid. lia.
Qed.

Lemma extraction_accounts_witness :
  let entries := [fileEntry "notes.md" 50 40 50; dirEntry "docs/";
                  fileEntry "../../etc/passwd" 10 10 10] in
  let run := performExtraction "/srv/app" (Ok entries)
               "extracted" noOptions emptyDisk in
  ∃ r, run = (Ok r, snd run)
       ∧ length (r_extractedFiles r) = 1%nat
       ∧ (length (fileEntries entries)
          ≤ length (r_extractedFiles r) + length (warningsOf r))%nat.
Proof.
  intros entries run.
  set (r0 := match fst run with
             | Ok r => r
             | Throw _ => mkExtractResult false "" [] 0 0 None
             end).
  assert (run = (Ok r0, snd run)) as Hrun by (vm_compute; reflexivity).
  assert (length (r_extractedFiles r0) = 1%nat) as Hone by (vm_compute; reflexivity).
  pose proof (extraction_accounts_for_every_file_entry "/srv/app"
                entries "extracted" noOptions emptyDisk r0 (snd run) Hrun) as Hacc.
  clearbody r0. exists r0.
  destruct Hacc as (_ & _ & _ & _ & _ & Hall & _).
  split; [exact Hrun |]. split; [exact Hone | exact Hall].
Defined.

(** X2.  An extraction that completes without a warning has written every
    file entry of the archive: [extractedFiles] lists their sanitized names
    in archive order, every entry yielded its data, and [totalSize] is the
    sum of the bytes written, which is within the 100 MiB budget. *)
Theorem extraction_without_warnings_extracts_every_file
  cwd entries extractTo options disk r disk' :
  performExtraction cwd (Ok entries) extractTo options disk = (Ok r, disk') →
  r_warnings r = None →
  r_extractedFiles r
  = map (λ e, sanitizeFilePath (entryName e)) (fileEntries entries)
  ∧ r_totalSize r = actualTotal entries
  ∧ (r_totalSize r ≤ maxExtractedSize)%N
  ∧ Forall (λ e, ∃ data, getData e = Ok data) (fileEntries entries).
Proof.
  intros Hrun Hnone.
  apply performExtraction_run in Hrun
    as [(msg & _ & _ & [=] & _)
       | (disk0 & _ & [(why & _ & [=] & _) | (Hvalid & o & s' & Hloop & _ & Hres)])].
  destruct o as [[]|msg]; [| done]. injection Hres as ->.
  cbn [r_warnings r_extractedFiles r_totalSize] in *.
  assert (warnings s' = []) as Hclean.
  { destruct (warnings s'); [done | discriminate Hnone]. }
  apply loop_without_warning in Hloop; [| by rewrite Hclean | done].
  cbn [initialState extractedFiles totalSize app] in Hloop.
  by rewrite N.add_0_l in Hloop.
Qed.

Lemma extraction_without_warnings_witness :
  let entries := [fileEntry "notes.md" 50 40 50; dirEntry "docs/";
                  fileEntry "docs/a.txt" 7 7 7] in
  let run := performExtraction "/srv/app" (Ok entries)
               "extracted" noOptions emptyDisk in
  ∃ r, run = (Ok r, snd run)
       ∧ r_warnings r = None
       ∧ r_extractedFiles r = ["notes.md"; "docs/a.txt"]
       ∧ r_totalSize r = 57%N.
Proof.
  intros entries run.
  set (r0 := match fst run with
             | Ok r => r
             | Throw _ => mkExtractResult false "" [] 0 0 None
             end).
  assert (run = (Ok r0, snd run)) as Hrun by (vm_compute; reflexivity).
  assert (r_warnings r0 = None) as Hnone by (vm_compute; reflexivity).
  pose proof (extraction_without_warnings_extracts_every_file
                "/srv/app" entries "extracted" noOptions emptyDisk r0 (snd run)
                Hrun Hnone) as Hall.
  clearbody r0. exists r0.
  destruct Hall as (Hfiles & Hsize & _).
  split; [exact Hrun |]. split; [exact Hnone |].
  split; [rewrite Hfiles | rewrite Hsize]; vm_compute; reflexivity.
Defined.

Lemma performExtraction_reported
  cwd entries extractTo options disk r disk' :
  performExtraction cwd (Ok entries) extractTo options disk = (Ok r, disk') →
  ∀ p, In p (r_extractedFiles r) →
       Fs.isFile disk' (Path.join2 (extractionRoot cwd extractTo) p) = true
       ∧ ∃ e, In e entries ∧ isDirectory e = false ∧ validateZipEntry e = valid
              ∧ p = sanitizeFilePath (entryName e).
Proof.
  intros Hrun p Hp.
  apply performExtraction_run in Hrun
    as [(msg & _ & _ & [=] & _)
       | (disk0 & _ & [(why & _ & [=] & _) | (Hvalid & o & s' & Hloop & -> & Hres)])].
  destruct o as [[]|msg]; [| done]. injection Hres as ->.
  cbn [r_extractedFiles] in Hp.
  assert (reported entries (extractionRoot cwd extractTo) s') as Hrep.
  { eapply (forOf_steps
              (λ a b, reported entries (extractionRoot cwd extractTo) a →
                      reported entries (extractionRoot cwd extractTo) b));
      [| | | exact Hloop |].
    - auto.
    - auto.
    - intros e s o s1 Hin He. eapply step_keeps_reported; [exact Hin |].
      by apply extractEntry_effect.
    - by intros q []. }
  exact (Hrep p Hp).
Qed.

(** X3.  After a completed extraction every path listed in
    [extractedFiles] is a regular file at that path below the extraction
    root, and it is the sanitized name of an entry of the archive that is
    not a directory and passed the entry validation. *)
Theorem extracted_files_are_on_disk
  cwd entries extractTo options disk r disk' :
  performExtraction cwd (Ok entries) extractTo options disk = (Ok r, disk') →
  ∀ p, In p (r_extractedFiles r) →
       Fs.isFile disk' (Path.join2 (extractionRoot cwd extractTo) p) = true
       ∧ Under (extractionRoot cwd extractTo)
               (Path.join2 (extractionRoot cwd extractTo) p)
       ∧ ∃ e, In e entries ∧ isDirectory e = false ∧ validateZipEntry e = valid
              ∧ p = sanitizeFilePath (entryName e).
Proof.
  intros Hrun p Hp.
  destruct (performExtraction_reported _ _ _ _ _ _ _ Hrun p Hp)
    as [Hfile (e & Hin & Hdir & Hv & ->)].
  split; [exact Hfile |]. split; [| by exists e].
  destruct (extractionRoot_render cwd extractTo) as (root & Hroot & ->).
  by apply outputPath_under.
Qed.

Lemma extracted_files_witness :
  let entries := [fileEntry "notes.md" 50 40 50; fileEntry "docs/a.txt" 7 7 7] in
  let run := performExtraction "/srv/app" (Ok entries)
               "extracted" noOptions emptyDisk in
  Fs.isFile (snd run) "/srv/app/data/extracted/docs/a.txt" = true.
Proof.
  intros entries run.
  set (r0 := match fst run with
             | Ok r => r
             | Throw _ => mkExtractResult false "" [] 0 0 None
             end).
  assert (run = (Ok r0, snd run)) as Hrun by (vm_compute; reflexivity).
  assert (In "docs/a.txt" (r_extractedFiles r0)) as Hin by (vm_compute; tauto).
  assert (Path.join2 (extractionRoot "/srv/app" "extracted") "docs/a.txt"
          = "/srv/app/data/extracted/docs/a.txt") as Hpath by (vm_compute; reflexivity).
  pose proof (extracted_files_are_on_disk "/srv/app" entries
                "extracted" noOptions emptyDisk r0 (snd run) Hrun "docs/a.txt" Hin)
    as [Hfile _].
  clearbody r0. rewrite <- Hpath. exact Hfile.
Defined.

Lemma extractZip_disk (R : Fs.FS → Fs.FS → Prop)
      cwd file_path upload extract_to options disk r disk' :
  (∀ d, R d d) → (∀ a b c, R a b → R b c → R a c) →
  (∀ dir d d1, prepared dir d d1 → R d d1) →
  (∀ e s o s',
     EntryStep (extractionRoot cwd (default "extracted" extract_to))
               options e s o s' →
     R (fs s) (fs s')) →
  extractZip cwd file_path upload extract_to options disk = (r, disk') →
  R disk disk'.
Proof.
  intros Hrefl Htrans Hprep Hstep. unfold extractZip. destruct upload as [up|].
  - destruct (negb (isValid (SecurityValidator.validateFile file_path (Some up)))).
    + intros [= <- <-]. apply Hrefl.
    + destruct (performExtraction _ _ _ _ _) as [[res|msg] d] eqn:E;
        intros [= <- <-]; by eapply performExtraction_disk.
  - intros [= <- <-]. apply Hrefl.
Qed.

(** X4.  [extractZip] never removes anything: every regular file and every
    directory that existed before the call exists after it, whatever the
    upload, the options and the outcome. *)
Theorem extractZip_never_deletes
  cwd file_path upload extract_to options disk r disk' :
  extractZip cwd file_path upload extract_to options disk = (r, disk') →
  (∀ p, Fs.isFile disk p = true → Fs.isFile disk' p = true)
  ∧ (∀ p, Fs.isDir disk p = true → Fs.isDir disk' p = true).
Proof.
  apply (extractZip_disk keepsPaths).
  - apply keepsPaths_refl.
  - apply keepsPaths_trans.
  - apply prepared_keepsPaths.
  - intros e s o s'. apply step_keepsPaths.
Qed.

Lemma extractZip_never_deletes_witness :
  let run := extractZip "/srv/app" "uploads/second.zip"
               (Some (zipUpload [fileEntry "other.txt" 3 3 3])) None noOptions
               diskWithNotes in
  Fs.isFile diskWithNotes "/srv/app/data/extracted/notes.md" = true
  ∧ Fs.isFile (snd run) "/srv/app/data/extracted/notes.md" = true.
Proof.
  intros run.
  assert (Fs.isFile diskWithNotes "/srv/app/data/extracted/notes.md" = true)
    as Hbefore by (vm_compute; reflexivity).
  split; [exact Hbefore |].
  exact (proj1 (extractZip_never_deletes _ _ _ _ _ _ (fst run) (snd run)
                  (surjective_pairing run)) _ Hbefore).
Defined.

(** X5.  Unless [options.overwrite] is true, [extractZip] leaves the
    content of every file that existed before the call as it was. *)
Theorem extractZip_overwrites_only_on_request
  cwd file_path upload extract_to options disk r disk' :
  default false (overwrite options) = false →
  extractZip cwd file_path upload extract_to options disk = (r, disk') →
  ∀ p data, Fs.files disk !! p = Some data → Fs.files disk' !! p = Some data.
Proof.
  intros Hov. apply (extractZip_disk keepsContents).
  - by intros d p data.
  - apply keepsContents_trans.
  - apply prepared_keepsContents.
  - intros e s o s'. by apply step_keepsContents.
Qed.

Lemma extractZip_overwrites_only_on_request_witness :
  let run := extractZip "/srv/app" "uploads/second.zip"
               (Some (zipUpload [fileEntry "notes.md" 99 99 99])) None noOptions
               diskWithNotes in
  Fs.files (snd run) !! "/srv/app/data/extracted/notes.md" = Some (mkBuffer 50).
Proof.
  intros run.
  assert (Fs.files diskWithNotes !! "/srv/app/data/extracted/notes.md"
          = Some (mkBuffer 50)) as Hbefore by (vm_compute; reflexivity).
  exact (extractZip_overwrites_only_on_request "/srv/app"
           "uploads/second.zip" (Some (zipUpload [fileEntry "notes.md" 99 99 99]))
           None noOptions diskWithNotes (fst run) (snd run)
           eq_refl (surjective_pairing run) _ _ Hbefore).
Defined.

End ExtractionProperties.

(** ** The context store: round trips, frames and restarts *)
Module ContextProperties.
Import Js Vocabulary StringFacts ContextManager ContextFacts.

Lemma mapGet_not_key k m : ¬ In k (map fst m) → mapGet k m = None.
Proof.
  intros Hno. apply mapGet_None. intros c Hin. apply Hno.
  apply in_map_iff. by exists (k, c).
Qed.

Lemma mapGet_key k m : mapGet k m = None → ¬ In k (map fst m).
Proof.
  induction m as [|[k0 v0] rest IH]; cbn [mapGet map fst]; [by intros _ [] |].
  destruct (String.eqb_spec k k0) as [->|Hne]; [done |].
  intros Hnone [E | Hin]; [by subst | by apply IH].
Qed.

Lemma mapSet_fresh k v m : mapGet k m = None → mapSet k v m = m ++ [(k, v)].
Proof.
  induction m as [|[k0 v0] rest IH]; cbn [mapGet mapSet app]; [done |].
  destruct (String.eqb k k0); [done |]. intros H. by rewrite IH.
Qed.

Lemma mapSet_keys k v m c :
  mapGet k m = Some c → map fst (mapSet k v m) = map fst m.
Proof.
  induction m as [|[k0 v0] rest IH]; cbn [mapGet mapSet map fst]; [done |].
  destruct (String.eqb_spec k k0) as [->|Hne]; [done |].
  intros H. cbn [map fst]. by rewrite IH.
Qed.

Lemma keyedById_mapSet v m : keyedById m → keyedById (mapSet (id v) v m).
Proof.
  intros [Hkeys Hnodup].
  destruct (mapGet (id v) m) as [c|] eqn:E.
  - split; [| by rewrite (mapSet_keys _ _ _ _ E)].
    clear Hnodup E. induction m as [|[k0 v0] rest IH]; cbn [mapSet].
    + by repeat constructor.
    + inversion Hkeys as [|? ? Hhd Htl]; subst.
      destruct (String.eqb (id v) k0); constructor; auto.
  - rewrite (mapSet_fresh _ _ _ E). split.
    + apply Forall_app. split; [done | by repeat constructor].
    + rewrite map_app. cbn [map fst].
      apply NoDup_app. split; [done |]. split; [| apply NoDup_singleton].
      intros k Hin Hk. apply list_elem_of_singleton in Hk as ->.
      apply (mapGet_key _ _ E). by apply list_elem_of_In.
Qed.

Lemma keyedById_loaded contextsArray : ∀ m,
  keyedById m → keyedById (fold_left (λ m c, mapSet (id c) c m) contextsArray m).
Proof.
  induction contextsArray as [|c rest IH]; intros m Hm; cbn [fold_left]; [done |].
  by apply IH, keyedById_mapSet.
Qed.

Lemma keyedById_nil : keyedById [].
Proof. split; constructor. Qed.

Lemma keyedById_step c st : keyedById (contexts st) → keyedById (contexts (fst (step c st))).
Proof.
  intros Hst. destruct c as [uuid now1 now2 io name type size fileCount|now io args|];
    cbn [step fst].
  - unfold createContext. cbn [fst snd logTo contexts id].
    rewrite saveContexts_contexts. cbn [contexts].
    apply (keyedById_mapSet (mkContextItem uuid name type pending now1 now2 size
                                           fileCount None)), Hst.
  - unfold markApproved, markApprovedTry.
    destruct (mapGet (context_id args) (contexts st)) as [c|] eqn:E; [| done].
    cbn [snd logTo contexts]. rewrite saveContexts_contexts. cbn [contexts].
    apply mapGet_Some_In in E as Hin.
    destruct Hst as [Hkeys Hnodup].
    pose proof (proj1 (List.Forall_forall _ _) Hkeys _ Hin) as Hid. cbn [fst snd] in Hid.
    rewrite Hid at 1.
    match goal with
    | |- keyedById (mapSet _ ?v _) => apply (keyedById_mapSet v)
    end. by split.
  - unfold restart, loadContexts. cbn [contextsFile].
    destruct (contextsFile st) as [[arr|parseError]|]; cbn [logTo contexts];
      [apply keyedById_loaded | |]; apply keyedById_nil.
Qed.

Lemma keyedById_run calls : ∀ st st' ids,
  keyedById (contexts st) → run calls st = (st', ids) → keyedById (contexts st').
Proof.
  induction calls as [|c rest IH]; intros st st' ids Hst Hrun.
  - by injection Hrun as <- <-.
  - cbn [run] in Hrun.
    pose proof (keyedById_step c st Hst) as Hstep.
    destruct (step c st) as [st1 r]. destruct (run rest st1) as [st2 ids2] eqn:Hrest.
    injection Hrun as <- <-. by eapply IH.
Qed.

Lemma loaded_values m2 : ∀ m1,
  keyedById (m1 ++ m2) →
  fold_left (λ m c, mapSet (id c) c m) (mapValues m2) m1 = m1 ++ m2.
Proof.
  induction m2 as [|[k v] rest IH]; intros m1 Hkeyed; cbn [mapValues map fold_left snd].
  - by rewrite app_nil_r.
  - fold (mapValues rest).
    destruct Hkeyed as [Hkeys Hnodup].
    assert (k = id v) as ->.
    { apply Forall_app in Hkeys as [_ Hkeys]. by inversion Hkeys. }
    rewrite mapSet_fresh.
    + rewrite IH; rewrite <- app_assoc; [done | by split].
    + apply mapGet_not_key. rewrite map_app in Hnodup. cbn [map fst] in Hnodup.
      apply NoDup_app in Hnodup as (_ & Hdisj & _).
      intros Hin. apply (Hdisj (id v)); [by apply list_elem_of_In | by left].
Qed.

Lemma restart_inSync st :
  keyedById (contexts st) → inSync st → contexts (restart st) = contexts st.
Proof.
  intros Hkeyed Hsync. unfold restart, loadContexts. cbn [contextsFile].
  rewrite Hsync. cbn [contexts]. by apply (loaded_values (contexts st) []).
Qed.


Lemma saveContexts_inSync st : inSync (saveContexts Written st).
Proof. reflexivity. Qed.

Lemma createContext_stores uuid now1 now2 io name type size fileCount st :
  fst (createContext uuid now1 now2 io name type size fileCount st) = uuid
  ∧ contexts (snd (createContext uuid now1 now2 io name type size fileCount st))
    = mapSet uuid (mkContextItem uuid name type pending now1 now2 size fileCount None)
             (contexts st).
Proof.
  unfold createContext. cbn [fst snd id logTo contexts].
  by rewrite saveContexts_contexts.
Qed.

(** X7.  A context that [createContext] has just stored can be read back
    under the returned id with the fields it was given, status pending and
    no metadata, whether or not the write to disk succeeded; the records
    under all other ids are as before, and an id that was not in the
    store goes to the end of the collection. *)
Theorem created_context_is_read_back
  uuid now1 now2 io name type size fileCount st :
  let done := createContext uuid now1 now2 io name type size fileCount st in
  let item := mkContextItem uuid name type pending now1 now2 size fileCount None in
  fst done = uuid
  ∧ getContext (fst done) (snd done) = Some item
  ∧ (∀ other, other ≠ uuid → getContext other (snd done) = getContext other st)
  ∧ (getContext uuid st = None → contexts (snd done) = contexts st ++ [(uuid, item)]).
Proof.
  intros done item. unfold done, getContext.
  destruct (createContext_stores uuid now1 now2 io name type size fileCount st)
    as [-> ->].
  split; [done |]. split; [apply mapGet_same |]. split.
  - intros other Hne. rewrite mapGet_mapSet.
    apply eqb_false_iff in Hne. by rewrite Hne.
  - apply mapSet_fresh.
Qed.

(** X8.  [markApproved] touches one record only: the ids in the
    collection and their order are as before, and so is the record under
    every id other than the one named in the call. *)
Theorem markApproved_changes_one_record now io args st :
  let done := markApproved now io args st in
  map fst (contexts (snd done)) = map fst (contexts st)
  ∧ length (contexts (snd done)) = length (contexts st)
  ∧ ∀ other, other ≠ context_id args →
             getContext other (snd done) = getContext other st.
Proof.
  intros done. unfold done, markApproved, markApprovedTry, getContext.
  destruct (mapGet (context_id args) (contexts st)) as [c|] eqn:E; [| done].
  cbn [snd logTo contexts]. rewrite saveContexts_contexts. cbn [contexts].
  assert (map fst (mapSet (context_id args)
                     (mkContextItem (id c) (name c) (type c)
                        (decision (approved_flag args)) (created c) now (size c)
                        (fileCount c)
                        (if truthy (approval_reason args)
                         then Some (<["approvalReason" := default "" (approval_reason args)]>
                                      (default ∅ (metadata c)))
                         else metadata c))
                     (contexts st))
          = map fst (contexts st)) as Hkeys by (by eapply mapSet_keys).
  split; [exact Hkeys |]. split.
  - by rewrite <- (length_map fst), Hkeys, length_map.
  - intros other Hne. rewrite mapGet_mapSet.
    apply eqb_false_iff in Hne. by rewrite Hne.
Qed.

(** X9.  After any history of calls on a manager that started empty, a
    change whose write to disk succeeded survives a restart: the manager
    constructed over the file holds the same records in the same order as
    the one that made the change. *)
Theorem written_change_survives_restart calls st ids :
  run calls emptyStore = (st, ids) →
  (∀ uuid now1 now2 name type size fileCount,
     let st' := snd (createContext uuid now1 now2 Written name type size fileCount st) in
     contexts (restart st') = contexts st')
  ∧ (∀ now args,
       let done := markApproved now Written args st in
       success (fst done) = true → contexts (restart (snd done)) = contexts (snd done)).
Proof.
  intros Hrun.
  pose proof (keyedById_run calls emptyStore st ids keyedById_nil Hrun) as Hkeyed.
  split.
  - intros uuid now1 now2 name type size fileCount st'.
    apply restart_inSync.
    + apply (keyedById_step (CallCreate uuid now1 now2 Written name type size fileCount)
                            st Hkeyed).
    + reflexivity.
  - intros now args done Hok.
    apply restart_inSync.
    + apply (keyedById_step (CallApprove now Written args) st Hkeyed).
    + unfold done, markApproved, markApprovedTry in *.
      destruct (mapGet (context_id args) (contexts st)); [reflexivity | discriminate Hok].
Qed.

Lemma written_change_witness :
  let calls := [CallCreate "id-1" "2024-01-01T00:00:00.000Z" "2024-01-01T00:00:00.001Z"
                  (NotOpened "EACCES: permission denied") "first.zip" zip 2048
                  (Some 3%N);
                CallCreate "id-2" "2024-01-02T00:00:00.000Z" "2024-01-02T00:00:00.001Z"
                  Written "second.zip" zip 512 (Some 1%N)] in
  let st := fst (run calls emptyStore) in
  let done := markApproved "2024-02-01T00:00:00.000Z" Written
                (mkApprovalArgs "id-1" true None) st in
  map fst (contexts (restart (snd done))) = ["id-1"; "id-2"]
  ∧ contexts (restart (snd done)) = contexts (snd done).
Proof.
  intros calls st done. split; [vm_compute; reflexivity |].
  apply (proj2 (written_change_survives_restart calls st ["id-1"; "id-2"] eq_refl)
           "2024-02-01T00:00:00.000Z" (mkApprovalArgs "id-1" true None)).
  reflexivity.
Defined.



End ContextProperties.

(** ** The archive checks and the ways an extraction ends *)
Module ArchiveProperties.
Import Js AdmZip Vocabulary StringFacts PathFacts ValidationFacts FsFacts ExtractionFacts.
Import ZipHandler LoopFacts ExtractionProperties.

Lemma forOf_throws body entries : ∀ s msg s',
  forOf body entries s = (Throw msg, s') →
  ∃ e s1, In e entries ∧ body e s1 = (Throw msg, s').
Proof.
  induction entries as [|e rest IH]; intros s msg s' Hrun; [discriminate Hrun |].
  cbn [forOf] in Hrun. unfold bind in Hrun.
  destruct (body e s) as [[[]|msg1] s1] eqn:He.
  - destruct (IH _ _ _ Hrun) as (e' & s2 & Hin & He'). exists e', s2. split; [by right | done].
  - injection Hrun as <- <-. exists e, s. split; [by left | done].
Qed.

(** X11.  [validateZipContents] accepts an archive exactly when it has
    between 1 and 1000 entries, the declared sizes of its file entries sum
    to at most 100 times the sum of their compressed sizes, and to at
    most 104857600 bytes; each bound is itself accepted. *)
Theorem archive_accepted_iff_within_bounds entries :
  validateZipContents entries = valid
  ↔ entries ≠ []
    ∧ (length entries ≤ 1000)%nat
    ∧ (uncompressedTotal entries ≤ 100 * compressedTotal entries)%N
    ∧ (uncompressedTotal entries ≤ 104857600)%N.
Proof.
  unfold validateZipContents. rewrite sizeTotals_spec. cbn [fst snd].
  destruct entries as [|e rest]; [cbn; split; [done | by intros [[] _]] |].
  change (length (e :: rest) =? 0)%nat with false. cbn match.
  destruct (Nat.ltb_spec maxFiles (length (e :: rest))) as [Hmany | Hfew];
    [split; [done | unfold maxFiles in Hmany; lia] |].
  destruct (gt (div (uncompressedTotal (e :: rest)) (compressedTotal (e :: rest))) 100)
    eqn:Hratio.
  - apply gt_div_spec in Hratio. split; [done | lia].
  - assert (¬ (100 * compressedTotal (e :: rest) < uncompressedTotal (e :: rest))%N)
      as Hle by (rewrite <- gt_div_spec; congruence).
    destruct (N.ltb_spec maxExtractedSize (uncompressedTotal (e :: rest))) as [Hbig | Hok].
    + split; [done | unfold maxExtractedSize in Hbig; lia].
    + split; [| done]. intros _. unfold maxFiles in Hfew. unfold maxExtractedSize in Hok.
      repeat split; [done | lia | lia | lia].
Qed.

(** X12.  Once the archive has been opened, an extraction ends in an
    error in three ways only: the extraction root could not be created,
    the archive as a whole was rejected, or the directory for an accepted
    file entry could not be created.  No other failure of an entry ends
    the extraction. *)
Theorem extraction_ends_in_error_three_ways
  cwd entries extractTo options disk msg disk' :
  performExtraction cwd (Ok entries) extractTo options disk
  = (Throw msg, disk') →
  (Fs.mkdirSync (extractionRoot cwd extractTo) disk = Throw msg ∧ disk' = disk)
  ∨ validateZipContents entries = invalid msg
  ∨ ∃ e d, In e entries ∧ isDirectory e = false ∧ validateZipEntry e = valid
           ∧ Fs.mkdirSync
               (Path.dirname
                  (Path.join2 (extractionRoot cwd extractTo)
                     (sanitizeFilePath (entryName e)))) d
             = Throw msg.
Proof.
  intros Hrun.
  apply performExtraction_run in Hrun
    as [(msg' & _ & Hmk & [= ->] & ->)
       | (disk0 & _ & [(why & Hwhy & [= ->] & _) | (Hvalid & o & s' & Hloop & _ & Hres)])].
  - by left.
  - right. by left.
  - right. right. destruct o as [[]|msg']; [discriminate Hres |].
    injection Hres as ->.
    apply forOf_throws in Hloop as (e & s1 & Hin & He).
    apply extractEntry_effect in He.
    inversion He; subst. exists e, (fs s'). by repeat split.
Qed.

Lemma extraction_ends_in_error_witness :
  let entries := [fileEntry "data.txt" 5 5 5; fileEntry "data.txt/sub/x.md" 3 3 3] in
  let run := performExtraction "/srv/app" (Ok entries)
               "extracted" noOptions emptyDisk in
  let msg := "ENOTDIR: not a directory, mkdir '/srv/app/data/extracted/data.txt/sub'" in
  run = (Throw msg, snd run)
  ∧ Fs.isFile (snd run) "/srv/app/data/extracted/data.txt" = true
  ∧ ((Fs.mkdirSync (extractionRoot "/srv/app" "extracted") emptyDisk = Throw msg
      ∧ snd run = emptyDisk)
     ∨ validateZipContents entries = invalid msg
     ∨ ∃ e d, In e entries ∧ isDirectory e = false ∧ validateZipEntry e = valid
              ∧ Fs.mkdirSync
                  (Path.dirname
                     (Path.join2 (extractionRoot "/srv/app" "extracted")
                        (sanitizeFilePath (entryName e)))) d
                = Throw msg).
Proof.
  intros entries run msg.
  assert (run = (Throw msg, snd run)) as Hrun by (vm_compute; reflexivity).
  split; [exact Hrun |]. split; [vm_compute; reflexivity |].
  exact (extraction_ends_in_error_three_ways "/srv/app" entries
           "extracted" noOptions emptyDisk msg (snd run) Hrun).
Defined.

Lemma resolve_absolute cwd p :
  beginsWith "/" p → extractionRoot cwd p = render (segments p).
Proof.
  intros Habs. unfold extractionRoot. rewrite resolve_render. cbn [fold_left].
  f_equal. f_equal. unfold Path.resolveStep.
  assert (startsWith "/" p = true) as Hstart by (by apply prefix_spec).
  destruct p as [|c p]; [discriminate Hstart |].
  change (String.eqb (String c p) "") with false. cbn match. by rewrite Hstart.
Qed.

(** X13.  An [extract_to] that begins with a slash is not placed below
    the data directory: the extraction root is that path, normalised,
    whatever the working directory, and the files [extractZip] creates or
    changes all lie below it. *)
Theorem absolute_extract_to_replaces_data_directory
  cwd file_path upload p options disk r disk' :
  beginsWith "/" p →
  extractZip cwd file_path upload (Some p) options disk = (r, disk') →
  extractionRoot cwd p = render (segments p)
  ∧ writesConfined (render (segments p)) disk disk'.
Proof.
  intros Habs Hrun. split; [by apply resolve_absolute |].
  rewrite <- (resolve_absolute cwd p Habs).
  apply (extractZip_confined _ _ _ _ _ _ _ _ Hrun).
Qed.

Lemma absolute_extract_to_witness :
  let run := extractZip "/srv/app" "uploads/jobs.zip"
               (Some (zipUpload [fileEntry "job.txt" 9 9 9])) (Some "/etc//cron.d/")
               noOptions emptyDisk in
  extractionRoot "/srv/app" "/etc//cron.d/" = "/etc/cron.d"
  ∧ Fs.isFile (snd run) "/etc/cron.d/job.txt" = true
  ∧ writesConfined "/etc/cron.d" emptyDisk (snd run).
Proof.
  intros run.
  assert (render (segments "/etc//cron.d/") = "/etc/cron.d") as Hroot
    by (vm_compute; reflexivity).
  destruct (absolute_extract_to_replaces_data_directory "/srv/app"
              "uploads/jobs.zip" (Some (zipUpload [fileEntry "job.txt" 9 9 9]))
              "/etc//cron.d/" noOptions emptyDisk (fst run) (snd run)
              (ex_intro _ "etc//cron.d/" eq_refl) (surjective_pairing run))
    as [Hres Hconf].
  rewrite Hroot in Hres, Hconf.
  split; [exact Hres |]. split; [vm_compute; reflexivity | exact Hconf].
Defined.

(** X14.  The entry check of [SecurityValidator] and the one of
    [ZipHandler] agree on traversal and on the 10 MiB bound: an entry the
    former accepts is refused by the latter for its extension at most, and
    an entry the latter accepts is refused by the former for a dangerous
    pattern at most.  That refusal is never due to a parent reference or a
    leading slash, which the traversal check has answered before. *)
Theorem entry_validators_compared (e : ZipEntry) :
  let strict := SecurityValidator.validateZipEntry (entryName e) (size (header e)) in
  (strict = valid →
   validateZipEntry e = valid
   ∨ validateZipEntry e
     = invalid ("File type not allowed: " +:+ toLowerCase (Path.extname (entryName e))))
  ∧ (validateZipEntry e = valid →
     strict = valid ∨ strict = invalid "Entry name contains dangerous patterns")
  ∧ (strict = invalid "Entry name contains dangerous patterns" →
     ¬ contains ".." (entryName e) ∧ ¬ beginsWith "/" (entryName e)
     ∧ (contains "\" (entryName e)
        ∨ contains (String Ascii.zero EmptyString) (entryName e)
        ∨ contains "<script" (toLowerCase (entryName e))
        ∨ contains "javascript:" (toLowerCase (entryName e)))).
Proof.
  unfold SecurityValidator.validateZipEntry, validateZipEntry,
    SecurityValidator.dangerousPatterns.
  cbn [existsb]. rewrite orb_false_r.
  rewrite <- !includes_spec, <- prefix_spec. fold (startsWith "/" (entryName e)).
  destruct (includes ".." (entryName e)), (startsWith "/" (entryName e)),
    (includes "\" (entryName e)),
    (includes (String Ascii.zero EmptyString) (entryName e)),
    (includes "<script" (toLowerCase (entryName e))),
    (includes "javascript:" (toLowerCase (entryName e)));
    cbn [orb negb andb];
    (split; [| split]); try discriminate;
    try (intros _; split; [discriminate | split; [discriminate | tauto]]);
    destruct (negb (String.eqb (toLowerCase (Path.extname (entryName e))) "")
              && negb (bool_decide (toLowerCase (Path.extname (entryName e))
                                    ∈ allowedExtensions)));
    destruct (10 * 1024 * 1024 <? size (header e))%N; try discriminate; auto.
Qed.

End ArchiveProperties.

(** ** The routes *)
Module RouteProperties.
Import Js AdmZip Vocabulary StringFacts ContextManager ContextFacts ListingFacts.
Import ZipHandler Routes ExtractionProperties ContextProperties.

Lemma chunks_concat {A} (n : nat) : ∀ (k : nat) (l : list A),
  (length l ≤ k * n)%nat →
  concat (map (λ i, take n (drop (i * n) l)) (seq 0 k)) = l.
Proof.
  induction k as [|k IH]; intros l Hlen.
  - destruct l; [done | cbn in Hlen; lia].
  - cbn [seq map concat]. rewrite <- seq_shift, map_map.
    cbn [Nat.mul]. rewrite drop_0.
    transitivity (take n l ++ drop n l); [| apply take_drop]. f_equal.
    transitivity (concat (map (λ i, take n (drop (i * n) (drop n l))) (seq 0 k)));
      [| apply IH; rewrite length_drop; lia].
    f_equal. apply map_ext. intros i. by rewrite drop_drop.
Qed.

Lemma page_items getTime page limit status type search st :
  (1 ≤ limit)%N →
  p_items (listContexts getTime page limit status type search st)
  = take (N.to_nat limit)
         (drop (N.to_nat (page - 1) * N.to_nat limit)
               (sort getTime
                  (selected (Some (mkFilter status type search None None)) st))).
Proof.
  intros Hlimit. unfold listContexts. cbn [p_items].
  rewrite getContexts_unfold. cbn [fst].
  unfold effectiveLimit, effectiveOffset. cbn [mbind option_bind f_limit f_offset].
  destruct (N.eqb_spec limit 0) as [-> | _]; [lia |].
  by rewrite N2Nat.inj_mul.
Qed.

Lemma page_count (total limit : N) :
  (1 ≤ limit)%N →
  let pages := ((total + limit - 1) / limit)%N in
  (total ≤ pages * limit)%N ∧ (0 < pages → (pages - 1) * limit < total)%N.
Proof.
  intros Hlimit pages.
  pose proof (N.Div0.mul_div_le (total + limit - 1) limit) as Hlow.
  pose proof (N.mul_succ_div_gt (total + limit - 1) limit ltac:(lia)) as Hhigh.
  fold pages in Hlow, Hhigh. split; nia.
Qed.

(** X15.  For a limit of at least 1, the pages [GET /context] serves are
    a partition of the listing: [totalPages] is a whole number, pages 1 to
    [totalPages] put end to end are the selected records sorted newest
    first, each of these pages holds a record, and every later page is
    empty. *)
Theorem context_pages_partition_the_listing
  (getTime : string → Z) limit status type search st :
  (1 ≤ limit)%N →
  let served page := listContexts getTime page limit status type search st in
  ∃ pages : nat,
    (∀ page, p_totalPages (served page) = JFinite (N.of_nat pages) 1)
    ∧ concat (map (λ k, p_items (served (N.of_nat k))) (seq 1 pages))
      = sort getTime (selected (Some (mkFilter status type search None None)) st)
    ∧ (∀ k, (1 ≤ k ≤ pages)%nat → p_items (served (N.of_nat k)) ≠ [])
    ∧ (∀ k, (pages < k)%nat → p_items (served (N.of_nat k)) = []).
Proof.
  intros Hlimit served.
  set (listing := sort getTime (selected (Some (mkFilter status type search None None)) st)).
  set (total := N.of_nat (length listing)).
  exists (N.to_nat ((total + limit - 1) / limit)).
  destruct (page_count total limit Hlimit) as [Hcover Hfull].
  set (pages := ((total + limit - 1) / limit)%N) in *.
  assert (∀ k, p_items (served (N.of_nat k))
               = take (N.to_nat limit) (drop ((k - 1) * N.to_nat limit) listing))
    as Hitems.
  { intros k. unfold served. rewrite page_items by done. fold listing.
    do 3 f_equal. lia. }
  split; [| split; [| split]].
  - intros page. unfold served, listContexts. cbn [p_totalPages].
    rewrite getContexts_unfold. cbn [snd]. fold listing. fold total.
    unfold div. destruct limit as [|d]; [lia |]. cbn [ceil].
    by rewrite N2Nat.id.
  - rewrite <- seq_shift, map_map.
    transitivity (concat (map (λ i, take (N.to_nat limit)
                                      (drop (i * N.to_nat limit) listing))
                              (seq 0 (N.to_nat pages))));
      [| apply chunks_concat; lia].
    f_equal. apply map_ext. intros k. rewrite Hitems.
    by replace (S k - 1)%nat with k by lia.
  - intros k Hk. rewrite Hitems. intros Hnil.
    apply (f_equal length) in Hnil. rewrite length_take, length_drop in Hnil.
    cbn [length] in Hnil.
    assert (0 < pages)%N as Hpos by lia. pose proof (Hfull Hpos) as Hlast.
    assert ((k - 1) * N.to_nat limit ≤ N.to_nat ((pages - 1) * limit))%nat by nia.
    lia.
  - intros k Hk. rewrite Hitems. rewrite drop_ge; [by rewrite take_nil |].
    assert (N.to_nat (pages * limit) ≤ (k - 1) * N.to_nat limit)%nat by nia.
    lia.
Qed.

Lemma context_pages_witness :
  let calls := [CallCreate "id-1" "2024" "2024" Written "a.zip" zip 10 (Some 1%N);
                CallCreate "id-2" "2024-01" "2024-01" Written "b.zip" zip 20 (Some 2%N);
                CallCreate "id-3" "2024-01-02" "2024-01-02" Written "c.zip" zip 30
                  (Some 3%N)] in
  let st := fst (run calls emptyStore) in
  let served page := listContexts lengthClock page 2 (Some "all") (Some "all") None st in
  map id (p_items (served 1%N)) = ["id-3"; "id-2"]
  ∧ map id (p_items (served 2%N)) = ["id-1"]
  ∧ ∃ pages : nat,
      (∀ page, p_totalPages (served page) = JFinite (N.of_nat pages) 1)
      ∧ concat (map (λ k, p_items (served (N.of_nat k))) (seq 1 pages))
        = sort lengthClock
            (selected (Some (mkFilter (Some "all") (Some "all") None None None)) st)
      ∧ (∀ k, (1 ≤ k ≤ pages)%nat → p_items (served (N.of_nat k)) ≠ [])
      ∧ (∀ k, (pages < k)%nat → p_items (served (N.of_nat k)) = []).
Proof.
  intros calls st served.
  split; [vm_compute; reflexivity |]. split; [vm_compute; reflexivity |].
  apply (context_pages_partition_the_listing lengthClock 2 (Some "all") (Some "all")
           None st).
  lia.
Defined.

(** *** The name an upload is stored under *)

Lemma everyChar_app P a b : everyChar P (a +:+ b) = everyChar P a && everyChar P b.
Proof.
  induction a as [|c a IH]; [done |].
  rewrite append_cons. cbn [everyChar]. by rewrite IH, andb_assoc.
Qed.

Lemma everyChar_impl (P Q : ascii → bool) s :
  (∀ c, P c = true → Q c = true) → everyChar P s = true → everyChar Q s = true.
Proof.
  intros HPQ. induction s as [|c s IH]; [done |]. cbn [everyChar].
  rewrite !andb_true_iff. intros [Hc Hs]. auto.
Qed.

Lemma everyChar_includes P p s :
  everyChar P s = true → includes p s = true → everyChar P p = true.
Proof.
  intros Hs Hin. apply includes_spec in Hin as (a & b & ->).
  rewrite !everyChar_app, !andb_true_iff in Hs. tauto.
Qed.

Lemma plain_harmless c : plain c = true → harmless c = true.
Proof. destruct c as [[] [] [] [] [] [] [] []]; vm_compute; congruence. Qed.

Lemma plain_harmless_lower c : plain c = true → harmless (lowerChar c) = true.
Proof. destruct c as [[] [] [] [] [] [] [] []]; vm_compute; congruence. Qed.

Lemma everyChar_toLowerCase s :
  everyChar plain s = true → everyChar harmless (toLowerCase s) = true.
Proof.
  induction s as [|c s IH]; [done |]. cbn [everyChar toLowerCase].
  rewrite !andb_true_iff. intros [Hc Hs]. auto using plain_harmless_lower.
Qed.

Lemma digit_plain x : plain (pretty_N_char x) = true.
Proof. unfold pretty_N_char. by repeat case_match. Qed.

Lemma digit_not_dot x : Ascii.eqb (pretty_N_char x) "." = false.
Proof. unfold pretty_N_char. by repeat case_match. Qed.

Lemma pretty_N_go_every (P : ascii → bool) :
  (∀ x, P (pretty_N_char x) = true) →
  ∀ x s, everyChar P s = true → everyChar P (pretty_N_go x s) = true.
Proof.
  intros Hdigit x. induction (N.lt_wf_0 x) as [x _ IH]; intros s Hs.
  assert (x = 0 ∨ 0 < x)%N as [-> | Hpos] by lia; [by rewrite pretty_N_go_0 |].
  rewrite pretty_N_go_step by done. apply IH; [by apply N.div_lt |].
  cbn [everyChar]. by rewrite Hdigit, Hs.
Qed.

Lemma pretty_N_every (P : ascii → bool) (n : N) :
  (∀ x, P (pretty_N_char x) = true) → everyChar P (pretty n) = true.
Proof.
  intros Hdigit. unfold pretty, pretty_N. destruct (decide (n = 0%N)).
  - cbn [everyChar]. rewrite andb_true_r. apply (Hdigit 0%N).
  - by apply pretty_N_go_every.
Qed.

Lemma sanitizedName_plain s : everyChar plain (sanitizedName s) = true.
Proof.
  induction s as [|c s IH]; [done |]. cbn [sanitizedName everyChar].
  rewrite IH, andb_true_r. unfold plain.
  destruct (isNameChar c) eqn:E; [by rewrite E | done].
Qed.

Lemma filename_plain timestamp originalname :
  everyChar plain (filename timestamp originalname) = true.
Proof.
  unfold filename. rewrite !everyChar_app, sanitizedName_plain.
  rewrite pretty_N_every by apply digit_plain. done.
Qed.

Lemma prefix_dots c s :
  String.prefix ".." (String c s)
  = Ascii.eqb c "." && match s with
                       | String c' _ => Ascii.eqb c' "."
                       | EmptyString => false
                       end.
Proof.
  cbn [String.prefix].
  destruct (ascii_dec "." c) as [<- | Hne].
  - rewrite Ascii.eqb_refl. cbn [andb].
    destruct s as [|c' s]; [done |]. cbn [String.prefix].
    destruct (ascii_dec "." c') as [<- | Hne];
      [rewrite Ascii.eqb_refl; by destruct s |].
    symmetry. apply Ascii.eqb_neq. congruence.
  - assert (Ascii.eqb c "." = false) as -> by (apply Ascii.eqb_neq; congruence). done.
Qed.

Lemma keeps_dots c :
  Ascii.eqb (if isNameChar c then c else "_"%char) "." = Ascii.eqb c ".".
Proof. destruct c as [[] [] [] [] [] [] [] []]; vm_compute; congruence. Qed.

Lemma includes_sanitizedName s : includes ".." (sanitizedName s) = includes ".." s.
Proof.
  induction s as [|c s IH]; [done |].
  cbn [sanitizedName includes]. rewrite IH. f_equal.
  rewrite !prefix_dots, keeps_dots. f_equal.
  destruct s as [|c' s]; [done |]. cbn [sanitizedName]. apply keeps_dots.
Qed.

Lemma includes_after_digits d t :
  everyChar (λ c, negb (Ascii.eqb c ".")) d = true →
  includes ".." (d +:+ "-" +:+ t) = includes ".." t.
Proof.
  induction d as [|c d IH]; intros Hd.
  - rewrite append_nil_l. change ("-" +:+ t) with (String "-" t).
    cbn [includes]. by rewrite prefix_dots.
  - cbn [everyChar] in Hd. apply andb_true_iff in Hd as [Hc Hd].
    rewrite append_cons. cbn [includes]. rewrite prefix_dots, IH by done.
    apply negb_true_iff in Hc. by rewrite Hc.
Qed.

Lemma includes_filename timestamp originalname :
  includes ".." (filename timestamp originalname) = includes ".." originalname.
Proof.
  unfold filename. rewrite includes_after_digits; [apply includes_sanitizedName |].
  apply pretty_N_every. intros x. by rewrite digit_not_dot.
Qed.

Lemma plain_name_patterns s :
  everyChar plain s = true →
  existsb (λ pattern, pattern s) SecurityValidator.dangerousPatterns = includes ".." s.
Proof.
  intros Hplain.
  pose proof (everyChar_impl _ _ s plain_harmless Hplain) as Hs.
  pose proof (everyChar_toLowerCase s Hplain) as Hlower.
  unfold SecurityValidator.dangerousPatterns. cbn [existsb].
  assert (∀ p t, everyChar harmless t = true → everyChar harmless p = false →
                 includes p t = false) as Hno.
  { intros p t Ht Hp. destruct (includes p t) eqn:E; [| done].
    by rewrite (everyChar_includes _ _ _ Ht E) in Hp. }
  rewrite (Hno "\" s), (Hno (String Ascii.zero EmptyString) s),
    (Hno "<script" (toLowerCase s)), (Hno "javascript:" (toLowerCase s)) by done.
  assert (startsWith "/" s = false) as ->.
  { destruct s as [|c s]; [done |]. cbn [everyChar] in Hs.
    apply andb_true_iff in Hs as [Hc _]. unfold startsWith. cbn [String.prefix].
    destruct (ascii_dec "/" c) as [<- | Hne]; [discriminate Hc | done]. }
  by rewrite !orb_false_r.
Qed.

(** X16.  Of the name a client gives an upload, only two consecutive
    dots survive the renaming of the multer storage: a stored upload
    passes the security gate exactly when it is at most 50 MiB, is
    detected as a zip, and its original name does not contain [..]. *)
Theorem stored_upload_passes_gate_iff timestamp originalname filePath up :
  Path.basename filePath = filename timestamp originalname →
  SecurityValidator.validateFile filePath (Some up) = valid
  ↔ (declaredSize up ≤ 52428800)%N
    ∧ (∃ mime, sniffedMediaType up = Some mime
               ∧ (mime = "application/zip" ∨ mime = "application/x-zip-compressed"))
    ∧ ¬ contains ".." originalname.
Proof.
  intros Hbase. unfold SecurityValidator.validateFile. rewrite Hbase.
  rewrite plain_name_patterns by apply filename_plain.
  rewrite includes_filename, <- includes_spec.
  destruct (N.ltb_spec SecurityValidator.maxFileSize (declaredSize up)) as [Hbig | Hok].
  { split; [done |]. unfold SecurityValidator.maxFileSize in Hbig. intros [? _]. lia. }
  unfold SecurityValidator.maxFileSize in Hok.
  destruct (sniffedMediaType up) as [mime|]; [| split; [done | by intros (_ & (? & ? & _) & _)]].
  destruct (decide (mime ∈ SecurityValidator.allowedMimeTypes)) as [Hmime | Hmime].
  - rewrite bool_decide_true by done. cbn [negb].
    assert (mime = "application/zip" ∨ mime = "application/x-zip-compressed") as Hcases.
    { unfold SecurityValidator.allowedMimeTypes in Hmime.
      apply elem_of_cons in Hmime as [-> | Hmime]; [by left |].
      apply list_elem_of_singleton in Hmime as ->. by right. }
    destruct (includes ".." originalname).
    + split; [done | by intros (_ & _ & Hno)].
    + split; [| done]. intros _. split; [lia |]. split; [by exists mime | done].
  - rewrite bool_decide_false by done. cbn [negb]. split; [done |].
    intros (_ & (m & [= <-] & Hm) & _). exfalso. apply Hmime.
    unfold SecurityValidator.allowedMimeTypes.
    destruct Hm as [-> | ->]; [by left | right; by left].
Qed.

Lemma stored_upload_witness :
  let filePath := "/srv/app/data/zips/1700000000000-my_site__v2_.zip" in
  filename 1700000000000 "my site (v2).zip" = "1700000000000-my_site__v2_.zip"
  ∧ SecurityValidator.validateFile filePath (Some (zipUpload [])) = valid.
Proof.
  intros filePath.
  assert (Path.basename filePath = filename 1700000000000 "my site (v2).zip") as Hbase
    by (vm_compute; reflexivity).
  split; [vm_compute; reflexivity |].
  apply (proj2 (stored_upload_passes_gate_iff 1700000000000 "my site (v2).zip"
                  filePath (zipUpload []) Hbase)).
  split; [vm_compute; discriminate |]. split; [exists "application/zip"; by split; [| left] |].
  rewrite <- includes_spec. vm_compute. discriminate.
Defined.

(** *** Uploading an archive *)





End RouteProperties.

(** ** [SecurityValidator.sanitizePath] *)
Module SanitizePathProperties.
Import Js Vocabulary StringFacts PathFacts RouteProperties.
Import SecurityValidator.

(** *** The five replacements *)

Lemma removeDotDot_ind (P : string → Prop) :
  P "" → (∀ c, P (String c "")) →
  (∀ rest, P rest → P (String "." (String "." rest))) →
  (∀ c c' rest, Ascii.eqb c "." && Ascii.eqb c' "." = false →
                P (String c' rest) → P (String c (String c' rest))) →
  ∀ s, P s.
Proof.
  intros Hnil Hone Hdots Hother s.
  assert (P s ∧ ∀ c, P (String c s)) as [H _]; [| exact H].
  induction s as [|c' s [IH1 IH2]]; [by split |].
  split; [apply IH2 |]. intros c.
  destruct (Ascii.eqb c "." && Ascii.eqb c' ".") eqn:E.
  - apply andb_true_iff in E as [->%Ascii.eqb_eq ->%Ascii.eqb_eq]. by apply Hdots.
  - by apply Hother.
Qed.

Lemma removeDotDot_dots rest :
  removeDotDot (String "." (String "." rest)) = removeDotDot rest.
Proof. reflexivity. Qed.

Lemma removeDotDot_other c c' rest :
  Ascii.eqb c "." && Ascii.eqb c' "." = false →
  removeDotDot (String c (String c' rest)) = String c (removeDotDot (String c' rest)).
Proof. intros E. cbn [removeDotDot]. by rewrite E. Qed.

Lemma removeDotDot_every P s :
  everyChar P s = true → everyChar P (removeDotDot s) = true.
Proof.
  induction s as [| c | rest IH | c c' rest E IH] using removeDotDot_ind; try done.
  - rewrite removeDotDot_dots. cbn [everyChar]. rewrite !andb_true_iff.
    intros (_ & _ & H). auto.
  - rewrite removeDotDot_other by done.
    cbn [everyChar] in *. rewrite !andb_true_iff in *. intros [Hc H]. auto.
Qed.

Lemma prefix_dots_next c s :
  String.prefix ".." (String c s) = Ascii.eqb c "." && startsWith "." s.
Proof.
  rewrite prefix_dots. f_equal. destruct s as [|c' s]; [done |].
  unfold startsWith. cbn [String.prefix].
  destruct (ascii_dec "." c') as [<- | Hne].
  - rewrite Ascii.eqb_refl. by destruct s.
  - apply Ascii.eqb_neq. congruence.
Qed.

Lemma startsWith_dot c s : startsWith "." (String c s) = Ascii.eqb c ".".
Proof.
  unfold startsWith. cbn [String.prefix].
  destruct (ascii_dec "." c) as [<- | Hne].
  - rewrite Ascii.eqb_refl. by destruct s.
  - symmetry. apply Ascii.eqb_neq. congruence.
Qed.

Lemma removeDotDot_starts s :
  startsWith "." (removeDotDot s) = true → startsWith "." s = true.
Proof.
  destruct s as [|c [|c' rest]]; [done | done |].
  destruct (Ascii.eqb c "." && Ascii.eqb c' ".") eqn:E.
  - apply andb_true_iff in E as [->%Ascii.eqb_eq _]. intros _. apply startsWith_dot.
  - rewrite removeDotDot_other by done. by rewrite !startsWith_dot.
Qed.

Lemma removeDotDot_no_dots s : includes ".." (removeDotDot s) = false.
Proof.
  induction s as [| c | rest IH | c c' rest E IH] using removeDotDot_ind.
  - done.
  - cbn [removeDotDot includes]. rewrite prefix_dots_next. cbn. by rewrite andb_false_r.
  - by rewrite removeDotDot_dots.
  - rewrite removeDotDot_other by done. cbn [includes]. rewrite IH, orb_false_r.
    rewrite prefix_dots_next.
    destruct (Ascii.eqb c ".") eqn:Hc; [| done]. cbn [andb] in *.
    destruct (startsWith "." (removeDotDot (String c' rest))) eqn:Hs; [| done].
    apply removeDotDot_starts in Hs. rewrite startsWith_dot in Hs. congruence.
Qed.

Lemma includes_tail p c s : includes p s = true → includes p (String c s) = true.
Proof. intros H. cbn [includes]. by rewrite H, orb_true_r. Qed.

Lemma stripLeadingSlashes_every P s :
  everyChar P s = true → everyChar P (stripLeadingSlashes s) = true.
Proof.
  induction s as [|c s IH]; [done |]. cbn [stripLeadingSlashes].
  destruct (Ascii.eqb c "/"); [| done]. cbn [everyChar].
  rewrite andb_true_iff. intros [_ H]. auto.
Qed.

Lemma stripLeadingSlashes_includes p s :
  includes p (stripLeadingSlashes s) = true → includes p s = true.
Proof.
  induction s as [|c s IH]; [done |]. cbn [stripLeadingSlashes].
  destruct (Ascii.eqb c "/"); [| done]. intros H. by apply includes_tail, IH.
Qed.

Lemma collapseBackslashes_every P s :
  P "/"%char = true → everyChar P s = true → everyChar P (collapseBackslashes s) = true.
Proof.
  intros Hslash. induction s as [|c s IH]; [done |].
  cbn [collapseBackslashes everyChar]. rewrite andb_true_iff. intros [Hc Hs].
  destruct (Ascii.eqb c "\"); [destruct (startsWith "\" s) |];
    cbn [everyChar]; rewrite ?Hslash, ?Hc; auto.
Qed.

Lemma collapseBackslashes_none s :
  everyChar (λ c, negb (Ascii.eqb c "\")) (collapseBackslashes s) = true.
Proof.
  induction s as [|c s IH]; [done |]. cbn [collapseBackslashes].
  destruct (Ascii.eqb c "\") eqn:E; [destruct (startsWith "\" s) |];
    cbn [everyChar]; rewrite ?E, ?IH; done.
Qed.

Lemma collapseBackslashes_starts s :
  startsWith "." (collapseBackslashes s) = true → startsWith "." s = true.
Proof.
  induction s as [|c s IH]; [done |]. cbn [collapseBackslashes].
  destruct (Ascii.eqb c "\") eqn:E.
  - destruct (startsWith "\" s) eqn:Hs; [| by rewrite startsWith_dot].
    intros H. apply IH in H. destruct s as [|d s]; [done |].
    rewrite startsWith_dot in H. apply Ascii.eqb_eq in H as ->. discriminate Hs.
  - by rewrite !startsWith_dot.
Qed.

Lemma collapseBackslashes_includes s :
  includes ".." (collapseBackslashes s) = true → includes ".." s = true.
Proof.
  induction s as [|c s IH]; [done |]. cbn [collapseBackslashes].
  destruct (Ascii.eqb c "\") eqn:E.
  - destruct (startsWith "\" s).
    + intros H. by apply includes_tail, IH.
    + cbn [includes]. rewrite prefix_dots_next. cbn [Ascii.eqb andb orb].
      change (Ascii.eqb "/" ".") with false. cbn [andb orb].
      intros H. by apply includes_tail, IH.
  - cbn [includes]. rewrite !prefix_dots_next, !orb_true_iff, !andb_true_iff.
    intros [[Hc Hs] | H]; [left | right; by apply IH].
    split; [done |]. by apply collapseBackslashes_starts.
Qed.

Lemma removeNul_id s : everyChar notNul s = true → removeNul s = s.
Proof.
  induction s as [|c s IH]; [done |]. cbn [everyChar removeNul].
  rewrite andb_true_iff. unfold notNul at 1. intros [Hc Hs].
  apply negb_true_iff in Hc. by rewrite Hc, IH.
Qed.

Lemma replaceSpecial_dots c :
  Ascii.eqb (if isSpecial c then "_"%char else c) "." = Ascii.eqb c ".".
Proof. destruct c as [[] [] [] [] [] [] [] []]; vm_compute; congruence. Qed.

Lemma replaceSpecial_includes s :
  includes ".." (replaceSpecial s) = includes ".." s.
Proof.
  induction s as [|c s IH]; [done |].
  cbn [replaceSpecial includes]. rewrite IH. f_equal.
  rewrite !prefix_dots, replaceSpecial_dots. f_equal.
  destruct s as [|c' s]; [done |]. cbn [replaceSpecial]. apply replaceSpecial_dots.
Qed.

Lemma replaced_wanted c :
  Ascii.eqb c "\" = false → Ascii.eqb c Ascii.zero = false →
  wanted (if isSpecial c then "_"%char else c) = true.
Proof. destruct c as [[] [] [] [] [] [] [] []]; vm_compute; congruence. Qed.

Lemma replacements_wanted s :
  everyChar (λ c, negb (Ascii.eqb c "\")) s = true →
  everyChar wanted (replaceSpecial (removeNul s)) = true.
Proof.
  induction s as [|c s IH]; [done |]. cbn [everyChar removeNul].
  rewrite andb_true_iff. intros [Hc Hs]. apply negb_true_iff in Hc.
  destruct (Ascii.eqb c Ascii.zero) eqn:E; [auto |].
  cbn [replaceSpecial everyChar]. rewrite replaced_wanted by done. auto.
Qed.

(** *** [path.normalize] on the result *)

Lemma normalizeStep_Forall (P : string → Prop) b res seg :
  Forall P res → (seg = ".." → P "..") → (seg ≠ "" → seg ≠ "." → P seg) →
  Forall P (Path.normalizeStep b res seg).
Proof.
  intros Hres Hdots Hseg. unfold Path.normalizeStep.
  destruct (String.eqb_spec seg "") as [-> | H1]; [done |].
  destruct (String.eqb_spec seg ".") as [-> | H2]; [done |]. cbn [orb].
  destruct (String.eqb_spec seg "..") as [-> | H3].
  - destruct (last res) as [l|].
    + destruct (String.eqb l "..");
        [destruct b; [apply Forall_app; split; [done | constructor; auto] | done] |].
      by apply Forall_removelast.
    + destruct b; [constructor; auto | done].
  - apply Forall_app. split; [done |]. constructor; auto.
Qed.

Lemma normalizeString_Forall (P : string → Prop) b segs :
  (In ".." segs → P "..") →
  (∀ seg, In seg segs → seg ≠ "" → seg ≠ "." → P seg) →
  Forall P (Path.normalizeString b segs).
Proof.
  unfold Path.normalizeString. generalize (@nil string) (List.Forall_nil P).
  induction segs as [|seg segs IH]; intros acc Hacc Hdots Hsegs; [exact Hacc |].
  cbn [fold_left]. apply IH.
  - apply normalizeStep_Forall; [done | |].
    + intros ->. apply Hdots. by left.
    + apply Hsegs. by left.
  - intros Hin. apply Hdots. by right.
  - intros s Hin. apply Hsegs. by right.
Qed.

Lemma normalize_cases (R : string → Prop) p :
  R "." → R "/" → R "./" →
  (∀ l pre post,
     l ≠ [] →
     Forall (λ seg, seg ≠ "" ∧ noSlash seg ∧ In seg (split p)) l →
     pre = "" ∨ pre = "/" → post = "" ∨ post = "/" →
     R (pre +:+ join l +:+ post)) →
  R (Path.normalize p).
Proof.
  intros Hdot Hroot Hhere Hsegs. unfold Path.normalize.
  destruct (String.eqb p ""); [done |].
  set (l := Path.normalizeString (negb (startsWith "/" p)) (split p)).
  assert (Forall (λ seg, seg ≠ "" ∧ noSlash seg ∧ In seg (split p)) l) as Hl.
  { apply normalizeString_Forall.
    - intros Hin. split; [done |]. split; [by repeat split | done].
    - intros seg Hin Hne _. split; [done |]. split; [| done].
      by apply (proj1 (List.Forall_forall _ _) (split_all_noSlash p)). }
  destruct (String.eqb_spec (join l) "") as [Hnil | Hbody].
  - destruct (startsWith "/" p); [done |]. by destruct (endsWithSlash p).
  - apply Hsegs; [by intros -> | done | |].
    + destruct (startsWith "/" p); auto.
    + destruct (endsWithSlash p); auto.
Qed.

Lemma everyChar_split Q s :
  everyChar Q s = true → Forall (λ seg, everyChar Q seg = true) (split s).
Proof.
  induction s as [|c s IH]; [by repeat constructor |].
  cbn [everyChar]. rewrite andb_true_iff. intros [Hc Hs].
  destruct (Ascii.eqb_spec c "/"%char) as [-> | Hne].
  - rewrite split_cons_slash. constructor; auto.
  - destruct (split_cons_other c s Hne) as (h & t & Hsplit & ->).
    specialize (IH Hs). rewrite Hsplit in IH. apply Forall_cons in IH as [Hh Ht].
    constructor; [| done]. cbn [everyChar]. by rewrite Hc, Hh.
Qed.

Lemma everyChar_join Q l :
  Q "/"%char = true → Forall (λ seg, everyChar Q seg = true) l →
  everyChar Q (join l) = true.
Proof.
  intros Hslash. induction l as [|x l IH]; [done |].
  intros Hall. apply Forall_cons in Hall as [Hx Hl].
  destruct l as [|y l]; [done |].
  rewrite join_cons2, !everyChar_app, Hx, IH by done. cbn [everyChar]. by rewrite Hslash.
Qed.

Lemma join_split s : join (split s) = s.
Proof.
  induction s as [|c s IH]; [done |].
  destruct (Ascii.eqb_spec c "/"%char) as [-> | Hne].
  - rewrite split_cons_slash. pose proof (split_nonempty s) as Hne.
    destruct (split s) as [|h t] eqn:E; [done |].
    rewrite join_cons2, IH. reflexivity.
  - destruct (split_cons_other c s Hne) as (h & t & Hsplit & ->).
    rewrite Hsplit in IH. destruct t as [|y t].
    + cbn [join] in *. by rewrite IH.
    + rewrite join_cons2 in *. by rewrite append_cons, IH.
Qed.

Lemma includes_slash a b :
  includes ".." (a +:+ "/" +:+ b) = includes ".." a || includes ".." b.
Proof.
  induction a as [|c a IH].
  - rewrite append_nil_l. change ("/" +:+ b) with (String "/" b).
    cbn [includes]. by rewrite prefix_dots_next.
  - rewrite append_cons. cbn [includes]. rewrite IH, !prefix_dots_next, orb_assoc.
    do 2 f_equal. destruct a as [|d a]; [| by rewrite append_cons, !startsWith_dot].
    rewrite append_nil_l. by change ("/" +:+ b) with (String "/" b).
Qed.

Lemma includes_join l : includes ".." (join l) = existsb (includes "..") l.
Proof.
  induction l as [|x l IH]; [done |].
  destruct l as [|y l]; [cbn [join existsb]; by rewrite orb_false_r |].
  rewrite join_cons2, includes_slash, IH. reflexivity.
Qed.

Lemma includes_split s seg :
  includes ".." s = false → In seg (split s) → includes ".." seg = false.
Proof.
  intros Hs Hin. rewrite <- (join_split s), includes_join in Hs.
  destruct (includes ".." seg) eqn:E; [| done].
  rewrite <- Hs. symmetry. apply existsb_exists. by exists seg.
Qed.

Lemma join_first l :
  l ≠ [] → Forall (λ seg, seg ≠ "" ∧ noSlash seg) l →
  ∃ c rest, c ≠ "/"%char ∧ join l = String c rest.
Proof.
  destruct l as [|x l]; [done |]. intros _ Hall.
  apply Forall_cons in Hall as [[Hne Hx] _].
  destruct x as [|c x]; [done |]. destruct Hx as [Hc _].
  exists c. destruct l as [|y l]; [by exists x |].
  rewrite join_cons2, append_cons. by eexists.
Qed.

(** X18.  Whatever it is given, [sanitizePath] returns a path that is
    not empty, does not begin with a slash, and contains no backslash, no
    NUL and none of the characters it replaces by an underscore. *)
Theorem sanitizePath_returns_a_relative_path inputPath :
  sanitizePath inputPath ≠ ""
  ∧ startsWith "/" (sanitizePath inputPath) = false
  ∧ everyChar wanted (sanitizePath inputPath) = true.
Proof.
  unfold sanitizePath.
  set (q := replaceSpecial
              (removeNul (collapseBackslashes (stripLeadingSlashes
                                                 (removeDotDot inputPath))))).
  assert (everyChar wanted q = true) as Hq
    by apply replacements_wanted, collapseBackslashes_none.
  apply (normalize_cases
           (λ r0, (if String.eqb (if startsWith "/" r0 then substring1 r0 else r0) ""
                   then "sanitized"
                   else if startsWith "/" r0 then substring1 r0 else r0) ≠ ""
                  ∧ startsWith "/"
                      (if String.eqb (if startsWith "/" r0 then substring1 r0 else r0) ""
                       then "sanitized"
                       else if startsWith "/" r0 then substring1 r0 else r0) = false
                  ∧ everyChar wanted
                      (if String.eqb (if startsWith "/" r0 then substring1 r0 else r0) ""
                       then "sanitized"
                       else if startsWith "/" r0 then substring1 r0 else r0) = true));
    [by vm_compute | by vm_compute | by vm_compute |].
  intros l pre post Hne Hl Hpre Hpost.
  destruct (join_first l Hne) as (c & rest & Hc & Hjoin).
  { eapply List.Forall_impl; [| exact Hl]. by intros seg (? & ? & _). }
  assert (everyChar wanted (join l) = true) as Hbody.
  { apply everyChar_join; [done |]. eapply List.Forall_impl; [| exact Hl].
    intros seg (_ & _ & Hin).
    by apply (proj1 (List.Forall_forall _ _) (everyChar_split wanted q Hq)). }
  assert (everyChar wanted (String c (rest +:+ post)) = true) as Hall.
  { rewrite <- append_cons, <- Hjoin, everyChar_app, Hbody.
    by destruct Hpost as [-> | ->]. }
  assert (startsWith "/" (String c (rest +:+ post)) = false) as Hstart.
  { unfold startsWith. cbn [String.prefix].
    destruct (ascii_dec "/" c) as [<- | _]; done. }
  rewrite Hjoin, append_cons.
  destruct Hpre as [-> | ->].
  - rewrite append_nil_l, Hstart. cbn [String.eqb]. by rewrite Hstart.
  - change ("/" +:+ String c (rest +:+ post))
      with (String "/" (String c (rest +:+ post))).
    change (startsWith "/" (String "/" (String c (rest +:+ post)))) with true.
    cbn [substring1 String.eqb]. by rewrite Hstart.
Qed.

Lemma step_no_dots (f : string → string) s :
  (includes ".." (f s) = true → includes ".." s = true) →
  includes ".." s = false → includes ".." (f s) = false.
Proof. intros Hf Hs. destruct (includes ".." (f s)); [by rewrite Hf in Hs | done]. Qed.

(** X19.  On an input without a NUL character the result of
    [sanitizePath] contains no two consecutive dots, hence no parent
    reference. *)
Theorem sanitizePath_leaves_no_parent_reference inputPath :
  everyChar notNul inputPath = true →
  ¬ contains ".." (sanitizePath inputPath).
Proof.
  intros Hnul. rewrite <- includes_spec. apply not_true_iff_false.
  unfold sanitizePath.
  set (q := replaceSpecial
              (removeNul (collapseBackslashes (stripLeadingSlashes
                                                 (removeDotDot inputPath))))).
  assert (includes ".." q = false) as Hq.
  { unfold q. rewrite replaceSpecial_includes, removeNul_id.
    - apply step_no_dots; [apply collapseBackslashes_includes |].
      apply step_no_dots; [apply stripLeadingSlashes_includes |].
      apply removeDotDot_no_dots.
    - apply collapseBackslashes_every; [done |].
      by apply stripLeadingSlashes_every, removeDotDot_every. }
  apply (normalize_cases
           (λ r0, includes ".."
                    (if String.eqb (if startsWith "/" r0 then substring1 r0 else r0) ""
                     then "sanitized"
                     else if startsWith "/" r0 then substring1 r0 else r0) = false));
    [by vm_compute | by vm_compute | by vm_compute |].
  intros l pre post Hne Hl Hpre Hpost.
  assert (includes ".." (join l) = false) as Hbody.
  { rewrite includes_join. apply not_true_iff_false.
    intros (seg & Hin & Hseg)%existsb_exists.
    pose proof (proj1 (List.Forall_forall _ _) Hl seg Hin) as (_ & _ & Hq').
    by rewrite (includes_split q seg Hq Hq') in Hseg. }
  assert (includes ".." (join l +:+ post) = false) as Htail.
  { destruct Hpost as [-> | ->]; [by rewrite append_nil_r |].
    rewrite <- (append_nil_r "/").
    by rewrite (includes_slash (join l) ""), Hbody. }
  assert (includes ".." (pre +:+ join l +:+ post) = false) as Hall.
  { destruct Hpre as [-> | ->]; [by rewrite append_nil_l |].
    by rewrite <- (append_nil_l ("/" +:+ join l +:+ post)), (includes_slash ""), Htail. }
  destruct (String.eqb _ ""); [by vm_compute |].
  destruct (startsWith "/" (pre +:+ join l +:+ post)); [| done].
  destruct (pre +:+ join l +:+ post) as [|c r]; [done |]. cbn [substring1].
  cbn [includes] in Hall. by apply orb_false_iff in Hall as [_ ->].
Qed.

Lemma sanitizePath_witness :
  ¬ contains ".." (sanitizePath "../..\\secret//..//file?.txt")
  ∧ sanitizePath "../..\\secret//..//file?.txt" = "secret/file_.txt".
Proof.
  split; [| vm_compute; reflexivity].
  apply sanitizePath_leaves_no_parent_reference. vm_compute. reflexivity.
Defined.

(** The NUL character is removed after the parent references are: two
    dots that a NUL separates come together and stay. *)
Lemma sanitizePath_dots_around_nul :
  sanitizePath (String "." (String Ascii.zero "./etc")) = "../etc".
Proof. vm_compute. reflexivity. Qed.

End SanitizePathProperties.

(** ** Listing after a change *)
Module ListingProperties.
Import Js Vocabulary StringFacts ContextManager ContextFacts ListingFacts.
Import ContextProperties.

Lemma selected_app filter st st' item :
  mapValues (contexts st') = mapValues (contexts st) ++ [item] →
  selected filter st'
  = selected filter st
    ++ (if wantsStatus filter item && wantsType filter item && wantsSearch filter item
        then [item] else []).
Proof.
  intros Hvalues. unfold selected. rewrite Hvalues, !List.filter_app.
  f_equal. cbn [List.filter].
  destruct (wantsStatus filter item); [| done]. cbn [List.filter].
  destruct (wantsType filter item); [| done]. cbn [List.filter].
  by destruct (wantsSearch filter item).
Qed.

(** X6.  A context created under a new id shows in the listings whose
    filter it matches and in no other: for every status, type and search
    term the total grows by one when the new record passes the three
    tests and stays as it was otherwise, and a page long enough to hold
    the whole listing contains the new record. *)
Theorem created_context_is_listed
  (getTime : string → Z) status kind search uuid now1 now2 io name type size fileCount st :
  getContext uuid st = None →
  let item := mkContextItem uuid name type pending now1 now2 size fileCount None in
  let st' := snd (createContext uuid now1 now2 io name type size fileCount st) in
  let filter limit := Some (mkFilter status kind search limit None) in
  let matches := wantsStatus (filter None) item && wantsType (filter None) item
                 && wantsSearch (filter None) item in
  let total := snd (getContexts getTime (filter None) st) in
  let total' := snd (getContexts getTime (filter None) st') in
  total' = (total + (if matches then 1 else 0))%nat
  ∧ (matches = true →
     In item (fst (getContexts getTime (filter (Some (N.of_nat total'))) st'))).
Proof.
  intros Hfresh item st' filter matches total total'.
  assert (selected (filter None) st'
          = selected (filter None) st ++ (if matches then [item] else [])) as Hsel.
  { apply selected_app. unfold st'.
    rewrite (proj2 (createContext_stores uuid now1 now2 io name type size fileCount st)).
    rewrite mapSet_fresh by exact Hfresh. unfold mapValues. by rewrite map_app. }
  assert (total' = (total + (if matches then 1 else 0))%nat) as Htotal.
  { unfold total, total'. rewrite !getContexts_unfold. cbn [snd].
    rewrite !(Permutation_length (sort_perm getTime _)), Hsel, length_app.
    by destruct matches. }
  split; [exact Htotal |]. intros Hmatch.
  rewrite getContexts_unfold. cbn [fst].
  change (selected (filter (Some (N.of_nat total'))) st') with (selected (filter None) st').
  change (effectiveOffset (filter (Some (N.of_nat total')))) with 0%nat.
  assert (effectiveLimit (filter (Some (N.of_nat total'))) = total') as ->.
  { unfold effectiveLimit. cbn [mbind option_bind f_limit filter].
    rewrite Htotal, Hmatch. destruct (N.eqb_spec (N.of_nat (total + 1)) 0); lia. }
  rewrite drop_0, take_ge.
  - apply (Permutation_in _ (Permutation_sym (sort_perm getTime _))).
    rewrite Hsel, Hmatch. apply in_app_iff. right. by left.
  - unfold total'. rewrite getContexts_unfold. cbn [snd]. lia.
Qed.

Lemma created_context_listed_witness :
  let calls := [CallCreate "id-1" "2024" "2024" Written "a.zip" zip 10 (Some 1%N);
                CallApprove "2024-02" Written (mkApprovalArgs "id-1" true None)] in
  let st := fst (run calls emptyStore) in
  let st' := snd (createContext "id-2" "2024-03" "2024-03" Written "Report.ZIP" zip 20
                    (Some 2%N) st) in
  let filter limit := Some (mkFilter (Some "pending") None (Some "report") limit None) in
  snd (getContexts lengthClock (filter None) st) = 0%nat
  ∧ snd (getContexts lengthClock (filter None) st') = 1%nat
  ∧ map id (fst (getContexts lengthClock (filter (Some 1%N)) st')) = ["id-2"].
Proof.
  intros calls st st' filter.
  assert (snd (getContexts lengthClock (filter None) st) = 0%nat) as Hbefore
    by (vm_compute; reflexivity).
  split; [exact Hbefore |]. split; [| vm_compute; reflexivity].
  destruct (created_context_is_listed lengthClock (Some "pending") None (Some "report")
              "id-2" "2024-03" "2024-03" Written "Report.ZIP" zip 20%N (Some 2%N) st
              eq_refl) as [Htotal _].
  cbn zeta in Htotal. fold st' in Htotal. fold (filter None) in Htotal.
  rewrite Htotal, Hbefore. vm_compute. reflexivity.
Defined.

End ListingProperties.

(** ** Extracting the same archive again *)
Module RerunProperties.
Import Js AdmZip Vocabulary StringFacts PathFacts ValidationFacts FsFacts ExtractionFacts.
Import ZipHandler LoopFacts ExtractionProperties.

Lemma step_clean_file root options e s s' :
  EntryStep root options e s (Ok tt) s' →
  warnings s' = warnings s →
  isDirectory e = false →
  validateZipEntry e = valid
  ∧ Fs.isFile (fs s') (Path.join2 root (sanitizeFilePath (entryName e))) = true.
Proof.
  intros Hstep Hsame Hfile.
  assert (∀ w (l : list string), l ++ [w] ≠ l) as Hgrow.
  { intros w l E. apply (f_equal length) in E. rewrite length_app in E. cbn in E. lia. }
  inversion Hstep as [s0 Hdir | s0 why Hdir _ | s0 Hdir _ _ _ | | s0 disk1 msg Hdir _ _ _ _
                     | s0 disk1 data disk2 Hdir Hvalid _ _ Hdata Hw]; subst.
  - congruence.
  - by apply Hgrow in Hsame.
  - by apply Hgrow in Hsame.
  - by apply Hgrow in Hsame.
  - cbn zeta in *. split; [done |].
    destruct (N.ltb_spec maxExtractedSize (totalSize s + byteLength data)) as [Hover | Hok].
    + by apply Hgrow in Hsame.
    + cbn [fs]. apply (isFile_written _ _ _ _ _ Hw). by left.
Qed.

Lemma loop_keepsPaths root options entries s o s' :
  forOf (extractEntry root options) entries s = (o, s') →
  keepsPaths (fs s) (fs s').
Proof.
  apply (forOf_steps (λ a b, keepsPaths (fs a) (fs b))).
  - intros a. apply keepsPaths_refl.
  - intros a b c. apply keepsPaths_trans.
  - intros e a o' b _ He. eapply step_keepsPaths. by apply extractEntry_effect.
Qed.

Lemma loop_clean_files root options entries : ∀ s s',
  forOf (extractEntry root options) entries s = (Ok tt, s') →
  warnings s' = warnings s →
  Forall (λ e, validateZipEntry e = valid
               ∧ Fs.isFile (fs s')
                   (Path.join2 root (sanitizeFilePath (entryName e))) = true)
         (fileEntries entries).
Proof.
  induction entries as [|e rest IH]; intros s s' Hrun Hsame; [constructor |].
  cbn [forOf] in Hrun. unfold bind in Hrun.
  destruct (extractEntry root options e s) as [[[]|msg] s1] eqn:He; [| done].
  apply extractEntry_effect in He.
  destruct (step_warnings_extend _ _ _ _ _ _ He) as [a Ha].
  pose proof (loop_counts root options rest s1 (Ok tt) s' Hrun)
    as (_ & (Hw & _) & _).
  assert (a = []) as ->.
  { apply (f_equal length) in Ha. rewrite length_app in Ha.
    rewrite Hsame in Hw. destruct a; [done | cbn in Ha; lia]. }
  rewrite app_nil_r in Ha.
  specialize (IH s1 s' Hrun (eq_trans Hsame (eq_sym Ha))).
  unfold fileEntries in *. cbn [List.filter].
  destruct (isDirectory e) eqn:Hdir; cbn [negb]; [done |].
  constructor; [| done].
  destruct (step_clean_file _ _ _ _ _ He Ha Hdir) as [Hvalid Hfile].
  split; [done |]. by apply (loop_keepsPaths _ _ _ _ _ _ Hrun).
Qed.

Lemma extractEntry_exists root options e s :
  isDirectory e = false → validateZipEntry e = valid →
  Fs.existsSync (fs s) (Path.join2 root (sanitizeFilePath (entryName e))) = true →
  default false (overwrite options) = false →
  extractEntry root options e s
  = (Ok tt, warned ("Skipped " +:+ entryName e +:+ ": File already exists") s).
Proof.
  intros Hdir Hvalid Hexists Hover. unfold extractEntry.
  rewrite Hdir, Hvalid. cbn [isValid valid negb]. unfold bind, existsSync at 1.
  by rewrite Hexists, Hover.
Qed.

Lemma loop_all_exist root options entries : ∀ s,
  default false (overwrite options) = false →
  Forall (λ e, validateZipEntry e = valid
               ∧ Fs.isFile (fs s)
                   (Path.join2 root (sanitizeFilePath (entryName e))) = true)
         (fileEntries entries) →
  forOf (extractEntry root options) entries s
  = (Ok tt,
     mkState (fs s) (extractedFiles s)
       (warnings s
        ++ map (λ e, "Skipped " +:+ entryName e +:+ ": File already exists")
               (fileEntries entries))
       (totalSize s)).
Proof.
  intros s Hover. revert s.
  induction entries as [|e rest IH]; intros s Hall.
  - cbn. rewrite app_nil_r. by destruct s.
  - cbn [forOf]. unfold bind. unfold fileEntries in *. cbn [List.filter] in *.
    destruct (isDirectory e) eqn:Hdir; cbn [negb] in *.
    + unfold extractEntry at 1. rewrite Hdir. unfold ret. by apply IH.
    + apply Forall_cons in Hall as [[Hvalid Hfile] Hrest].
      rewrite extractEntry_exists; [| done | done | | done].
      * rewrite (IH (warned _ s) Hrest). unfold warned.
        cbn [fs extractedFiles warnings totalSize map]. by rewrite <- app_assoc.
      * unfold Fs.existsSync. by rewrite Hfile.
Qed.

Lemma prepared_exists cwd extractTo disk disk0 :
  prepared (extractionRoot cwd extractTo) disk disk0 →
  Fs.existsSync disk0 (extractionRoot cwd extractTo) = true.
Proof.
  destruct (extractionRoot_render cwd extractTo) as (segs & Hsegs & ->).
  intros [[Hex ->] | [_ Hmk]]; [done |].
  unfold Fs.existsSync. by rewrite (mkdirSync_isDir _ _ _ Hsegs Hmk), orb_true_r.
Qed.

Lemma keepsPaths_exists disk disk' p :
  keepsPaths disk disk' → Fs.existsSync disk p = true → Fs.existsSync disk' p = true.
Proof.
  intros [Hfiles Hdirs]. unfold Fs.existsSync. rewrite !orb_true_iff.
  intros [H | H]; auto.
Qed.

(** X20.  Extracting the same archive a second time without
    [options.overwrite], after a first extraction that completed without
    warnings, writes nothing: the disk is left exactly as it was, no file
    is listed as extracted, the total size is 0, and each file entry gets
    the warning that its file already exists; the result is still a
    success. *)
Theorem second_extraction_writes_nothing
  cwd entries extractTo options disk r disk' :
  default false (overwrite options) = false →
  performExtraction cwd (Ok entries) extractTo options disk = (Ok r, disk') →
  r_warnings r = None →
  ∃ r2,
    performExtraction cwd (Ok entries) extractTo options disk' = (Ok r2, disk')
    ∧ r_success r2 = true
    ∧ r_extractedFiles r2 = []
    ∧ r_totalSize r2 = 0%N
    ∧ warningsOf r2
      = map (λ e, "Skipped " +:+ entryName e +:+ ": File already exists")
            (fileEntries entries).
Proof.
  intros Hover Hrun Hnone.
  apply performExtraction_run in Hrun
    as [(msg & _ & _ & [=] & _)
       | (disk0 & Hprep & [(why & _ & [=] & _) | (Hvalid & o & s' & Hloop & -> & Hres)])].
  destruct o as [[]|msg]; [| done]. injection Hres as ->.
  cbn [r_warnings] in Hnone.
  assert (warnings s' = []) as Hclean.
  { destruct (warnings s'); [done | discriminate Hnone]. }
  pose proof (loop_clean_files _ _ _ _ _ Hloop Hclean) as Hfiles.
  assert (Fs.existsSync (fs s') (extractionRoot cwd extractTo) = true) as Hroot.
  { apply (keepsPaths_exists disk0); [by apply loop_keepsPaths in Hloop |].
    apply (prepared_exists cwd extractTo disk disk0 Hprep). }
  pose proof (loop_all_exist (extractionRoot cwd extractTo) options entries
                (initialState (fs s')) Hover Hfiles) as Hagain.
  eexists. split.
  - unfold performExtraction, performExtractionM, bind, existsSync, lift.
    unfold initialState at 1. cbn [fs]. rewrite Hroot. cbn [negb]. unfold ret at 1.
    rewrite Hvalid. cbn [isValid valid negb]. unfold ret at 1. fold (initialState (fs s')).
    rewrite Hagain. cbn [fs]. reflexivity.
  - cbn [r_success r_extractedFiles r_totalSize initialState extractedFiles totalSize
         warnings app].
    split; [done |]. split; [done |]. split; [done |].
    unfold warningsOf. cbn [r_warnings].
    by destruct (map _ (fileEntries entries)).
Qed.

Lemma second_extraction_witness :
  let entries := [fileEntry "notes.md" 50 40 50; dirEntry "docs/";
                  fileEntry "docs/a.txt" 7 7 7] in
  let first := performExtraction "/srv/app" (Ok entries)
                 "extracted" noOptions emptyDisk in
  ∃ r2,
    performExtraction "/srv/app" (Ok entries) "extracted" noOptions
      (snd first) = (Ok r2, snd first)
    ∧ r_extractedFiles r2 = []
    ∧ warningsOf r2 = ["Skipped notes.md: File already exists";
                       "Skipped docs/a.txt: File already exists"].
Proof.
  intros entries first.
  set (r0 := match fst first with
             | Ok r => r
             | Throw _ => mkExtractResult false "" [] 0 0 None
             end).
  assert (first = (Ok r0, snd first)) as Hrun by (vm_compute; reflexivity).
  assert (r_warnings r0 = None) as Hnone by (vm_compute; reflexivity).
  pose proof (second_extraction_writes_nothing "/srv/app" entries
                "extracted" noOptions emptyDisk r0 (snd first) eq_refl Hrun Hnone)
    as (r2 & Hagain & _ & Hfiles & _ & Hwarn).
  clearbody r0. exists r2. split; [exact Hagain |]. split; [exact Hfiles |].
  rewrite Hwarn. vm_compute. reflexivity.
Defined.

End RerunProperties.
